(** * onenote_markdown: a shallow embedding of the OneNote-to-Markdown
    converter and the properties of its specification.

    Python [str] values are sequences of Unicode code points; they are
    modelled as [list N].  Library functions whose tables are not part of
    the program ([str.lower], [hashlib.md5], the HTTP client, the HTML
    parser and [html2text]) are section variables. *)

From Stdlib Require Import ZArith NArith Lia String Ascii.
From stdpp Require Import base list gmap sorting pretty.

Set Warnings "-register-all".

Local Open Scope N_scope.

(** ** Python strings *)

Abbreviation pystr := (list N).

(** A string literal of the source, as code points. *)
Definition py (s : string) : pystr :=
  (fix go (s : string) : pystr :=
     match s with
     | EmptyString => []
     | String a s' => N_of_ascii a :: go s'
     end) s.

Definition chr (a : ascii) : N := N_of_ascii a.
Arguments chr : simpl never.

(** ** Runs at the ends and inside a sequence *)

Section Runs.
Context {A : Type}.

(** Drop the elements with [P] at the front. *)
Fixpoint drop_leading (P : A → bool) (l : list A) : list A :=
  match l with
  | [] => []
  | x :: l' => if P x then drop_leading P l' else l
  end.

(** Drop the elements with [P] at the back. *)
Fixpoint drop_trailing (P : A → bool) (l : list A) : list A :=
  match l with
  | [] => []
  | x :: l' =>
      match drop_trailing P l' with
      | [] => if P x then [] else [x]
      | r => x :: r
      end
  end.

(** Cut every maximal run of elements with [P] down to one element. *)
Fixpoint squeeze (P : A → bool) (l : list A) : list A :=
  match l with
  | [] => []
  | x :: l' =>
      match l' with
      | y :: _ => if P x && P y then squeeze P l' else x :: squeeze P l'
      | [] => [x]
      end
  end.

(** No two adjacent elements have [P]. *)
Fixpoint no_adjacent (P : A → bool) (l : list A) : Prop :=
  match l with
  | [] => True
  | x :: l' =>
      match l' with
      | y :: _ => ¬ (P x = true ∧ P y = true)
      | [] => True
      end ∧ no_adjacent P l'
  end.

(** The first and the last element, when there is one, are without [P]. *)
Definition ends_outside (P : A → bool) (l : list A) : Prop :=
  (∀ x, head l = Some x → P x = false) ∧
  (∀ x, last l = Some x → P x = false).

End Runs.

Module Str.

(** [s.replace(a, b)] for one-character [a] and [b]. *)
Definition replace (a b : N) (s : pystr) : pystr :=
  map (λ c, if c =? a then b else c) s.

(** [re.sub(cls, '', s)] for a character class [cls]. *)
Definition remove (cls : N → bool) (s : pystr) : pystr :=
  filter (λ c, cls c = false) s.

(** [re.sub(cls, b, s)] for a character class [cls] and one character [b]. *)
Definition subst_class (cls : N → bool) (b : N) (s : pystr) : pystr :=
  map (λ c, if cls c then b else c) s.

(** [re.sub(c+, c, s)]: every maximal run of [c] becomes a single [c]. *)
Definition collapse (c : N) (s : pystr) : pystr := squeeze (N.eqb c) s.

(** [s.lstrip(chars)], [s.rstrip(chars)] and [s.strip(chars)], the set of
    characters given as a predicate. *)
Definition lstrip (cls : N → bool) (s : pystr) : pystr := drop_leading cls s.
Definition rstrip (cls : N → bool) (s : pystr) : pystr := drop_trailing cls s.
Definition strip (cls : N → bool) (s : pystr) : pystr := rstrip cls (lstrip cls s).

(** [s.startswith(p)] and [p in s]. *)
Fixpoint startswith (p s : pystr) : bool :=
  match p, s with
  | [], _ => true
  | _ :: _, [] => false
  | a :: p', b :: s' => (a =? b) && startswith p' s'
  end.

Fixpoint contains (p s : pystr) : bool :=
  startswith p s ||
  match s with
  | [] => false
  | _ :: s' => contains p s'
  end.

(** [sep.join(parts)] *)
Fixpoint join (sep : pystr) (parts : list pystr) : pystr :=
  match parts with
  | [] => []
  | [p] => p
  | p :: rest => p ++ sep ++ join sep rest
  end.

(** [s.split(sep)[-1]] for a one-character separator: what follows the last
    occurrence of [sep], the whole string when there is none. *)
Fixpoint after_last (sep : N) (s : pystr) : pystr :=
  match s with
  | [] => []
  | x :: s' => if bool_decide (sep ∈ s') then after_last sep s'
               else if x =? sep then s' else s
  end.

End Str.

(** ** Filename sanitizer *)

Definition untitled : pystr := py "untitled".

(** The class [[\x00-\x1f\x7f-\x9f]]. *)
Definition is_control (c : N) : bool :=
  (c <=? 31) || ((127 <=? c) && (c <=? 159)).

Definition in_chars (chars : string) (c : N) : bool :=
  bool_decide (c ∈ py chars).

Definition sanitize_filename (filename : pystr) : pystr :=
  match filename with
  | [] => untitled
  | _ =>
      let filename := Str.replace (chr "\") (chr "-") (Str.replace (chr "/") (chr "-") filename) in
      let filename := Str.remove is_control filename in
      let filename := Str.collapse (chr "-") filename in
      let filename := Str.collapse (chr " ") filename in
      let filename := Str.strip (in_chars " .-") filename in
      match filename with
      | [] => untitled
      | _ => filename
      end
  end.

(** The complement of the class [[^a-z0-9.-]]. *)
Definition is_image_safe (c : N) : bool :=
  ((97 <=? c) && (c <=? 122)) || ((48 <=? c) && (c <=? 57)) || (c =? 46) || (c =? 45).

Section Sanitize_image.

(** [str.lower], the Unicode lower-casing of the Python runtime. *)
Variable lower : pystr → pystr.

Definition sanitize_image_filename (filename : pystr) : pystr :=
  match filename with
  | [] => untitled
  | _ =>
      let filename := Str.replace (chr "\") (chr "-") (Str.replace (chr "/") (chr "-") filename) in
      let filename := lower filename in
      let filename := Str.subst_class (λ c, negb (is_image_safe c)) (chr "-") filename in
      let filename := Str.remove is_control filename in
      let filename := Str.collapse (chr "-") filename in
      let filename := Str.strip (in_chars ".-") filename in
      match filename with
      | [] => untitled
      | _ => filename
      end
  end.

End Sanitize_image.

(** An instance of [str.lower] on ASCII letters, every other code point
    kept; used to run the definitions on concrete inputs. *)
Definition ascii_lower (s : pystr) : pystr :=
  map (λ c, if (65 <=? c) && (c <=? 90) then c + 32 else c) s.

(** ** Results of fallible calls: a value, or a raised exception with its
    message ([str(e)]). *)

Inductive result (A : Type) : Type :=
| Ok (a : A)
| Raise (msg : pystr).
Arguments Ok {A} a.
Arguments Raise {A} msg.

Definition bind {A B : Type} (r : result A) (k : A → result B) : result B :=
  match r with
  | Ok a => k a
  | Raise msg => Raise msg
  end.

Notation "x ←! r ; k" := (bind r (λ x, k))
  (at level 20, r at level 100, k at level 200, only parsing, right associativity).

(** ** Insertion-ordered dictionaries (Python [dict]) *)

Module Dict.
Section Dict.
Context {K V : Type} `{EqDecision K}.

Definition get (k : K) (d : list (K * V)) : option V :=
  snd <$> find (λ kv, bool_decide (kv.1 = k)) d.

Definition mem (k : K) (d : list (K * V)) : bool :=
  bool_decide (k ∈ d.*1).

(** [d[k] = v]: a key already present keeps its position. *)
Fixpoint set (k : K) (v : V) (d : list (K * V)) : list (K * V) :=
  match d with
  | [] => [(k, v)]
  | (k', v') :: d' => if decide (k' = k) then (k, v) :: d' else (k', v') :: set k v d'
  end.

Definition del (k : K) (d : list (K * V)) : list (K * V) :=
  filter (λ kv, kv.1 ≠ k) d.

Definition values (d : list (K * V)) : list V := d.*2.

End Dict.
End Dict.

(** ** Markdown renderer: the clean-up after [html2text] *)

(** The line boundaries of [str.splitlines]. *)
Definition is_linebreak (c : N) : bool :=
  ((10 <=? c) && (c <=? 13)) || ((28 <=? c) && (c <=? 30)) ||
  (c =? 133) || (c =? 8232) || (c =? 8233).

(** The characters [str.strip()] removes: those with [str.isspace]. *)
Definition is_space (c : N) : bool :=
  ((9 <=? c) && (c <=? 13)) || ((28 <=? c) && (c <=? 32)) ||
  (c =? 133) || (c =? 160) || (c =? 5760) ||
  ((8192 <=? c) && (c <=? 8202)) || (c =? 8232) || (c =? 8233) ||
  (c =? 8239) || (c =? 8287) || (c =? 12288).

(** [s.splitlines()]: [cur] is the line being read, in reverse; [after_cr]
    tells that the last character was a carriage return, whose line feed
    belongs to the same boundary.  A final line break opens no new line. *)
Fixpoint splitlines_from (after_cr : bool) (cur : pystr) (s : pystr) : list pystr :=
  match s with
  | [] => match cur with [] => [] | _ => [rev cur] end
  | c :: s' =>
      if after_cr && (c =? 10) then splitlines_from false cur s'
      else if is_linebreak c then rev cur :: splitlines_from (c =? 13) [] s'
      else splitlines_from false (c :: cur) s'
  end.

Definition splitlines (s : pystr) : list pystr := splitlines_from false [] s.

Definition is_blank (line : pystr) : bool :=
  match line with [] => true | _ => false end.

(** The loop over [lines]: the state is [cleaned] and [prev_blank]. *)
Definition clean_step (st : list pystr * bool) (line : pystr) : list pystr * bool :=
  let '(cleaned, prev_blank) := st in
  if is_blank line
  then (if prev_blank then cleaned else cleaned ++ [[]], true)
  else (cleaned ++ [line], false).

(** [while cleaned and cleaned[0] == '': cleaned.pop(0)] *)
Definition pop_leading_blank (cleaned : list pystr) : list pystr :=
  drop_leading is_blank cleaned.

(** [while cleaned and cleaned[-1] == '': cleaned.pop()] *)
Definition pop_trailing_blank (cleaned : list pystr) : list pystr :=
  drop_trailing is_blank cleaned.

(** The lines the clean-up keeps, before they are joined. *)
Definition clean_lines (markdown : pystr) : list pystr :=
  let lines := map (Str.strip is_space) (splitlines markdown) in
  let cleaned := (foldl clean_step ([], false) lines).1 in
  pop_trailing_blank (pop_leading_blank cleaned).

Definition clean_markdown (markdown : pystr) : pystr :=
  Str.join [10] (clean_lines markdown).

(** ** The parsed HTML document *)

(** A node of the BeautifulSoup tree.  Tags are mutable objects: [oid] is
    the identity of the object, by which the passes that hold references
    to elements (the result of [find_all]) reach them. *)
Inductive Node : Type :=
| NavigableString (text : pystr)
| Tag (oid : nat) (name : pystr) (attrs : list (pystr * pystr)) (contents : list Node).

Fixpoint node_text (n : Node) : pystr :=
  match n with
  | NavigableString t => t
  | Tag _ _ _ cs => flat_map node_text cs
  end.

(** Identities of all tags of a subtree, in document order. *)
Fixpoint oids (n : Node) : list nat :=
  match n with
  | NavigableString _ => []
  | Tag i _ _ cs => i :: flat_map oids cs
  end.

(** [soup.find_all(name)]: references to the tags called [name], in
    document order. *)
Fixpoint find_all (name : pystr) (n : Node) : list nat :=
  match n with
  | NavigableString _ => []
  | Tag i nm _ cs =>
      (if bool_decide (nm = name) then [i] else []) ++ flat_map (find_all name) cs
  end.

(** Dereference: the tag with identity [ref]. *)
Fixpoint find_tag (ref : nat) (n : Node) : option Node :=
  match n with
  | NavigableString _ => None
  | Tag i _ _ cs =>
      if bool_decide (i = ref) then Some n
      else (fix go (l : list Node) : option Node :=
              match l with
              | [] => None
              | c :: l' => match find_tag ref c with
                           | Some t => Some t
                           | None => go l'
                           end
              end) cs
  end.

(** In-place mutation of the tag with identity [ref]: every holder of the
    reference sees the change.  [f] receives the tag and returns what stands
    in its place. *)
Fixpoint modify (ref : nat) (f : Node → Node) (n : Node) : Node :=
  match n with
  | NavigableString _ => n
  | Tag i nm attrs cs =>
      if bool_decide (i = ref) then f n else Tag i nm attrs (map (modify ref f) cs)
  end.

(** The identity of a newly created object differs from all those in use. *)
Definition fresh_oid (soup : Node) : nat := S (max_list (oids soup)).

Definition attr (name : string) (attrs : list (pystr * pystr)) : option pystr :=
  Dict.get (py name) attrs.

Definition set_attrs (attrs : list (pystr * pystr)) (n : Node) : Node :=
  match n with
  | Tag i nm _ cs => Tag i nm attrs cs
  | NavigableString _ => n
  end.

(** *** Pass 1: machine-generated alt text *)

Definition clean_alt_step (soup : Node) (img : nat) : Node :=
  match find_tag img soup with
  | Some (Tag _ _ attrs _) =>
      if Str.startswith (py "Machine generated alternative text:") (default [] (attr "alt" attrs))
      then modify img (set_attrs (Dict.set (py "alt") [] attrs)) soup
      else soup
  | _ => soup
  end.

Definition _clean_machine_generated_alt_text (soup : Node) : Node :=
  foldl clean_alt_step soup (find_all (py "img") soup).

(** *** Pass 2: bold spans *)

Definition is_bold_style (style : pystr) : bool :=
  Str.contains (py "font-weight:bold") style || Str.contains (py "font-weight: 700") style.

(** [b = soup.new_tag('b'); b.extend(span.contents); span.clear();
    span.append(b)]: the contents move under [b], and [b] becomes the only
    child of the span. *)
Definition wrap_contents_in_b (b : nat) (span : Node) : Node :=
  match span with
  | Tag i nm attrs cs => Tag i nm attrs [Tag b (py "b") [] cs]
  | NavigableString _ => span
  end.

Definition bold_step (soup : Node) (span : nat) : Node :=
  match find_tag span soup with
  | Some (Tag _ _ attrs _) =>
      if is_bold_style (default [] (attr "style" attrs))
      then modify span (wrap_contents_in_b (fresh_oid soup)) soup
      else soup
  | _ => soup
  end.

Definition _convert_bold_spans (soup : Node) : Node :=
  foldl bold_step soup (find_all (py "span") soup).

(** *** Pass 4: links whose text is their URL *)

Definition link_step (soup : Node) (a : nat) : Node :=
  match find_tag a soup with
  | Some (Tag _ _ attrs cs as tag) =>
      let href := default [] (attr "href" attrs) in
      if negb (is_blank href) && bool_decide (href = Str.strip is_space (node_text tag))
      then modify a (λ _, NavigableString href) soup
      else soup
  | _ => soup
  end.

Definition simplify_links (soup : Node) : Node :=
  foldl link_step soup (find_all (py "a") soup).

(** ** Image fetcher *)

(** [str(n)] of a non-negative integer. *)
Definition str_of_nat (n : nat) : pystr := py (pretty n).

Section Images.

Variable lower : pystr → pystr.
(** [hashlib.md5(url.encode()).hexdigest()]; [encode] raises on a URL
    that holds a lone surrogate. *)
Variable md5_hexdigest : pystr → result pystr.
(** [os.path.splitext(urlparse(url).path)[1]]; [urlparse] raises on a
    malformed URL. *)
Variable url_path_ext : pystr → result pystr.
(** [requests.head(url, headers).headers.get('content-type', '')] *)
Variable http_head : pystr → result pystr.
(** [requests.get] of the URL and the write of its body to the local path
    (a name in the images directory). *)
Variable http_get_save : pystr → pystr → result unit.

(** The extension, from the URL or from the content type. *)
Definition image_ext (image_url : pystr) (headers : option pystr) : result pystr :=
  ext ←! url_path_ext image_url;
  ext ←! match ext, headers with
         | [], Some _ =>
             content_type ←! http_head image_url;
             Ok (if Str.contains (py "image/") content_type
                 then chr "." :: Str.after_last (chr "/") content_type
                 else [])
         | _, _ => Ok ext
         end;
  let ext := match ext with [] => py ".png" | _ => ext end in
  let ext := if Str.startswith (py ".") ext then ext else chr "." :: ext in
  let ext := sanitize_filename (Str.lstrip (N.eqb (chr ".")) ext) in
  let ext := if Str.startswith (py ".") ext then ext else chr "." :: ext in
  Ok ext.

(** [f"{page_name}_image_{url_hash}_{self.image_counter}{ext}"] *)
Definition local_filename (page_name url_hash : pystr) (image_counter : nat) (ext : pystr)
    : pystr :=
  page_name ++ py "_image_" ++ url_hash ++ py "_" ++ str_of_nat image_counter ++ ext.

(** [download_image]: the state is [self.image_counter]; every exception
    is caught and gives [None].  The counter is incremented once the title
    is sanitized and the URL hashed: when the hashing raises it is left as
    it was. *)
Definition download_image (image_url page_title : pystr) (headers : option pystr)
    (image_counter : nat) : option pystr * nat :=
  let page_name := sanitize_image_filename lower page_title in
  match md5_hexdigest image_url with
  | Raise _ => (None, image_counter)
  | Ok digest =>
      let url_hash := take 8 digest in
      let image_counter := (image_counter + 1)%nat in
      let attempt : result pystr :=
        ext ←! image_ext image_url headers;
        let name := local_filename page_name url_hash image_counter ext in
        _ ←! http_get_save image_url name;
        Ok (py "images/" ++ name) in
      match attempt with
      | Ok local_path => (Some local_path, image_counter)
      | Raise _ => (None, image_counter)
      end
  end.

(** *** Pass 3: image resolution *)

Variable access_token : option pystr.

Definition image_headers (img_url : pystr) : option pystr :=
  match access_token with
  | Some ((_ :: _) as token) =>
      if Str.contains (py "graph.microsoft.com") img_url then Some token else None
  | _ => None
  end.

Definition image_url_of (attrs : list (pystr * pystr)) : option pystr :=
  match attr "data-fullres-src" attrs with
  | Some u => Some u
  | None => attr "src" attrs
  end.

Definition resolved_attrs (local_path : pystr) (attrs : list (pystr * pystr)) :=
  Dict.del (py "data-fullres-src-type")
    (Dict.del (py "data-fullres-src")
       (Dict.del (py "data-src-type") (Dict.set (py "src") local_path attrs))).

Definition image_step (page_title : pystr) (is_child_page : bool)
    (st : Node * nat) (img : nat) : Node * nat :=
  let '(soup, image_counter) := st in
  match find_tag img soup with
  | Some (Tag _ _ attrs _) =>
      match image_url_of attrs with
      | Some ((_ :: _) as img_url) =>
          let '(local_path, image_counter) :=
            download_image img_url page_title (image_headers img_url) image_counter in
          match local_path with
          | Some local_path =>
              let local_path := if is_child_page then py "../" ++ local_path else local_path in
              (modify img (set_attrs (resolved_attrs local_path attrs)) soup, image_counter)
          | None => (soup, image_counter)
          end
      | _ => st
      end
  | _ => st
  end.

Definition resolve_images (page_title : pystr) (is_child_page : bool)
    (soup : Node) (image_counter : nat) : Node * nat :=
  foldl (image_step page_title is_child_page) (soup, image_counter) (find_all (py "img") soup).

(** ** [convert_page_to_markdown] *)

(** [BeautifulSoup(html, 'html.parser')] and [h2t.handle(str(soup))]. *)
Variable parse_html : pystr → result Node.
Variable h2t_handle : Node → result pystr.

Definition convert_page_to_markdown (html_content page_title : pystr)
    (is_child_page : bool) (image_counter : nat) : result pystr * nat :=
  match parse_html html_content with
  | Raise msg => (Raise msg, image_counter)
  | Ok soup =>
      let soup := _clean_machine_generated_alt_text soup in
      let soup := _convert_bold_spans soup in
      let '(soup, image_counter) := resolve_images page_title is_child_page soup image_counter in
      let soup := simplify_links soup in
      (markdown ←! h2t_handle soup; Ok (clean_markdown markdown), image_counter)
  end.

End Images.

(** ** Pages *)

Local Open Scope Z_scope.

(** A record of the page listing.  [level] and [order] are read with
    [page.get(key, 0)]: [None] is an absent key. *)
Record Page : Type := mkPage {
  page_id : pystr;
  page_title : pystr;
  page_level : option Z;
  page_order : option Z;
}.

Definition get_level (p : Page) : Z := default 0 (page_level p).
Definition get_order (p : Page) : Z := default 0 (page_order p).

Global Instance Page_eq_dec : EqDecision Page.
Proof. solve_decision. Defined.

(** The value [get_pages] returns: a root page with its ['children'],
    recursively. *)
Inductive PageNode : Type :=
| PNode (page : Page) (children : list PageNode).

Definition node_page (n : PageNode) : Page := match n with PNode p _ => p end.
Definition node_children (n : PageNode) : list PageNode := match n with PNode _ c => c end.

(** All records of a tree, the page before its children. *)
Fixpoint flatten (n : PageNode) : list Page :=
  match n with
  | PNode p cs => p :: flat_map flatten cs
  end.

(** ** [get_pages]: the paginated listing *)

Record Response : Type := mkResponse {
  value : list Page;
  odata_count : option Z;
}.

Definition page_size : nat := 100.

(** Truth value of [response.get("@odata.count")]. *)
Definition truthy_count (c : option Z) : bool :=
  match c with
  | Some n => negb (n =? 0)
  | None => false
  end.

Section Fetch.

(** [_make_request] on the pages of the section, as a function of [$skip];
    the other parameters are fixed. *)
Variable request : nat → result Response.

(** The [while True] loop.  [None] when the loop is still running after
    [fuel] requests. *)
Fixpoint fetch_loop (fuel : nat) (all_pages : list Page) (page_count : Z) (skip : nat)
    : option (result (list Page)) :=
  match fuel with
  | O => None
  | S fuel =>
      match request skip with
      | Raise msg => Some (Raise msg)
      | Ok response =>
          match value response with
          | [] => Some (Ok all_pages)
          | pages =>
              let all_pages := all_pages ++ pages in
              let page_count := page_count + Z.of_nat (length pages) in
              let total_count := odata_count response in
              if truthy_count total_count && (page_count <? default 0 total_count)
              then fetch_loop fuel all_pages page_count (skip + page_size)%nat
              else Some (Ok all_pages)
          end
      end
  end.

Definition fetch_pages (fuel : nat) : option (result (list Page)) :=
  fetch_loop fuel [] 0 0%nat.

End Fetch.

(** ** [get_pages]: the page tree builder *)

(** The key [(order, level)] and the order of Python tuples. *)
Definition sort_key (p : Page) : Z * Z := (get_order p, get_level p).

Definition key_lt (a b : Z * Z) : bool :=
  (a.1 <? b.1) || ((a.1 =? b.1) && (a.2 <? b.2)).

(** [all_pages.sort(key=...)] is a stable sort; it is modelled by the
    stable insertion sort, elements compared with [<] on their keys. *)
Fixpoint insert_page (x : Page) (l : list Page) : list Page :=
  match l with
  | [] => [x]
  | y :: l' => if key_lt (sort_key y) (sort_key x) then y :: insert_page x l' else x :: y :: l'
  end.

Definition sort_pages (l : list Page) : list Page := foldr insert_page [] l.

(** The page dictionaries are mutable objects, reached through
    [page_map] and through the ['children'] list of their parent.  While
    the hierarchy is built a page is kept with its identity [ref], its
    position in the sorted [all_pages]; the fields [id], [title], [level]
    and [order] never change. *)
Inductive PageObj : Type :=
| PObj (ref : nat) (page : Page) (children : list PageObj).

Definition obj_ref (o : PageObj) : nat := match o with PObj r _ _ => r end.

(** [parent['children'].append(child)], seen from a holder of [o]: the
    object [parent] is changed wherever it is reached. *)
Fixpoint append_child (parent : nat) (child : PageObj) (o : PageObj) : PageObj :=
  match o with
  | PObj r p kids =>
      if bool_decide (r = parent) then PObj r p (kids ++ [child])
      else PObj r p (map (append_child parent child) kids)
  end.

(** The page a finished object stands for. *)
Fixpoint to_node (o : PageObj) : PageNode :=
  match o with
  | PObj _ p kids => PNode p (map to_node kids)
  end.

Record Builder : Type := mkBuilder {
  page_map : list (pystr * nat);
  root_pages : list PageObj;
}.

Definition ref_level (all_pages : list Page) (ref : nat) : option Z :=
  get_level <$> all_pages !! ref.

(** One iteration of [for page in all_pages], [page] being the object [ref]. *)
Definition build_step (all_pages : list Page) (b : Builder) (ref : nat) (page : Page) : Builder :=
  let obj := PObj ref page [] in
  let page_map := Dict.set (page_id page) ref (page_map b) in
  let level := get_level page in
  if level =? 0 then
    mkBuilder page_map (root_pages b ++ [obj])
  else
    match find (λ prev, bool_decide (ref_level all_pages prev = Some (level - 1)))
               (reverse (Dict.values page_map)) with
    | Some parent => mkBuilder page_map (map (append_child parent obj) (root_pages b))
    | None => mkBuilder page_map (root_pages b ++ [obj])
    end.

Fixpoint build_from (all_pages : list Page) (ref : nat) (todo : list Page) (b : Builder) : Builder :=
  match todo with
  | [] => b
  | page :: todo => build_from all_pages (S ref) todo (build_step all_pages b ref page)
  end.

Definition build (all_pages : list Page) : Builder :=
  build_from all_pages 0 all_pages (mkBuilder [] []).

(** The hierarchy built from the pages fetched. *)
Definition build_tree (fetched : list Page) : list PageNode :=
  let all_pages := sort_pages fetched in
  map to_node (root_pages (build all_pages)).

Definition get_pages (request : nat → result Response) (fuel : nat)
    : option (result (list PageNode)) :=
  match fetch_pages request fuel with
  | None => None
  | Some (Raise msg) => Some (Raise msg)
  | Some (Ok all_pages) =>
      match all_pages with
      | [] => Some (Ok [])
      | _ => Some (Ok (build_tree all_pages))
      end
  end.

Local Close Scope Z_scope.

(** ** Output paths *)

(** A [pathlib.Path], as its components. *)
Abbreviation path := (list pystr).

(** [dir / name] for a name that is a single component. *)
Definition path_join (dir : path) (name : pystr) : path := dir ++ [name].

(** [p.parent] *)
Definition path_parent (p : path) : path := removelast p.

(** What [process_page] decides before it fetches the page: where the
    Markdown file goes, the images directory, and the directories it
    creates ([mkdir(parents=True, exist_ok=True)]), in order. *)
Record PagePlan : Type := mkPlan {
  page_dir : path;
  markdown_path : path;
  is_child_page : bool;
  images_dir : path;
  mkdirs : list path;
}.

Definition has_children (page : PageNode) : bool :=
  match node_children page with [] => false | _ => true end.

Definition plan_page (page : PageNode) (output_path : path) (parent_dir : option path) : PagePlan :=
  let sanitized_title := sanitize_filename (page_title (node_page page)) in
  let images_dir := path_join output_path (py "images") in
  match parent_dir with
  | Some parent_dir =>
      let page_dir := parent_dir in
      let markdown_path := path_join page_dir (sanitized_title ++ py ".md") in
      mkPlan page_dir markdown_path true images_dir
        [page_dir; images_dir; path_parent markdown_path]
  | None =>
      if has_children page then
        let page_dir := path_join output_path sanitized_title in
        let markdown_path := path_join output_path (sanitized_title ++ py ".md") in
        mkPlan page_dir markdown_path false images_dir
          [page_dir; images_dir; path_parent markdown_path]
      else
        let page_dir := output_path in
        let markdown_path := path_join output_path (sanitized_title ++ py ".md") in
        mkPlan page_dir markdown_path false images_dir
          [images_dir; path_parent markdown_path]
  end.

(** [collect_pages]: the tasks, in the order of the appends to [all_pages]. *)
Fixpoint collect_pages (section_output_path : path) (page : PageNode)
    (parent_dir : option path) : list (PageNode * option path) :=
  match page with
  | PNode p kids =>
      let page_dir :=
        match parent_dir with
        | None => path_join section_output_path (sanitize_filename (page_title p))
        | Some parent_dir => parent_dir
        end in
      (page, parent_dir) ::
      flat_map (λ child, collect_pages section_output_path child (Some page_dir)) kids
  end.

Definition collect_all (section_output_path : path) (pages : list PageNode)
    : list (PageNode * option path) :=
  flat_map (λ page, collect_pages section_output_path page None) pages.

(** ** [process_page] and the batch *)

Section Convert.

Variable lower : pystr → pystr.
Variable md5_hexdigest : pystr → result pystr.
Variable url_path_ext : pystr → result pystr.
Variable http_head : pystr → result pystr.
Variable http_get_save : pystr → pystr → result unit.
Variable access_token : option pystr.
Variable parse_html : pystr → result Node.
Variable h2t_handle : Node → result pystr.
(** [client.get_page_content(page_id)] *)
Variable get_page_content : pystr → result pystr.
(** [open(markdown_path, 'w')] and the two writes: the exception they raise
    at this path, if any. *)
Variable write_error : path → option pystr.
(** [p.mkdir(parents=True, exist_ok=True)]: the exception it raises at this
    path, if any (the path, or one above it, is a file; no permission). *)
Variable mkdir_error : path → option pystr.

(** The directories [dirs] made one after the other, up to the first that
    cannot be made. *)
Fixpoint mkdir_all (dirs : list path) : result unit :=
  match dirs with
  | [] => Ok tt
  | dir :: dirs =>
      match mkdir_error dir with
      | Some msg => Raise msg
      | None => mkdir_all dirs
      end
  end.

(** A Markdown file written: its path and its text. *)
Definition File : Type := path * pystr.

(** [process_page]; the state is [self.image_counter].  Of the
    directories of the plan, the last one (the parent of the Markdown file)
    is made after the conversion and the others before the counter is
    reset: a [mkdir] that raises there leaves the counter as it was. *)
Definition process_page (page : PageNode) (output_path : path) (parent_dir : option path)
    (image_counter : nat) : result File * nat :=
  let title := page_title (node_page page) in
  let plan := plan_page page output_path parent_dir in
  match mkdir_all (removelast (mkdirs plan)) with
  | Raise msg => (Raise msg, image_counter)
  | Ok _ =>
      let image_counter := 0%nat in
      match get_page_content (page_id (node_page page)) with
      | Raise msg => (Raise msg, image_counter)
      | Ok html_content =>
          let '(markdown_content, image_counter) :=
            convert_page_to_markdown lower md5_hexdigest url_path_ext http_head http_get_save
              access_token parse_html h2t_handle html_content title (is_child_page plan)
              image_counter in
          (markdown_content ←! markdown_content;
           _ ←! mkdir_all [path_parent (markdown_path plan)];
           match write_error (markdown_path plan) with
           | Some msg => Raise msg
           | None =>
               Ok (markdown_path plan, py "# " ++ title ++ [10; 10]%N ++ markdown_content)
           end, image_counter)
      end
  end.

(** The state of the batch: the counter, the files written so far and
    [failed_pages]. *)
Record Batch : Type := mkBatch {
  counter : nat;
  written : list File;
  failed_pages : list (pystr * pystr);
}.

(** One task: [future.result()] inside [try ... except Exception].  The
    workers of the pool run [process_page] side by side and share
    [self.image_counter]; the batch is modelled with the tasks taking
    effect one after the other, in the order in which their results are
    collected, the counter handed from each task to the next.  What the
    counter does when the steps of two pages interleave is outside this
    model. *)
Definition run_task (section_output_path : path) (b : Batch)
    (task : PageNode * option path) : Batch :=
  let '(page, parent_dir) := task in
  match process_page page section_output_path parent_dir (counter b) with
  | (Ok file, c) => mkBatch c (written b ++ [file]) (failed_pages b)
  | (Raise error_msg, c) =>
      mkBatch c (written b) (failed_pages b ++ [(page_title (node_page page), error_msg)])
  end.

(** The pages of one section: the tasks are collected, each one is run,
    and the failures are gathered for the summary. *)
Definition convert_section (section_output_path : path) (pages : list PageNode) : Batch :=
  foldl (run_task section_output_path) (mkBatch 0 [] [])
        (collect_all section_output_path pages).

End Convert.

(** * Vocabulary of the specification *)

(** ** Sanitizer *)

(** What a sanitized title looks like. *)
Definition clean_title (s : pystr) : Prop :=
  s ≠ [] ∧ (chr "/" ∉ s) ∧ (chr "\" ∉ s) ∧ Forall (λ c, is_control c = false) s ∧
  no_adjacent (N.eqb (chr "-")) s ∧ no_adjacent (N.eqb (chr " ")) s ∧
  ends_outside (in_chars " .-") s.

(** What a sanitized image name looks like. *)
Definition clean_image_name (s : pystr) : Prop :=
  s ≠ [] ∧ Forall (λ c, is_image_safe c = true) s ∧
  no_adjacent (N.eqb (chr "-")) s ∧ ends_outside (in_chars ".-") s.

(** Characters that the title sanitizer removes or trims. *)
Definition vanishing (c : N) : bool :=
  is_control c || in_chars " .-/\" c.

(** Characters of which nothing stays in an image name: all but the
    letters [a-z] and the digits.  Those outside [a-z0-9.-] become dashes,
    and dashes and dots alone are trimmed away. *)
Definition image_vanishing (c : N) : bool :=
  negb (((97 <=? c) && (c <=? 122)) || ((48 <=? c) && (c <=? 57))).

(** ** Markdown clean-up *)

(** The canonical form of a Markdown text, given the way [trim] a line is
    trimmed: every line trimmed, every run of blank lines cut down to one,
    the blank lines at both ends removed. *)
Definition canonical_lines (trim : pystr → pystr) (markdown : pystr) : list pystr :=
  drop_trailing is_blank
    (drop_leading is_blank (squeeze is_blank (map trim (splitlines markdown)))).

Definition non_blank (line : pystr) : Prop := is_blank line = false.

(** ** Image names *)

Definition is_digit (c : N) : bool := (48 <=? c) && (c <=? 57).

Section Image_calls.

Variable lower : pystr → pystr.
Variable md5_hexdigest : pystr → result pystr.
Variable url_path_ext : pystr → result pystr.
Variable http_head : pystr → result pystr.
Variable http_get_save : pystr → pystr → result unit.

(** A URL that [encode] accepts, so that it can be hashed. *)
Definition encodable (image_url : pystr) : Prop :=
  ∃ digest, md5_hexdigest image_url = Ok digest.

(** The calls of [download_image] made one after the other for one page,
    each with its URL and headers: what each call returns. *)
Fixpoint download_images (calls : list (pystr * option pystr)) (page_title : pystr)
    (image_counter : nat) : list (option pystr) :=
  match calls with
  | [] => []
  | (image_url, headers) :: calls =>
      let '(local_path, image_counter) :=
        download_image lower md5_hexdigest url_path_ext http_head http_get_save
          image_url page_title headers image_counter in
      local_path :: download_images calls page_title image_counter
  end.

End Image_calls.

(** Stand-ins for the library and the network, to run the image fetcher:
    every URL ends in [.png], every request succeeds. *)
Definition md5_stub (url : pystr) : result pystr :=
  Ok (py "d41d8cd98f00b204e9800998ecf8427e").
Definition ext_stub (url : pystr) : result pystr := Ok (py ".png").
Definition head_stub (url : pystr) : result pystr := Ok (py "image/png").
Definition get_stub (url name : pystr) : result unit := Ok tt.

(** ** The page listing *)

(** A listing service that holds the pages of a section and answers a
    request with the [page_size] pages that follow the first [skip];
    [with_count] tells whether its responses carry [@odata.count]. *)
Definition serve (with_count : bool) (pages : list Page) (skip : nat) : result Response :=
  Ok (mkResponse (take page_size (drop skip pages))
        (if with_count then Some (Z.of_nat (length pages)) else None)).

(** A section of [n] top-level pages, numbered from 0. *)
Definition numbered_pages (n : nat) : list Page :=
  map (λ i, mkPage (str_of_nat i) (str_of_nat i) (Some 0%Z) (Some (Z.of_nat i))) (seq 0 n).

(** ** Directory layout *)

(** The Markdown files of the tasks of a section, in task order. *)
Definition markdown_paths (section_output_path : path) (pages : list PageNode) : list path :=
  map (λ task, markdown_path (plan_page task.1 section_output_path task.2))
      (collect_all section_output_path pages).

(** The layout in which every page with children owns a directory: the
    Markdown file of a page lies in [dir], the directory of its parent, and
    the files of its children lie in the directory named after its
    sanitized title inside [dir]. *)
Fixpoint nested_layout (dir : path) (page : PageNode) : list path :=
  match page with
  | PNode p kids =>
      path_join dir (sanitize_filename (page_title p) ++ py ".md") ::
      flat_map (nested_layout (path_join dir (sanitize_filename (page_title p)))) kids
  end.

(** The layout in which only top-level pages own a directory: the files of
    all descendants of a top-level page, at any depth, lie directly in the
    directory named after the top-level page. *)
Definition md_file (dir : path) (p : Page) : path :=
  path_join dir (sanitize_filename (page_title p) ++ py ".md").

Definition flat_layout (section_output_path : path) (page : PageNode) : list path :=
  md_file section_output_path (node_page page) ::
  map (md_file (path_join section_output_path (sanitize_filename (page_title (node_page page)))))
      (flat_map flatten (node_children page)).

(** A page called [title] with the given children. *)
Definition titled (title : string) (kids : list PageNode) : PageNode :=
  PNode (mkPage (py title) (py title) None None) kids.

(** ** The batch *)

Section Outcome.

Variable lower : pystr → pystr.
Variable md5_hexdigest : pystr → result pystr.
Variable url_path_ext : pystr → result pystr.
Variable http_head : pystr → result pystr.
Variable http_get_save : pystr → pystr → result unit.
Variable access_token : option pystr.
Variable parse_html : pystr → result Node.
Variable h2t_handle : Node → result pystr.
Variable get_page_content : pystr → result pystr.
Variable write_error : path → option pystr.
Variable mkdir_error : path → option pystr.

(** What [process_page] does for a task: the file it writes, or the
    exception it raises. *)
Definition task_result (section_output_path : path) (task : PageNode * option path)
    : result File :=
  (process_page lower md5_hexdigest url_path_ext http_head http_get_save access_token
     parse_html h2t_handle get_page_content write_error mkdir_error
     task.1 section_output_path task.2 0).1.

End Outcome.

Definition file_written (r : result File) : option File :=
  match r with
  | Ok file => Some file
  | Raise _ => None
  end.

Definition failure_of (task : PageNode * option path) (r : result File)
    : option (pystr * pystr) :=
  match r with
  | Ok _ => None
  | Raise error_msg => Some (page_title (node_page task.1), error_msg)
  end.

(** Stand-ins to run a batch: the parser wraps the text in a document, the
    renderer gives the text back, no write and no [mkdir] fails, and the
    content of the page with id [Page 3] cannot be fetched. *)
Definition parse_stub (html : pystr) : result Node :=
  Ok (Tag 0 (py "[document]") [] [NavigableString html]).
Definition h2t_stub (soup : Node) : result pystr := Ok (node_text soup).
Definition write_stub (p : path) : option pystr := None.
Definition mkdir_stub (p : path) : option pystr := None.
Definition content_stub (page_id : pystr) : result pystr :=
  if bool_decide (page_id = py "Page 3")
  then Raise (py "Failed to get page content: 500 - ")
  else Ok (py "hello").

Definition five_pages : list PageNode :=
  [titled "Page 1" []; titled "Page 2" []; titled "Page 3" []; titled "Page 4" [];
   titled "Page 5" []].

(** ** Bold spans *)

Definition style_of (attrs : list (pystr * pystr)) : pystr :=
  default [] (attr "style" attrs).

(** A span whose style has [font-weight:bold] or [font-weight: 700]. *)
Definition is_bold_span (name : pystr) (attrs : list (pystr * pystr)) : bool :=
  bool_decide (name = py "span") && is_bold_style (style_of attrs).

(** The tags of a subtree with their names and attributes, in document
    order. *)
Fixpoint tags (n : Node) : list (nat * pystr * list (pystr * pystr)) :=
  match n with
  | NavigableString _ => []
  | Tag i nm attrs cs => (i, nm, attrs) :: flat_map tags cs
  end.

(** [wrapped_where processed fresh orig cur]: [cur] is [orig] in which
    every bold span whose identity is [processed] has its contents under a
    new [b] element, its only child, of a [fresh] identity; everything
    else is as in [orig]. *)
Inductive wrapped_where (processed fresh : nat → Prop) : Node → Node → Prop :=
| ww_text t :
    wrapped_where processed fresh (NavigableString t) (NavigableString t)
| ww_bold i nm attrs cs cs' b :
    is_bold_span nm attrs = true → processed i → fresh b →
    Forall2 (wrapped_where processed fresh) cs cs' →
    wrapped_where processed fresh (Tag i nm attrs cs) (Tag i nm attrs [Tag b (py "b") [] cs'])
| ww_keep i nm attrs cs cs' :
    (is_bold_span nm attrs = true → ¬ processed i) →
    Forall2 (wrapped_where processed fresh) cs cs' →
    wrapped_where processed fresh (Tag i nm attrs cs) (Tag i nm attrs cs').

(** The document after the pass: all bold spans wrapped. *)
Definition bold_wrapped : Node → Node → Prop :=
  wrapped_where (λ _, True) (λ _, True).

(** A span whose style names the weight in a spelling other than the two
    that [is_bold_span] knows, such as [font-weight: bold] or
    [font-weight:700]. *)
Definition other_weight (name : pystr) (attrs : list (pystr * pystr)) : bool :=
  bool_decide (name = py "span") && Str.contains (py "font-weight") (style_of attrs) &&
  negb (is_bold_span name attrs).

(** [promoted orig cur]: [cur] is [orig] in which every bold span has its
    contents under a new [b] element, its only child, and stays where it
    was; an element that is no span, and a span whose style does not name
    the weight, is as in [orig].  Of a span that names the weight in
    another spelling nothing is said but that it stays, with its contents
    as they are or under a new [b]. *)
Inductive promoted : Node → Node → Prop :=
| pr_text t :
    promoted (NavigableString t) (NavigableString t)
| pr_bold i nm attrs cs cs' b :
    is_bold_span nm attrs = true →
    Forall2 promoted cs cs' →
    promoted (Tag i nm attrs cs) (Tag i nm attrs [Tag b (py "b") [] cs'])
| pr_keep i nm attrs cs cs' :
    is_bold_span nm attrs = false → other_weight nm attrs = false →
    Forall2 promoted cs cs' →
    promoted (Tag i nm attrs cs) (Tag i nm attrs cs')
| pr_other i nm attrs cs cs' kept :
    other_weight nm attrs = true →
    Forall2 promoted cs cs' →
    kept = cs' ∨ (∃ b, kept = [Tag b (py "b") [] cs']) →
    promoted (Tag i nm attrs cs) (Tag i nm attrs kept).

(** The document [<span style=...>Hi</span>]. *)
Definition span_hi (style : string) : Node :=
  Tag 0 (py "[document]") []
    [Tag 1 (py "span") [(py "style", py style)] [NavigableString (py "Hi")]].

(** ** Page tree *)

(** The objects of a hierarchy, parent before children: what [g] makes of
    the identity and the record of each. *)
Fixpoint walk {X : Type} (g : nat → Page → X) (o : PageObj) : list X :=
  match o with
  | PObj r p kids => g r p :: flat_map (walk g) kids
  end.

Definition obj_refs (o : PageObj) : list nat := walk (λ r _, r) o.

(** Every object stands for the record at its position in [all_pages], and
    has been processed strictly before each of its children. *)
Fixpoint well_placed (all_pages : list Page) (o : PageObj) : Prop :=
  match o with
  | PObj r p kids =>
      all_pages !! r = Some p ∧
      (fix all (l : list PageObj) : Prop :=
         match l with
         | [] => True
         | k :: l => (r < obj_ref k)%nat ∧ well_placed all_pages k ∧ all l
         end) kids
  end.

(** The order of the sort keys. *)
Definition key_le (a b : Z * Z) : Prop := key_lt b a = false.

(** The reference algorithm: the records are walked in sorted order, [seen]
    holding the records processed so far in processing order; a record at
    level 0 is a root; a record at level L > 0 becomes the last child of the
    most recently processed record at level L - 1, or a root if there is
    none. *)
Record Reference : Type := mkReference {
  seen : list nat;
  ref_roots : list PageObj;
}.

Definition most_recent_at (all_pages : list Page) (level : Z) (seen : list nat) : option nat :=
  last (filter (λ prev, ref_level all_pages prev = Some level) seen).

Definition reference_step (all_pages : list Page) (st : Reference) (ref : nat) (page : Page)
    : Reference :=
  let obj := PObj ref page [] in
  let seen := seen st ++ [ref] in
  let level := get_level page in
  if (level =? 0)%Z then mkReference seen (ref_roots st ++ [obj])
  else
    match most_recent_at all_pages (level - 1) seen with
    | Some parent => mkReference seen (map (append_child parent obj) (ref_roots st))
    | None => mkReference seen (ref_roots st ++ [obj])
    end.

Fixpoint reference_from (all_pages : list Page) (ref : nat) (todo : list Page) (st : Reference)
    : Reference :=
  match todo with
  | [] => st
  | page :: todo => reference_from all_pages (S ref) todo (reference_step all_pages st ref page)
  end.

Definition reference_tree (fetched : list Page) : list PageNode :=
  let all_pages := sort_pages fetched in
  map to_node (ref_roots (reference_from all_pages 0 all_pages (mkReference [] []))).

(** A record with the given id, level and order. *)
Definition record (id : nat) (level order : Z) : Page :=
  mkPage (str_of_nat id) (py "Page " ++ str_of_nat id) (Some level) (Some order).

(** The state of the builder after [k] records of [all_pages]: every one
    of them is in the hierarchy exactly once, each under a parent processed
    before it, and [page_map] refers to records processed. *)
Definition built (all_pages : list Page) (k : nat) (b : Builder) : Prop :=
  flat_map obj_refs (root_pages b) ≡ₚ seq 0 k ∧
  flat_map (walk (λ _ p, p)) (root_pages b) ≡ₚ take k all_pages ∧
  Forall (well_placed all_pages) (root_pages b) ∧
  Forall (λ r, (r < k)%nat) (Dict.values (page_map b)).


(** ** The images of a page *)

Section Page_images.

Variable access_token : option pystr.

(** The call of [download_image] that the loop over the images makes for
    an element: none unless it is an [img] with a URL that is not empty,
    [data-fullres-src] before [src]. *)
Definition image_request (name : pystr) (attrs : list (pystr * pystr))
    : option (pystr * option pystr) :=
  if bool_decide (name = py "img") then
    match image_url_of attrs with
    | Some ((_ :: _) as img_url) => Some (img_url, image_headers access_token img_url)
    | _ => None
    end
  else None.

(** The calls for a document, in document order. *)
Definition image_requests (soup : Node) : list (pystr * option pystr) :=
  omap (λ t : nat * pystr * list (pystr * pystr), image_request t.1.2 t.2) (tags soup).

(** The elements [ts] with the results of the calls put in, the first
    result in the first element that has a call, and so on: a path
    returned becomes the [src], with [../] before it on a child page, and
    the [data-] attributes go; an element whose call returned [None] stays
    as it is. *)
Fixpoint placed (is_child_page : bool) (ts : list (nat * pystr * list (pystr * pystr)))
    (results : list (option pystr)) : list (nat * pystr * list (pystr * pystr)) :=
  match ts with
  | [] => []
  | (i, nm, attrs) :: ts =>
      match image_request nm attrs, results with
      | Some _, Some local_path :: results =>
          (i, nm, resolved_attrs
                    (if is_child_page then py "../" ++ local_path else local_path) attrs)
          :: placed is_child_page ts results
      | Some _, None :: results => (i, nm, attrs) :: placed is_child_page ts results
      | _, _ => (i, nm, attrs) :: placed is_child_page ts results
      end
  end.

End Page_images.

(** A page with two images, the second without a URL of its own kind but
    with a [src], and a parser that returns it. *)
Definition two_images : Node :=
  Tag 0 (py "[document]") []
    [Tag 1 (py "img") [(py "data-fullres-src", py "https://example.com/a")] [];
     Tag 2 (py "p") [] [NavigableString (py "text")];
     Tag 3 (py "img") [(py "src", py "https://example.com/b")] []].
Definition parse_images_stub (html : pystr) : result Node := Ok two_images.
(** * More of the program *)

(** ** [count_pages] and [print_page_hierarchy] *)

Fixpoint count_pages (page : PageNode) : nat :=
  match page with
  | PNode _ kids => foldl (λ count child, count + count_pages child)%nat 1%nat kids
  end.

(** [sum(count_pages(page) for page in pages)] *)
Definition total_pages (pages : list PageNode) : nat :=
  foldl (λ count page, count + count_pages page)%nat 0%nat pages.

(** The lines [print_page_hierarchy] echoes: two spaces for each level, a
    bullet and the title. *)
Fixpoint hierarchy_lines (level : nat) (page : PageNode) : list pystr :=
  match page with
  | PNode p kids =>
      (concat (replicate level (py "  ")) ++ [8226; 32] ++ page_title p) ::
      flat_map (hierarchy_lines (S level)) kids
  end.

Definition print_page_hierarchy (pages : list PageNode) (level : nat) : list pystr :=
  flat_map (hierarchy_lines level) pages.

(** * More vocabulary *)

(** A line holds no line boundary. *)
Definition no_linebreak (line : pystr) : Prop := Forall (λ c, is_linebreak c = false) line.

(** A character that can stand in a file name: no separator, no control
    character. *)
Definition name_char (c : N) : Prop :=
  c ≠ chr "/" ∧ c ≠ chr "\" ∧ is_control c = false.

Local Open Scope Z_scope.

Definition obj_page (o : PageObj) : Page := match o with PObj _ p _ => p end.

(** Every child is one level below its parent. *)
Fixpoint levelled (n : PageNode) : Prop :=
  match n with
  | PNode p kids =>
      (fix all (l : list PageNode) : Prop :=
         match l with
         | [] => True
         | k :: l => get_level (node_page k) = get_level p + 1 ∧ levelled k ∧ all l
         end) kids
  end.

Fixpoint obj_levelled (o : PageObj) : Prop :=
  match o with
  | PObj _ p kids =>
      (fix all (l : list PageObj) : Prop :=
         match l with
         | [] => True
         | k :: l => get_level (obj_page k) = get_level p + 1 ∧ obj_levelled k ∧ all l
         end) kids
  end.

(** A listing is well formed when every record below level 0 comes, in
    sorted order, after some record one level above it. *)
Definition well_formed_listing (all_pages : list Page) : Prop :=
  ∀ i p, all_pages !! i = Some p → get_level p ≠ 0 →
  ∃ j q, (j < i)%nat ∧ all_pages !! j = Some q ∧ get_level q = get_level p - 1.

Local Close Scope Z_scope.

(** The pages of the [i]-th batch of a listing: what the request with
    [$skip] = [i * page_size] returns. *)
Definition batch (request : nat → result Response) (i : nat) : list Page :=
  match request (i * page_size)%nat with
  | Ok response => value response
  | Raise _ => []
  end.

(** * More of the program: the client *)

(** ** [_make_request] *)

(** Exceptions, told apart as [except requests.exceptions.RequestException]
    does. *)
Inductive Exn : Type :=
| RequestException (msg : pystr)
| OtherException (msg : pystr).

Inductive Outcome (A : Type) : Type :=
| Return (a : A)
| Throw (e : Exn).
Arguments Return {A} a.
Arguments Throw {A} e.

Record HttpResponse (J : Type) : Type := mkHttp {
  status_code : nat;
  json : Outcome J;
}.
Arguments mkHttp {J} _ _.
Arguments status_code {J} _.
Arguments json {J} _.

(** The client and what it has done so far: [self.access_token], the calls
    of [get_access_token] and of [requests.get], and the arguments of
    [time.sleep], in order. *)
Record Session : Type := mkSession {
  token : option pystr;
  acquired : nat;
  requested : nat;
  slept : list Z;
}.

Definition max_retries : nat := 3.

Section Make_request.

Context {J : Type}.

(** The [n]-th call of [get_access_token]; the [n]-th call of
    [requests.get], with the bearer token it carries; [str(e)] of the
    [HTTPError] that [raise_for_status] raises for a status. *)
Variable get_access_token : nat → Outcome pystr.
Variable requests_get : nat → pystr → Outcome (HttpResponse J).
Variable http_error : nat → pystr.

Definition raise_for_status (response : HttpResponse J) : Outcome unit :=
  if (400 <=? status_code response)%nat && (status_code response <? 600)%nat
  then Throw (RequestException (http_error (status_code response)))
  else Return tt.

Definition sleep (seconds : Z) (s : Session) : Session :=
  mkSession (token s) (acquired s) (requested s) (slept s ++ [seconds]).

(** [for attempt in range(max_retries)] with its [try] and [except], and
    the [raise] that follows the loop. *)
Fixpoint request_attempts (attempts : list nat) (retry_delay : Z) (bearer : pystr)
    (s : Session) : Outcome J * Session :=
  match attempts with
  | [] => (Throw (OtherException (py "All retry attempts failed")), s)
  | attempt :: attempts =>
      let retry := (attempt <? max_retries - 1)%nat in
      let call := requested s in
      let s := mkSession (token s) (acquired s) (S (requested s)) (slept s) in
      let handler (e : pystr) (s : Session) : Outcome J * Session :=
        if retry
        then request_attempts attempts (retry_delay * 2)%Z bearer (sleep retry_delay s)
        else (Throw (RequestException e), s) in
      match requests_get call bearer with
      | Throw (RequestException e) => handler e s
      | Throw (OtherException e) => (Throw (OtherException e), s)
      | Return response =>
          if (status_code response =? 401)%nat && retry then
            let s' := mkSession (token s) (S (acquired s)) (requested s) (slept s) in
            match get_access_token (acquired s) with
            | Return t =>
                request_attempts attempts retry_delay t
                  (mkSession (Some t) (S (acquired s)) (requested s) (slept s))
            | Throw (RequestException e) => handler e s'
            | Throw (OtherException e) => (Throw (OtherException e), s')
            end
          else if (status_code response =? 504)%nat && retry then
            request_attempts attempts (retry_delay * 2)%Z bearer (sleep retry_delay s)
          else
            match raise_for_status response with
            | Throw (RequestException e) => handler e s
            | Throw (OtherException e) => (Throw (OtherException e), s)
            | Return _ =>
                match json response with
                | Throw (RequestException e) => handler e s
                | Throw (OtherException e) => (Throw (OtherException e), s)
                | Return body => (Return body, s)
                end
            end
      end
  end.

Definition _make_request (s : Session) : Outcome J * Session :=
  match token s with
  | Some ((_ :: _) as bearer) => request_attempts (seq 0 max_retries) 2 bearer s
  | _ =>
      match get_access_token (acquired s) with
      | Return bearer =>
          request_attempts (seq 0 max_retries) 2 bearer
            (mkSession (Some bearer) (S (acquired s)) (requested s) (slept s))
      | Throw e => (Throw e, mkSession (token s) (S (acquired s)) (requested s) (slept s))
      end
  end.

(** Where an outcome comes from: the body of a response whose status is no
    error, an exception of [requests.get], of [get_access_token] or of
    [response.json], or the error status of a response. *)
Definition explained (out : Outcome J) : Prop :=
  (∃ n t r, requests_get n t = Return r ∧ raise_for_status r = Return tt ∧
            out = json r) ∨
  (∃ n t e, requests_get n t = Throw e ∧ out = Throw e) ∨
  (∃ n e, get_access_token n = Throw e ∧ out = Throw e) ∨
  (∃ n t r, requests_get n t = Return r ∧
            (400 ≤ status_code r < 600)%nat ∧
            out = Throw (RequestException (http_error (status_code r)))).

End Make_request.

(** The delays of [k] retries in a row that start from [delay]: each is
    twice the one before. *)
Definition backoff (delay : Z) (k : nat) : list Z :=
  map (λ i, delay * 2 ^ Z.of_nat i)%Z (seq 0 k).

(** ** [download_and_convert] *)

(** A notebook or a section as the Graph API lists it. *)
Record Named : Type := mkNamed {
  displayName : pystr;
  id_ : pystr;
}.

(** What a run has done so far: the directories [download_and_convert]
    itself has made, in order, and for every section it has converted the
    section's directory and the batch of its pages. *)
Record Run : Type := mkRun {
  dirs : list path;
  converted : list (path * Batch);
}.

Section Download.

Variable lower : pystr → pystr.
Variable md5_hexdigest : pystr → result pystr.
Variable url_path_ext : pystr → result pystr.
Variable http_head : pystr → result pystr.
Variable http_get_save : pystr → pystr → result unit.
Variable access_token : option pystr.
Variable parse_html : pystr → result Node.
Variable h2t_handle : Node → result pystr.
Variable get_page_content : pystr → result pystr.
Variable write_error : path → option pystr.
Variable mkdir_error : path → option pystr.
(** [client.get_notebooks()], [client.get_sections(notebook_id)] and
    [client.get_pages(section_id)]. *)
Variable get_notebooks : result (list Named).
Variable get_sections : pystr → result (list Named).
Variable get_pages_of : pystr → result (list PageNode).

Definition section_dir (base_output_path : path) (section : Named) : path :=
  path_join base_output_path (displayName section).

(** [for section in sections]: the body up to the summary. *)
Fixpoint process_sections (base_output_path : path) (sections : list Named) (run : Run)
    : result unit * Run :=
  match sections with
  | [] => (Ok tt, run)
  | section :: sections =>
      let section_output_path := section_dir base_output_path section in
      let images_dir := path_join section_output_path (py "images") in
      match mkdir_error section_output_path with
      | Some msg => (Raise msg, run)
      | None =>
          let run := mkRun (dirs run ++ [section_output_path]) (converted run) in
          match mkdir_error images_dir with
          | Some msg => (Raise msg, run)
          | None =>
              let run := mkRun (dirs run ++ [images_dir]) (converted run) in
              match get_pages_of (id_ section) with
              | Raise msg => (Raise msg, run)
              | Ok pages =>
                  let batch :=
                    convert_section lower md5_hexdigest url_path_ext http_head http_get_save
                      access_token parse_html h2t_handle get_page_content write_error
                      mkdir_error section_output_path pages in
                  process_sections base_output_path sections
                    (mkRun (dirs run) (converted run ++ [(section_output_path, batch)]))
              end
          end
      end
  end.

(** [if section_name: sections = [s for s in sections if ...]] *)
Definition select_sections (section_name : option pystr) (sections : list Named)
    : list Named :=
  match section_name with
  | Some ((_ :: _) as name) => filter (λ s, displayName s = name) sections
  | _ => sections
  end.

Definition download_and_convert (notebook_name : pystr) (section_name : option pystr)
    (output_dir : path) : result unit * Run :=
  match mkdir_error output_dir with
  | Some msg => (Raise msg, mkRun [] [])
  | None =>
  let run := mkRun [output_dir] [] in
  match get_notebooks with
  | Raise msg => (Raise msg, run)
  | Ok notebooks =>
      match List.find (λ n, bool_decide (displayName n = notebook_name)) notebooks with
      | None => (Raise (py "Notebook '" ++ notebook_name ++ py "' not found"), run)
      | Some notebook =>
          match get_sections (id_ notebook) with
          | Raise msg => (Raise msg, run)
          | Ok [] =>
              (Raise (py "No sections found in notebook '" ++ notebook_name ++ py "'"), run)
          | Ok sections =>
              match select_sections section_name sections with
              | [] =>
                  (Raise (py "Section '" ++ default [] section_name ++
                          py "' not found in notebook '" ++ notebook_name ++ py "'"), run)
              | sections => process_sections output_dir sections run
              end
          end
      end
  end
  end.

(** The pages a section lists, and what converting them gives. *)
Definition pages_listed (section : Named) : list PageNode :=
  match get_pages_of (id_ section) with
  | Ok pages => pages
  | Raise _ => []
  end.

Definition section_batch (base_output_path : path) (section : Named) : path * Batch :=
  (section_dir base_output_path section,
   convert_section lower md5_hexdigest url_path_ext http_head http_get_save
     access_token parse_html h2t_handle get_page_content write_error mkdir_error
     (section_dir base_output_path section) (pages_listed section)).

Definition section_dirs (base_output_path : path) (section : Named) : list path :=
  [section_dir base_output_path section;
   path_join (section_dir base_output_path section) (py "images")].

End Download.

(** A client with two notebooks of two sections each; the pages of the
    second section cannot be listed. *)
Definition notebooks_stub : result (list Named) :=
  Ok [mkNamed (py "Work") (py "n1"); mkNamed (py "Home") (py "n2")].
Definition sections_stub (notebook_id : pystr) : result (list Named) :=
  Ok [mkNamed (py "Notes") (py "s1"); mkNamed (py "Ideas") (py "s2")].
Definition pages_stub (section_id : pystr) : result (list PageNode) :=
  if bool_decide (section_id = py "s2")
  then Raise (py "Failed to get pages: 500 - ")
  else Ok five_pages.

(** * More of the program: the passes over the document *)

(** What a pass does to an element it visits: nothing, new attributes, or
    a string in its place. *)
Inductive Action : Type :=
| Keep
| SetAttrs (attrs : list (pystr * pystr))
| Replace (text : pystr).

Definition act (a : Action) (tag : Node) : Node :=
  match a with
  | Keep => tag
  | SetAttrs attrs => set_attrs attrs tag
  | Replace text => NavigableString text
  end.

(** One walk down the tree that treats every element called [name] as
    [decide] says, a parent before its contents; what is replaced by a
    string is not entered. *)
Fixpoint rewrite_tags (name : pystr) (decide : Node → Action) (n : Node) : Node :=
  match n with
  | NavigableString _ => n
  | Tag i nm attrs cs =>
      match (if bool_decide (nm = name) then decide n else Keep) with
      | Keep => Tag i nm attrs (map (rewrite_tags name decide) cs)
      | SetAttrs attrs' => Tag i nm attrs' (map (rewrite_tags name decide) cs)
      | Replace text => NavigableString text
      end
  end.

(** The place of a node in a document: the elements around it, the
    innermost first, each with the contents before and after. *)
Record Frame : Type := mkFrame {
  frame_oid : nat;
  frame_name : pystr;
  frame_attrs : list (pystr * pystr);
  frame_before : list Node;
  frame_after : list Node;
}.

Definition fill (fr : Frame) (n : Node) : Node :=
  Tag (frame_oid fr) (frame_name fr) (frame_attrs fr) (frame_before fr ++ n :: frame_after fr).

Fixpoint plug (ctx : list Frame) (n : Node) : Node :=
  match ctx with
  | [] => n
  | fr :: ctx => plug ctx (fill fr n)
  end.

Definition machine_alt (attrs : list (pystr * pystr)) : bool :=
  Str.startswith (py "Machine generated alternative text:") (default [] (attr "alt" attrs)).

(** The document with the machine-generated alternative text of every
    image emptied. *)
Fixpoint alt_cleaned (n : Node) : Node :=
  match n with
  | NavigableString _ => n
  | Tag i nm attrs cs =>
      Tag i nm
        (if bool_decide (nm = py "img") && machine_alt attrs
         then Dict.set (py "alt") [] attrs else attrs)
        (map alt_cleaned cs)
  end.

Definition bare_link (n : Node) : bool :=
  match n with
  | Tag _ nm attrs _ =>
      let href := default [] (attr "href" attrs) in
      bool_decide (nm = py "a") && negb (is_blank href) &&
      bool_decide (href = Str.strip is_space (node_text n))
  | NavigableString _ => false
  end.

(** The document with every link whose text is its address replaced by the
    address; the links inside such a link go with it. *)
Fixpoint links_simplified (n : Node) : Node :=
  match n with
  | NavigableString _ => n
  | Tag i nm attrs cs =>
      if bare_link n then NavigableString (default [] (attr "href" attrs))
      else Tag i nm attrs (map links_simplified cs)
  end.

Definition alt_action (tag : Node) : Action :=
  match tag with
  | Tag _ _ attrs _ => if machine_alt attrs then SetAttrs (Dict.set (py "alt") [] attrs) else Keep
  | NavigableString _ => Keep
  end.

Definition link_action (tag : Node) : Action :=
  match tag with
  | Tag _ _ attrs _ =>
      let href := default [] (attr "href" attrs) in
      if negb (is_blank href) && bool_decide (href = Str.strip is_space (node_text tag))
      then Replace href else Keep
  | NavigableString _ => Keep
  end.

(** The images of a document with their alternative texts, in document
    order. *)
Definition image_alts (n : Node) : list pystr :=
  omap (λ t : nat * pystr * list (pystr * pystr),
          if bool_decide (t.1.2 = py "img") then Some (default [] (attr "alt" t.2)) else None)
       (tags n).

(** A document with an image and two links. *)
Definition page_doc : Node :=
  Tag 0 (py "[document]") []
    [Tag 1 (py "p") []
       [Tag 2 (py "img")
          [(py "alt", py "Machine generated alternative text: a cat"); (py "src", py "cat.png")]
          [];
        Tag 3 (py "a") [(py "href", py "https://example.com")]
          [NavigableString (py " https://example.com ")]];
     Tag 4 (py "a") [(py "href", py "https://example.org")]
       [NavigableString (py "Example")]].


(** * Properties *)

(** ** Lists *)

Lemma elem_of_flat_map {A B} (f : A → list B) (l : list A) (y : B) :
  y ∈ flat_map f l ↔ ∃ x, y ∈ f x ∧ x ∈ l.
Proof.
  rewrite list_elem_of_In, in_flat_map. split.
  - intros (x & Hx & Hy). exists x. by rewrite !list_elem_of_In.
  - intros (x & Hy & Hx). exists x. by rewrite <-!list_elem_of_In.
Qed.

Lemma Forall2_from_Forall {A B} (Q R : A → B → Prop) (l : list A) (l' : list B) :
  Forall (λ x, ∀ y, Q x y → R x y) l → Forall2 Q l l' → Forall2 R l l'.
Proof.
  intros H H2. induction H2 as [|x y l l' Hxy _ IH]; [constructor|].
  apply Forall_cons in H as [Hx Hl]. constructor; [by apply Hx|by apply IH].
Qed.

(** ** Strings *)

(** Case analysis on the comparisons of a character class. *)
Ltac char_cases :=
  repeat match goal with
         | |- context [(?a <=? ?b)%N] => destruct (N.leb_spec a b)
         | |- context [(?a =? ?b)%N] => destruct (N.eqb_spec a b)
         | H : context [(?a <=? ?b)%N] |- _ => destruct (N.leb_spec a b)
         | H : context [(?a =? ?b)%N] |- _ => destruct (N.eqb_spec a b)
         end; simpl in *; try done; try lia.

(** ** Runs *)

Section Run_facts.
Context {A : Type}.
Implicit Types (P : A → bool) (l : list A).

Lemma squeeze_cons2 P x y l :
  squeeze P (x :: y :: l) =
  if P x && P y then squeeze P (y :: l) else x :: squeeze P (y :: l).
Proof. reflexivity. Qed.

Lemma squeeze_sublist P l : squeeze P l `sublist_of` l.
Proof.
  induction l as [|x [|y l] IH]; [done|done|].
  rewrite squeeze_cons2. destruct (P x && P y).
  - by apply sublist_cons.
  - by apply sublist_skip.
Qed.

Lemma squeeze_head_P P l x :
  head l = Some x → ∃ y, head (squeeze P l) = Some y ∧ P y = P x ∧ (P x = false → y = x).
Proof.
  revert x. induction l as [|z [|y l] IH]; intros x; [done|..].
  - intros [= ->]. by exists x.
  - intros [= ->]. rewrite squeeze_cons2. destruct (P x && P y) eqn:E.
    + apply andb_prop in E as [Hx Hy]. destruct (IH y eq_refl) as (w & Hw & HP & _).
      exists w. split; [done|]. split; [congruence|]. intros ?; congruence.
    + by exists x.
Qed.

Lemma no_adjacent_cons P x l :
  no_adjacent P (x :: l) ↔
  ¬ (P x = true ∧ ∃ y, head l = Some y ∧ P y = true) ∧ no_adjacent P l.
Proof.
  destruct l as [|y l]; simpl.
  - split; [intros [_ H]; split; [intros [_ (? & ? & _)]; done|done] | intros [_ H]; done].
  - split; intros [H1 H2]; (split; [|done]).
    + intros [? (? & [= <-] & ?)]. by apply H1.
    + intros [? ?]. apply H1. eauto.
Qed.

Lemma squeeze_no_adjacent P l : no_adjacent P (squeeze P l).
Proof.
  induction l as [|x [|y l] IH]; [done|done|].
  rewrite squeeze_cons2. destruct (P x && P y) eqn:E; [exact IH|].
  apply no_adjacent_cons. split; [|exact IH].
  intros [Hx (w & Hw & HPw)].
  destruct (squeeze_head_P P (y :: l) y eq_refl) as (w' & Hw' & HP & _).
  rewrite Hw in Hw'. injection Hw' as <-. rewrite Hx, <-HP, HPw in E. done.
Qed.

Lemma squeeze_id P l : no_adjacent P l → squeeze P l = l.
Proof.
  induction l as [|x [|y l] IH]; [done|done|].
  intros Hs. apply no_adjacent_cons in Hs as [Hxy Hs].
  rewrite squeeze_cons2. destruct (P x && P y) eqn:E.
  - apply andb_prop in E as [Hx Hy]. exfalso. apply Hxy. eauto.
  - f_equal. by apply IH.
Qed.

(** Squeezing the runs of [P] keeps a sequence free of adjacent [Q]s. *)
Lemma squeeze_no_adjacent_other P (Q : A → bool) l :
  (∀ x y, P x = true → P y = true → Q x = Q y) →
  no_adjacent Q l → no_adjacent Q (squeeze P l).
Proof.
  intros HPQ. induction l as [|x [|y l] IH]; [done|done|].
  intros Hs. apply no_adjacent_cons in Hs as [Hxy Hs].
  rewrite squeeze_cons2. destruct (P x && P y) eqn:E; [by apply IH|].
  apply no_adjacent_cons. split; [|by apply IH].
  intros [Hx (w & Hw & HQw)]. apply Hxy. split; [done|]. exists y. split; [done|].
  destruct (squeeze_head_P P (y :: l) y eq_refl) as (w' & Hw' & HP & Hsame).
  rewrite Hw in Hw'. injection Hw' as <-.
  destruct (P y) eqn:Hy.
  - by rewrite <-(HPQ w y).
  - by rewrite <-Hsame.
Qed.

Lemma no_adjacent_app P l k : no_adjacent P (l ++ k) → no_adjacent P l ∧ no_adjacent P k.
Proof.
  induction l as [|x l IH]; simpl app; intros H; [done|].
  apply no_adjacent_cons in H as [Hx H]. destruct (IH H) as [Hl Hk].
  split; [|done]. apply no_adjacent_cons. split; [|done].
  intros [HPx (y & Hy & HPy)]. apply Hx. split; [done|]. exists y. split; [|done].
  by destruct l.
Qed.

Lemma drop_leading_suffix P l : drop_leading P l `suffix_of` l.
Proof.
  induction l as [|x l IH]; simpl; [done|].
  destruct (P x); [by apply suffix_cons_r|done].
Qed.

Lemma drop_trailing_prefix P l : drop_trailing P l `prefix_of` l.
Proof.
  induction l as [|x l IH]; simpl; [done|].
  destruct (drop_trailing P l) as [|y r] eqn:E.
  - destruct (P x); [apply prefix_nil|]. by apply prefix_cons, prefix_nil.
  - by apply prefix_cons.
Qed.

Lemma drop_leading_head P l x : head (drop_leading P l) = Some x → P x = false.
Proof.
  induction l as [|y l IH]; simpl; [done|].
  destruct (P y) eqn:E; [done|]. simpl. by intros [= <-].
Qed.

Lemma drop_trailing_last P l x : last (drop_trailing P l) = Some x → P x = false.
Proof.
  induction l as [|y l IH]; simpl; [done|].
  destruct (drop_trailing P l) as [|z r] eqn:E.
  - destruct (P y) eqn:Ey; [done|]. simpl. by intros [= <-].
  - rewrite last_cons_cons. apply IH.
Qed.

Lemma drop_leading_id P l : (∀ x, head l = Some x → P x = false) → drop_leading P l = l.
Proof. destruct l as [|x l]; simpl; [done|]. intros H. by rewrite (H x). Qed.

Lemma drop_trailing_id P l : (∀ x, last l = Some x → P x = false) → drop_trailing P l = l.
Proof.
  induction l as [|x l IH]; [done|]. intros H. simpl.
  destruct l as [|y l].
  - simpl. by rewrite (H x).
  - rewrite IH; [done|]. intros z Hz. apply H. by rewrite last_cons_cons.
Qed.

Lemma drop_leading_all P l : Forall (λ x, P x = true) l → drop_leading P l = [].
Proof. induction 1 as [|x l Hx _ IH]; [done|]. simpl. by rewrite Hx. Qed.

(** Trimming both ends leaves a segment of the sequence. *)
Lemma trim_segment P l : ∃ a b, l = a ++ drop_trailing P (drop_leading P l) ++ b.
Proof.
  destruct (drop_leading_suffix P l) as [a Ha].
  destruct (drop_trailing_prefix P (drop_leading P l)) as [b Hb].
  exists a, b. by rewrite <-Hb.
Qed.

Lemma trim_ends_outside P l : ends_outside P (drop_trailing P (drop_leading P l)).
Proof.
  split; intros x Hx.
  - destruct (drop_trailing_prefix P (drop_leading P l)) as [b Hb].
    apply (drop_leading_head P l). rewrite Hb.
    by destruct (drop_trailing P (drop_leading P l)).
  - by apply drop_trailing_last in Hx.
Qed.

Lemma trim_id P l : ends_outside P l → drop_trailing P (drop_leading P l) = l.
Proof. intros [Hh Hl]. rewrite drop_leading_id by done. by apply drop_trailing_id. Qed.

Lemma trim_Forall (Q : A → Prop) P l :
  Forall Q l → Forall Q (drop_trailing P (drop_leading P l)).
Proof.
  destruct (trim_segment P l) as (a & b & E). intros H. rewrite E in H.
  by apply Forall_app in H as [_ [H _]%Forall_app].
Qed.

Lemma trim_no_adjacent (Q : A → bool) P l :
  no_adjacent Q l → no_adjacent Q (drop_trailing P (drop_leading P l)).
Proof.
  destruct (trim_segment P l) as (a & b & E). intros H. rewrite E in H.
  by apply no_adjacent_app in H as [_ [H _]%no_adjacent_app].
Qed.

Lemma Forall_sublist (Q : A → Prop) l k :
  l `sublist_of` k → Forall Q k → Forall Q l.
Proof.
  intros Hs H. apply Forall_forall. intros x Hx.
  eapply Forall_forall in H; [done|]. by eapply elem_of_sublist.
Qed.

Lemma ends_outside_literal P l :
  (match head l with Some x => P x | None => false end = false) →
  (match last l with Some x => P x | None => false end = false) →
  ends_outside P l.
Proof. intros H1 H2. split; intros x Hx; by rewrite Hx in *. Qed.

End Run_facts.

(** ** Strings *)

Module StrFacts.
Import Str.

Lemma replace_id a b s : a ∉ s → replace a b s = s.
Proof.
  induction s as [|x s IH]; intros Hn; [done|].
  apply not_elem_of_cons in Hn as [Hx Hs]. simpl.
  destruct (N.eqb_spec x a) as [->|_]; [done|]. f_equal. by apply IH.
Qed.

Lemma replace_not_in a b s : a ≠ b → a ∉ replace a b s.
Proof.
  intros Hab. induction s as [|x s IH]; simpl; [apply not_elem_of_nil|].
  apply not_elem_of_cons. split; [|done].
  destruct (N.eqb_spec x a); congruence.
Qed.

Lemma replace_keeps_out a b c s : c ≠ b → c ∉ s → c ∉ replace a b s.
Proof.
  intros Hcb. induction s as [|x s IH]; simpl; intros Hn; [done|].
  apply not_elem_of_cons in Hn as [Hx Hs].
  apply not_elem_of_cons. split; [|by apply IH].
  destruct (N.eqb_spec x a); congruence.
Qed.

Lemma remove_id cls s : Forall (λ c, cls c = false) s → remove cls s = s.
Proof.
  unfold remove. induction 1 as [|x s Hx _ IH]; [done|].
  rewrite filter_cons_True by done. by f_equal.
Qed.

Lemma remove_Forall cls s : Forall (λ c, cls c = false) (remove cls s).
Proof. apply Forall_forall. intros x Hx. by apply list_elem_of_filter in Hx as [? _]. Qed.

Lemma remove_sublist cls s : remove cls s `sublist_of` s.
Proof. apply sublist_filter. Qed.

Lemma Forall_not_in (c : N) (s : pystr) : c ∉ s ↔ Forall (λ x, x ≠ c) s.
Proof.
  rewrite Forall_forall. split.
  - intros H x Hx ->. done.
  - intros H Hc. by apply (H c).
Qed.

Lemma subst_class_Forall cls b s :
  cls b = false → Forall (λ c, cls c = false) (subst_class cls b s).
Proof.
  intros Hb. unfold subst_class. apply Forall_map, Forall_forall. intros x _.
  simpl. by destruct (cls x) eqn:E.
Qed.

Lemma subst_class_id cls b s : Forall (λ c, cls c = false) s → subst_class cls b s = s.
Proof.
  unfold subst_class. induction 1 as [|x s Hx _ IH]; [done|].
  simpl. rewrite Hx. by f_equal.
Qed.

(** Squeezing the runs of one character leaves the runs of another apart. *)
Lemma collapse_no_adjacent_other c d s :
  no_adjacent (N.eqb d) s → no_adjacent (N.eqb d) (collapse c s).
Proof.
  apply squeeze_no_adjacent_other. intros x y ->%N.eqb_eq ->%N.eqb_eq. done.
Qed.

End StrFacts.

(** ** The sanitizers *)

Section Sanitizer_facts.
Import Str StrFacts.

Lemma untitled_clean_title : clean_title untitled.
Proof.
  unfold clean_title. split_and!.
  - done.
  - apply Forall_not_in. repeat constructor; by vm_compute.
  - apply Forall_not_in. repeat constructor; by vm_compute.
  - repeat constructor.
  - vm_compute. intuition congruence.
  - vm_compute. intuition congruence.
  - apply ends_outside_literal; by vm_compute.
Qed.

Lemma untitled_clean_image_name : clean_image_name untitled.
Proof.
  unfold clean_image_name. split_and!.
  - done.
  - repeat constructor.
  - vm_compute. intuition congruence.
  - apply ends_outside_literal; by vm_compute.
Qed.

Lemma sanitize_filename_clean s : clean_title (sanitize_filename s).
Proof.
  unfold sanitize_filename. destruct s as [|x s]; [apply untitled_clean_title|].
  set (s1 := replace _ _ (replace _ _ _)).
  set (s2 := remove is_control s1).
  set (s3 := collapse (chr "-") s2).
  set (s4 := collapse (chr " ") s3).
  destruct (strip _ s4) as [|y r] eqn:E; [apply untitled_clean_title|].
  rewrite <-E.
  assert (H1 : (chr "/" ∉ s1) ∧ (chr "\" ∉ s1)).
  { split.
    - apply replace_keeps_out; [done|]. by apply replace_not_in.
    - by apply replace_not_in. }
  assert (Hsub : s4 `sublist_of` s1).
  { unfold s4, s3, s2. etrans; [apply squeeze_sublist|].
    etrans; [apply squeeze_sublist|]. apply remove_sublist. }
  destruct (trim_segment (in_chars " .-") s4) as (a & b & Hseg).
  assert (Hsub' : strip (in_chars " .-") s4 `sublist_of` s1).
  { etrans; [|exact Hsub]. rewrite Hseg at 2.
    apply sublist_inserts_l, sublist_inserts_r. done. }
  unfold clean_title. split_and!.
  - by rewrite E.
  - intros Hin. apply (proj1 H1). by eapply elem_of_sublist.
  - intros Hin. apply (proj2 H1). by eapply elem_of_sublist.
  - apply trim_Forall. unfold s4, s3.
    eapply Forall_sublist; [apply squeeze_sublist|].
    eapply Forall_sublist; [apply squeeze_sublist|]. apply remove_Forall.
  - apply trim_no_adjacent, collapse_no_adjacent_other, squeeze_no_adjacent.
  - apply trim_no_adjacent, squeeze_no_adjacent.
  - apply trim_ends_outside.
Qed.

Lemma sanitize_filename_fixpoint s : clean_title s → sanitize_filename s = s.
Proof.
  intros (Hne & Hsl & Hbs & Hctl & Hd & Hsp & Hends).
  unfold sanitize_filename. destruct s as [|x s]; [done|].
  rewrite (replace_id (chr "/")) by done.
  rewrite (replace_id (chr "\")) by done.
  rewrite remove_id by done. unfold collapse, strip, lstrip, rstrip.
  rewrite (squeeze_id (N.eqb (chr "-"))) by done.
  rewrite (squeeze_id (N.eqb (chr " "))) by done.
  by rewrite trim_id.
Qed.

Section Image_name.
Variable lower : pystr → pystr.

Lemma image_safe_not_control c : is_image_safe c = true → is_control c = false.
Proof.
  unfold is_image_safe, is_control. char_cases.
Qed.

Lemma sanitize_image_filename_clean s : clean_image_name (sanitize_image_filename lower s).
Proof.
  unfold sanitize_image_filename. destruct s as [|x s]; [apply untitled_clean_image_name|].
  set (s1 := lower _).
  set (s2 := subst_class _ _ s1).
  set (s3 := remove is_control s2).
  set (s4 := collapse (chr "-") s3).
  destruct (strip _ s4) as [|y r] eqn:E; [apply untitled_clean_image_name|].
  rewrite <-E. unfold clean_image_name. split_and!.
  - by rewrite E.
  - apply trim_Forall. unfold s4, s3.
    eapply Forall_sublist; [apply squeeze_sublist|].
    eapply Forall_sublist; [apply remove_sublist|].
    eapply Forall_impl; [apply (subst_class_Forall (λ c, negb (is_image_safe c)))|]; [done|].
    intros c Hc. by apply negb_false_iff.
  - apply trim_no_adjacent, squeeze_no_adjacent.
  - apply trim_ends_outside.
Qed.

Lemma sanitize_image_filename_fixpoint s :
  (∀ t, Forall (λ c, is_image_safe c = true) t → lower t = t) →
  clean_image_name s → sanitize_image_filename lower s = s.
Proof.
  intros Hlower (Hne & Hsafe & Hd & Hends).
  unfold sanitize_image_filename. destruct s as [|x s]; [done|].
  assert (Hnot : ∀ c : N, is_image_safe c = true → c ≠ chr "/" ∧ c ≠ chr "\").
  { intros c Hc. split; intros ->; done. }
  rewrite (replace_id (chr "/")).
  2:{ apply Forall_not_in. eapply Forall_impl; [exact Hsafe|]. intros c Hc. by apply Hnot. }
  rewrite (replace_id (chr "\")).
  2:{ apply Forall_not_in. eapply Forall_impl; [exact Hsafe|]. intros c Hc. by apply Hnot. }
  rewrite Hlower by done.
  rewrite subst_class_id.
  2:{ eapply Forall_impl; [exact Hsafe|]. intros c Hc. simpl. by rewrite Hc. }
  rewrite remove_id.
  2:{ eapply Forall_impl; [exact Hsafe|]. apply image_safe_not_control. }
  unfold collapse, strip, lstrip, rstrip.
  rewrite (squeeze_id (N.eqb (chr "-"))) by done.
  by rewrite trim_id.
Qed.

End Image_name.

Lemma ascii_lower_safe t : Forall (λ c, is_image_safe c = true) t → ascii_lower t = t.
Proof.
  unfold ascii_lower. induction 1 as [|c t Hc _ IH]; [done|]. simpl. rewrite IH. f_equal.
  unfold is_image_safe in Hc. char_cases.
Qed.


End Sanitizer_facts.

Section Placeholder.
Import Str StrFacts.

Lemma sanitize_filename_vanishing s :
  Forall (λ c, vanishing c = true) s → sanitize_filename s = untitled.
Proof.
  intros H. unfold sanitize_filename. destruct s as [|x s]; [done|].
  set (s1 := replace _ _ (replace _ _ _)).
  assert (H1 : Forall (λ c, is_control c || in_chars " .-" c = true) s1).
  { unfold s1, replace. rewrite <-list_fmap_compose. apply Forall_fmap.
    eapply Forall_impl; [exact H|]. intros c Hc. unfold compose.
    unfold vanishing in Hc. apply orb_true_iff in Hc as [Hc|Hc].
    - destruct (c =? chr "/"); [by vm_compute|].
      destruct (c =? chr "\"); [by vm_compute|]. by rewrite Hc.
    - unfold in_chars in Hc. apply bool_decide_eq_true in Hc.
      change (py " .-/\") with [chr " "; chr "."; chr "-"; chr "/"; chr "\"] in Hc.
      set_unfold in Hc. destruct Hc as [->|[->|[->|[->|[->|[]]]]]]; by vm_compute. }
  assert (H2 : Forall (λ c, in_chars " .-" c = true)
                 (collapse (chr " ") (collapse (chr "-") (remove is_control s1)))).
  { eapply Forall_sublist; [apply squeeze_sublist|].
    eapply Forall_sublist; [apply squeeze_sublist|].
    unfold remove. apply Forall_forall. intros c [Hc Hin]%list_elem_of_filter.
    eapply Forall_forall in H1; [|exact Hin]. simpl in H1. by rewrite Hc in H1. }
  unfold strip, lstrip. by rewrite drop_leading_all.
Qed.

Lemma sanitize_image_filename_vanishing (lower : pystr → pystr) (s : pystr) :
  Forall (λ c, image_vanishing c = true)
    (lower (replace (chr "\") (chr "-") (replace (chr "/") (chr "-") s))) →
  sanitize_image_filename lower s = untitled.
Proof.
  intros H. unfold sanitize_image_filename. destruct s as [|x s]; [done|].
  set (s1 := lower _) in *.
  assert (H1 : Forall (λ c, in_chars ".-" c = true)
                 (subst_class (λ c, negb (is_image_safe c)) (chr "-") s1)).
  { unfold subst_class. apply Forall_fmap. eapply Forall_impl; [exact H|].
    intros c Hc. unfold compose. destruct (is_image_safe c) eqn:Hsafe; cbn [negb].
    - unfold image_vanishing in Hc. unfold is_image_safe in Hsafe.
      apply negb_true_iff in Hc. rewrite Hc in Hsafe. cbn [orb] in Hsafe.
      apply orb_true_iff in Hsafe as [->%N.eqb_eq| ->%N.eqb_eq]; by vm_compute.
    - by vm_compute. }
  assert (H2 : Forall (λ c, in_chars ".-" c = true)
                 (collapse (chr "-")
                    (remove is_control
                       (subst_class (λ c, negb (is_image_safe c)) (chr "-") s1)))).
  { eapply Forall_sublist; [apply squeeze_sublist|].
    eapply Forall_sublist; [apply remove_sublist|]. exact H1. }
  unfold strip, lstrip. by rewrite drop_leading_all.
Qed.

End Placeholder.

(** C9: both sanitizers are total functions; applying either twice gives
    the result of applying it once; the result is never the empty string,
    the placeholder [untitled] standing for an input that is empty or that
    sanitization empties: a title made only of characters that are removed
    or trimmed, and an image title that, lower-cased, has no letter [a-z]
    and no digit; the result has no control character.  [lower] is the
    lower-casing of the runtime, which leaves strings over [a-z0-9.-] as
    they are. *)
Theorem sanitizers_idempotent_nonempty (lower : pystr → pystr)
    (Hlower : ∀ t, Forall (λ c, is_image_safe c = true) t → lower t = t) (s : pystr) :
  (sanitize_filename (sanitize_filename s) = sanitize_filename s ∧
   sanitize_filename s ≠ [] ∧
   Forall (λ c, is_control c = false) (sanitize_filename s) ∧
   (Forall (λ c, vanishing c = true) s → sanitize_filename s = untitled)) ∧
  (sanitize_image_filename lower (sanitize_image_filename lower s)
     = sanitize_image_filename lower s ∧
   sanitize_image_filename lower s ≠ [] ∧
   Forall (λ c, is_control c = false) (sanitize_image_filename lower s) ∧
   (s = [] → sanitize_image_filename lower s = untitled) ∧
   (Forall (λ c, image_vanishing c = true)
      (lower (Str.replace (chr "\") (chr "-") (Str.replace (chr "/") (chr "-") s))) →
    sanitize_image_filename lower s = untitled)) ∧
  sanitize_filename (py "/-. ") = untitled ∧
  sanitize_image_filename ascii_lower (py "___") = untitled.
Proof.
  split_and!.
  - apply sanitize_filename_fixpoint, sanitize_filename_clean.
  - by destruct (sanitize_filename_clean s) as (Hne & _).
  - by destruct (sanitize_filename_clean s) as (_ & _ & _ & Hctl & _).
  - apply sanitize_filename_vanishing.
  - by apply sanitize_image_filename_fixpoint, sanitize_image_filename_clean.
  - by destruct (sanitize_image_filename_clean lower s) as (Hne & _).
  - destruct (sanitize_image_filename_clean lower s) as (_ & Hsafe & _).
    eapply Forall_impl; [exact Hsafe|]. apply image_safe_not_control.
  - by intros ->.
  - apply sanitize_image_filename_vanishing.
  - by vm_compute.
  - by vm_compute.
Qed.

Lemma sanitizers_idempotent_nonempty_witness :
  (∀ t, Forall (λ c, is_image_safe c = true) t → ascii_lower t = t) ∧
  sanitize_filename (sanitize_filename (py " Plans//2024 -- Q1. ")) =
  sanitize_filename (py " Plans//2024 -- Q1. ").
Proof.
  split; [exact ascii_lower_safe|].
  exact (proj1 (proj1 (sanitizers_idempotent_nonempty ascii_lower ascii_lower_safe
                         (py " Plans//2024 -- Q1. ")))).
Defined.

(** ** The Markdown clean-up *)

Section Clean_markdown.

Lemma is_blank_nil (line : pystr) : is_blank line = true → line = [].
Proof. by destruct line. Qed.

Lemma squeeze_run {A} (P : A → bool) x l :
  P x = true → (∀ y, P y = true → y = x) →
  squeeze P (x :: l) = x :: squeeze P (drop_leading P l).
Proof.
  intros Hx Hall. induction l as [|y l IH]; [done|].
  rewrite squeeze_cons2, Hx. simpl drop_leading. destruct (P y) eqn:Hy; cbn [andb]; [|done].
  rewrite <-IH. by rewrite (Hall y Hy).
Qed.

Lemma squeeze_keep {A} (P : A → bool) x l :
  P x = false → squeeze P (x :: l) = x :: squeeze P l.
Proof. intros Hx. destruct l as [|y l]; [done|]. by rewrite squeeze_cons2, Hx. Qed.

(** The loop appends to [cleaned] what squeezing the blank runs leaves; when
    the last line seen was blank, the blank lines in front are skipped. *)
Lemma clean_loop_squeeze lines cleaned prev_blank :
  (foldl clean_step (cleaned, prev_blank) lines).1 =
  cleaned ++ squeeze is_blank (if prev_blank then drop_leading is_blank lines else lines).
Proof.
  revert cleaned prev_blank.
  induction lines as [|line lines IH]; intros cleaned prev_blank.
  - simpl. destruct prev_blank; by rewrite app_nil_r.
  - cbn [foldl]. unfold clean_step at 2. destruct (is_blank line) eqn:Hb.
    + destruct prev_blank; rewrite IH.
      * simpl. by rewrite Hb.
      * rewrite (squeeze_run is_blank line); [|done|].
        -- rewrite (is_blank_nil line Hb). by rewrite <-app_assoc.
        -- intros y Hy. by rewrite (is_blank_nil y Hy), (is_blank_nil line Hb).
    + rewrite IH. rewrite <-app_assoc. simpl drop_leading. rewrite Hb.
      destruct prev_blank; by rewrite squeeze_keep.
Qed.

Lemma clean_lines_canonical markdown :
  clean_lines markdown = canonical_lines (Str.strip is_space) markdown.
Proof.
  unfold clean_lines, canonical_lines, pop_trailing_blank, pop_leading_blank.
  by rewrite clean_loop_squeeze.
Qed.

Lemma filter_squeeze {A} (P : A → bool) l :
  filter (λ x, P x = false) (squeeze P l) = filter (λ x, P x = false) l.
Proof.
  induction l as [|x [|y l] IH]; [done|done|].
  rewrite squeeze_cons2. destruct (P x && P y) eqn:E.
  - apply andb_prop in E as [Hx Hy]. rewrite IH.
    rewrite (filter_cons_False _ x); [done|]. by rewrite Hx.
  - rewrite !(filter_cons _ x). by rewrite IH.
Qed.

Lemma filter_drop_leading {A} (P : A → bool) l :
  filter (λ x, P x = false) (drop_leading P l) = filter (λ x, P x = false) l.
Proof.
  induction l as [|x l IH]; [done|]. simpl. destruct (P x) eqn:E; [|done].
  rewrite IH. rewrite filter_cons_False; [done|]. by rewrite E.
Qed.

Lemma filter_drop_trailing {A} (P : A → bool) l :
  filter (λ x, P x = false) (drop_trailing P l) = filter (λ x, P x = false) l.
Proof.
  induction l as [|x l IH]; [done|]. simpl.
  destruct (drop_trailing P l) as [|y r] eqn:E.
  - rewrite filter_cons, <-IH. simpl. destruct (P x) eqn:Hx.
    + by rewrite decide_False by done.
    + rewrite decide_True by done. by rewrite filter_cons_True.
  - by rewrite !(filter_cons _ x), IH.
Qed.

End Clean_markdown.

(** C5, as the code has it: every line is trimmed of whitespace at BOTH
    ends, what lies between kept; every run of blank lines becomes one
    blank line; the blank lines at both ends of the text are removed.
    The lines that are not blank are all kept, in order. *)
Theorem clean_markdown_canonical (markdown : pystr) :
  clean_markdown markdown = Str.join [10] (canonical_lines (Str.strip is_space) markdown) ∧
  Forall (ends_outside is_space) (clean_lines markdown) ∧
  no_adjacent is_blank (clean_lines markdown) ∧
  ends_outside is_blank (clean_lines markdown) ∧
  filter non_blank (clean_lines markdown)
    = filter non_blank (map (Str.strip is_space) (splitlines markdown)) ∧
  clean_markdown (py "a" ++ [10; 10; 10; 10; 10; 10] ++ py "b") = py "a" ++ [10; 10] ++ py "b" ∧
  clean_markdown ([10; 10] ++ py "a   " ++ [10; 10; 10]) = py "a".
Proof.
  split_and!.
  - unfold clean_markdown. by rewrite clean_lines_canonical.
  - rewrite clean_lines_canonical. unfold canonical_lines.
    apply trim_Forall. eapply Forall_sublist; [apply squeeze_sublist|].
    apply Forall_fmap, Forall_forall. intros line _. apply trim_ends_outside.
  - rewrite clean_lines_canonical. apply trim_no_adjacent, squeeze_no_adjacent.
  - rewrite clean_lines_canonical. apply trim_ends_outside.
  - rewrite clean_lines_canonical. unfold canonical_lines, non_blank.
    by rewrite filter_drop_trailing, filter_drop_leading, filter_squeeze.
  - by vm_compute.
  - by vm_compute.
Qed.

(** C5 as stated fails: the leading whitespace of a line is removed too. *)
Lemma clean_markdown_strips_leading_whitespace :
  clean_markdown (py "  a") = py "a" ∧
  clean_markdown (py "  a") ≠ Str.join [10] (canonical_lines (Str.rstrip is_space) (py "  a")).
Proof. split; [by vm_compute|]. vm_compute. discriminate. Qed.

(** ** Image names *)

Section Decimal.

Lemma py_inj s t : py s = py t → s = t.
Proof.
  revert t. induction s as [|a s IH]; intros [|b t]; simpl; try done.
  intros [= Hab Hst]. f_equal; [|by apply IH].
  rewrite <-(ascii_N_embedding a), <-(ascii_N_embedding b). by rewrite Hab.
Qed.

Lemma str_of_nat_inj n m : str_of_nat n = str_of_nat m → n = m.
Proof. unfold str_of_nat. intros H%py_inj. by apply (inj pretty). Qed.

Lemma pretty_N_char_digit x : is_digit (chr (pretty_N_char x)) = true.
Proof. unfold pretty_N_char. by repeat case_match. Qed.

Lemma pretty_N_go_digits x s :
  Forall (λ c, is_digit c = true) (py s) →
  Forall (λ c, is_digit c = true) (py (pretty_N_go x s)).
Proof.
  revert s. induction (N.lt_wf_0 x) as [x _ IH]; intros s Hs.
  assert (x = 0 ∨ 0 < x)%N as [->|?] by lia.
  - by rewrite pretty_N_go_0.
  - rewrite pretty_N_go_step by done. apply IH.
    { by apply N.div_lt. }
    simpl. constructor; [apply pretty_N_char_digit|done].
Qed.

Lemma str_of_nat_digits n : Forall (λ c, is_digit c = true) (str_of_nat n).
Proof.
  unfold str_of_nat, pretty, pretty_nat, pretty, pretty_N.
  case_decide.
  - repeat constructor.
  - apply pretty_N_go_digits. constructor.
Qed.

(** Two digit strings, each followed by something that starts with a
    character that is not a digit, are equal when the whole is. *)
Lemma digits_prefix_inj (a b r r' : pystr) x y :
  Forall (λ c, is_digit c = true) a → Forall (λ c, is_digit c = true) b →
  is_digit x = false → is_digit y = false →
  a ++ x :: r = b ++ y :: r' → a = b.
Proof.
  intros Ha. revert b. induction Ha as [|c a Hc Ha IH]; intros b Hb Hx Hy E.
  - destruct Hb as [|d b Hd Hb]; [done|]. simpl in E. injection E as -> _. congruence.
  - destruct Hb as [|d b Hd Hb]; simpl in E.
    + injection E as -> _. congruence.
    + injection E as -> E. f_equal. by eapply IH.
Qed.

End Decimal.

Section Image_facts.

Variable lower : pystr → pystr.
Variable md5_hexdigest : pystr → result pystr.
Variable url_path_ext : pystr → result pystr.
Variable http_head : pystr → result pystr.
Variable http_get_save : pystr → pystr → result unit.

Local Abbreviation ext_of := (image_ext url_path_ext http_head).
Local Abbreviation fetch_image :=
  (download_image lower md5_hexdigest url_path_ext http_head http_get_save).
Local Abbreviation fetch_images :=
  (download_images lower md5_hexdigest url_path_ext http_head http_get_save).

Lemma dot_prefix (s : pystr) :
  ∃ e, (if Str.startswith (py ".") s then s else chr "." :: s) = chr "." :: e.
Proof.
  destruct (Str.startswith (py ".") s) eqn:E; [|by eexists].
  destruct s as [|c s]; [done|].
  change (py ".") with [chr "."] in E. cbn [Str.startswith] in E.
  apply andb_prop in E as [<-%N.eqb_eq _]. by eexists.
Qed.

(** The extension always begins with a dot. *)
Lemma image_ext_dot image_url headers ext :
  ext_of image_url headers = Ok ext → ∃ e, ext = chr "." :: e.
Proof.
  unfold image_ext. destruct (url_path_ext image_url) as [e0|]; cbn [bind]; [|done].
  match goal with |- bind ?r _ = _ → _ => destruct r as [e1|]; cbn [bind]; [|done] end.
  intros [= <-]. apply dot_prefix.
Qed.

(** What [download_image] does with the counter, and the name it gives. *)
Lemma download_image_spec image_url page_title headers image_counter r c :
  fetch_image image_url page_title headers image_counter = (r, c) →
  match md5_hexdigest image_url with
  | Raise _ => r = None ∧ c = image_counter
  | Ok digest =>
      c = S image_counter ∧
      ∀ local_path, r = Some local_path →
        ∃ ext, ext_of image_url headers = Ok ext ∧
               local_path = py "images/" ++
                 local_filename (sanitize_image_filename lower page_title) (take 8 digest)
                   (S image_counter) ext
  end.
Proof.
  unfold download_image, bind. destruct (md5_hexdigest image_url) as [digest|msg].
  - rewrite Nat.add_1_r.
    destruct (ext_of image_url headers) as [ext|]; [|by intros [= <- <-]].
    destruct (http_get_save _ _); intros [= <- <-]; [|done].
    split; [done|]. intros p [= <-]. by exists ext.
  - by intros [= <- <-].
Qed.

Lemma download_image_encodable image_url page_title headers image_counter :
  encodable md5_hexdigest image_url →
  (fetch_image image_url page_title headers image_counter).2 = S image_counter.
Proof.
  intros [digest Hdigest].
  destruct (fetch_image image_url page_title headers image_counter) as [r c] eqn:E.
  apply download_image_spec in E. rewrite Hdigest in E. by destruct E as [-> _].
Qed.

(** Names built with different counters differ, whatever the hashes (of one
    length) and the extensions. *)
Lemma local_filename_inj page_name h1 h2 c1 c2 e1 e2 :
  length h1 = length h2 →
  local_filename page_name h1 c1 (chr "." :: e1) =
  local_filename page_name h2 c2 (chr "." :: e2) → c1 = c2.
Proof.
  unfold local_filename. intros Hlen E.
  apply app_inv_head in E. apply app_inv_head in E.
  apply app_inj_1 in E as [_ E]; [|done].
  apply app_inv_head in E.
  apply str_of_nat_inj.
  eapply digits_prefix_inj; [apply str_of_nat_digits..| | |exact E]; done.
Qed.

(** Among calls whose URLs can be hashed, the call at position [i] works
    with the counter [c + i + 1]. *)
Lemma download_images_counter calls page_title c i p :
  Forall (λ call, encodable md5_hexdigest call.1) calls →
  fetch_images calls page_title c !! i = Some (Some p) →
  ∃ image_url headers digest e,
    calls !! i = Some (image_url, headers) ∧
    md5_hexdigest image_url = Ok digest ∧
    p = py "images/" ++
        local_filename (sanitize_image_filename lower page_title) (take 8 digest)
          (S (c + i)) (chr "." :: e).
Proof.
  intros Hcalls. revert c i.
  induction Hcalls as [|[u h] calls [digest Hu] _ IH]; intros c i; [done|].
  cbn [download_images]. destruct (fetch_image u page_title h c) as [r c'] eqn:E.
  apply download_image_spec in E. cbn [fst] in Hu. rewrite Hu in E. destruct E as [-> Hname].
  destruct i as [|i]; cbn [lookup list_lookup].
  - intros [= ->]. destruct (Hname p eq_refl) as (ext & Hext & ->).
    apply image_ext_dot in Hext as [e ->]. exists u, h, digest, e. by rewrite Nat.add_0_r.
  - intros H. apply IH in H as (u' & h' & d' & e & Hc & Hd & ->). exists u', h', d', e.
    split_and!; [done..|]. by replace (c + S i)%nat with (S c + i)%nat by lia.
Qed.

Lemma download_images_length calls page_title c :
  length (fetch_images calls page_title c) = length calls.
Proof.
  revert c. induction calls as [|[u h] calls IH]; intros c; [done|].
  cbn [download_images]. destruct (fetch_image u page_title h c) as [r c'].
  cbn [length]. by rewrite IH.
Qed.

Hypothesis md5_length : ∀ url digest, md5_hexdigest url = Ok digest → length digest = 32%nat.

Lemma download_images_names calls page_title c p :
  p ∈ omap id (fetch_images calls page_title c) →
  ∃ url_hash k e,
    (c < k)%nat ∧ length url_hash = 8%nat ∧
    p = py "images/" ++
        local_filename (sanitize_image_filename lower page_title) url_hash k (chr "." :: e).
Proof.
  revert c. induction calls as [|[u h] calls IH]; intros c.
  { by intros ?%elem_of_nil. }
  cbn [download_images]. destruct (fetch_image u page_title h c) as [r c'] eqn:E.
  apply download_image_spec in E.
  assert (Hlater : p ∈ omap id (fetch_images calls page_title c') → (c ≤ c')%nat →
    ∃ url_hash k e,
      (c < k)%nat ∧ length url_hash = 8%nat ∧
      p = py "images/" ++
          local_filename (sanitize_image_filename lower page_title) url_hash k (chr "." :: e)).
  { intros (url_hash & k & e & Hk & Hlen & ->)%IH Hc. exists url_hash, k, e.
    split_and!; [lia|done..]. }
  destruct (md5_hexdigest u) as [digest|msg] eqn:Hu.
  - destruct E as [-> Hname]. destruct r as [q|]; cbn [omap list_omap id].
    + intros [->|Hin]%elem_of_cons; [|apply Hlater; [done|lia]].
      destruct (Hname q eq_refl) as (ext & Hext & ->).
      apply image_ext_dot in Hext as [e ->]. exists (take 8 digest), (S c), e.
      split_and!; [lia| |done]. rewrite length_take, (md5_length u digest Hu). done.
    + intros Hin. apply Hlater; [done|lia].
  - destruct E as [-> ->]. cbn [omap list_omap id]. intros Hin. by apply Hlater.
Qed.

Lemma download_images_NoDup calls page_title c :
  NoDup (omap id (fetch_images calls page_title c)).
Proof.
  revert c. induction calls as [|[u h] calls IH]; intros c; [constructor|].
  cbn [download_images]. destruct (fetch_image u page_title h c) as [r c'] eqn:E.
  apply download_image_spec in E.
  destruct (md5_hexdigest u) as [digest|msg] eqn:Hu.
  - destruct E as [-> Hname]. destruct r as [p|]; cbn [omap list_omap id]; [|apply IH].
    apply NoDup_cons. split; [|apply IH].
    destruct (Hname p eq_refl) as (ext & Hext & ->).
    apply image_ext_dot in Hext as [e ->].
    intros (h' & k & e' & Hk & Hlen & E)%download_images_names.
    apply app_inv_head, local_filename_inj in E; [lia|].
    rewrite length_take, (md5_length u digest Hu), Hlen. done.
  - destruct E as [-> ->]. cbn [omap list_omap id]. apply IH.
Qed.

End Image_facts.

Lemma md5_stub_length : ∀ url digest, md5_stub url = Ok digest → length digest = 32%nat.
Proof. by intros url digest [= <-]. Qed.

(** C8: the names returned by the calls of [download_image] made one
    after the other for one page are pairwise distinct, whatever the URLs
    (equal or not), their hashes and the counter the page starts from;
    two names of a page with different counters always differ. *)
Theorem image_names_distinct
    (lower : pystr → pystr) (md5_hexdigest : pystr → result pystr)
    (url_path_ext http_head : pystr → result pystr)
    (http_get_save : pystr → pystr → result unit)
    (md5_length : ∀ url digest, md5_hexdigest url = Ok digest → length digest = 32%nat)
    (calls : list (pystr * option pystr)) (page_title : pystr) (image_counter : nat) :
  NoDup (omap id (download_images lower md5_hexdigest url_path_ext http_head http_get_save
                    calls page_title image_counter)) ∧
  (∀ h1 h2 c1 c2 e1 e2, length h1 = length h2 → c1 ≠ c2 →
     local_filename (sanitize_image_filename lower page_title) h1 c1 (chr "." :: e1) ≠
     local_filename (sanitize_image_filename lower page_title) h2 c2 (chr "." :: e2)).
Proof.
  split.
  - by apply download_images_NoDup.
  - intros h1 h2 c1 c2 e1 e2 Hlen Hne E. by apply local_filename_inj in E.
Qed.

Lemma image_names_distinct_witness :
  (∀ url digest, md5_stub url = Ok digest → length digest = 32%nat) ∧
  NoDup (omap id (download_images ascii_lower md5_stub ext_stub head_stub get_stub
                    [(py "https://example.com/a", None); (py "https://example.com/a", None)]
                    (py "Notes") 0)).
Proof.
  split; [exact md5_stub_length|].
  exact (proj1 (image_names_distinct ascii_lower md5_stub ext_stub head_stub get_stub
                  md5_stub_length
                  [(py "https://example.com/a", None); (py "https://example.com/a", None)]
                  (py "Notes") 0%nat)).
Defined.

(** ** The paginated listing *)

Section Fetch_facts.

(** With the total advertised, the loop goes on batch after batch and
    returns every page of the section. *)
Lemma fetch_loop_with_count pages fuel skip :
  (skip ≤ length pages)%nat → (length pages < skip + fuel * page_size)%nat →
  fetch_loop (serve true pages) fuel (take skip pages)
    (Z.of_nat (length (take skip pages))) skip = Some (Ok pages).
Proof.
  revert skip. induction fuel as [|fuel IH]; intros skip Hle Hlt; [simpl in Hlt; lia|].
  cbn [fetch_loop serve value odata_count].
  destruct (take page_size (drop skip pages)) as [|p batch] eqn:Hbatch.
  - assert (drop skip pages = []) as Hd.
    { destruct (drop skip pages); [done|]. by unfold page_size in Hbatch. }
    apply drop_nil_inv in Hd as Hlen. by rewrite take_ge by lia.
  - rewrite <-Hbatch.
    assert (take skip pages ++ take page_size (drop skip pages)
            = take (skip + page_size) pages) as Happ.
    { by rewrite take_take_drop. }
    rewrite <-Nat2Z.inj_add, <-length_app, Happ.
    assert (pages ≠ []) as Hne. { intros ->. by rewrite drop_nil in Hbatch. }
    assert (truthy_count (Some (Z.of_nat (length pages))) = true) as ->.
    { assert (length pages ≠ 0%nat) by (by destruct pages).
      unfold truthy_count. apply negb_true_iff, Z.eqb_neq. lia. }
    cbn [andb default from_option id].
    destruct (Z.ltb_spec (Z.of_nat (length (take (skip + page_size) pages)))
                (Z.of_nat (length pages))) as [Hlt'|Hge].
    + rewrite length_take in Hlt'. apply IH; unfold page_size in *; lia.
    + rewrite length_take in Hge. rewrite take_ge; [done|]. unfold page_size in *. lia.
Qed.

Lemma fetch_pages_with_count pages fuel :
  (length pages < fuel * page_size)%nat →
  fetch_pages (serve true pages) fuel = Some (Ok pages).
Proof.
  intros H. unfold fetch_pages.
  by apply (fetch_loop_with_count pages fuel 0%nat); [lia|].
Qed.

Lemma numbered_pages_length n : length (numbered_pages n) = n.
Proof. unfold numbered_pages. by rewrite length_map, length_seq. Qed.

End Fetch_facts.

(** C1 at a listing without the total count: the loop stops after the
    first batch, whatever the section holds; of a section of 101 pages the
    last one is not fetched, and the hierarchy [get_pages] returns has 100
    pages.  (The claim asks that fetching go on until an empty batch.) *)
Theorem fetch_without_count_stops_after_first_batch (pages : list Page) (fuel : nat) :
  fetch_pages (serve false pages) (S fuel) = Some (Ok (take page_size pages)) ∧
  fetch_pages (serve false (numbered_pages 101)) (S fuel)
    = Some (Ok (numbered_pages 100)) ∧
  numbered_pages 101 !! 100%nat ≠ None ∧
  numbered_pages 100 !! 100%nat = None ∧
  get_pages (serve false (numbered_pages 101)) (S fuel)
    = Some (Ok (build_tree (numbered_pages 100))) ∧
  length (flat_map flatten (build_tree (numbered_pages 100))) = 100%nat.
Proof.
  assert (∀ l, fetch_pages (serve false l) (S fuel) = Some (Ok (take page_size l))) as H.
  { intros l. unfold fetch_pages. cbn [fetch_loop serve value odata_count]. rewrite drop_0.
    destruct (take page_size l); [done|]. by cbn [truthy_count andb app]. }
  split; [apply H|]. split; [rewrite H; by vm_compute|].
  split; [by vm_compute|]. split; [by vm_compute|]. split; [|by vm_compute].
  unfold get_pages. rewrite H. by vm_compute.
Qed.

(** ** The directory layout *)

Section Layout_facts.

(** Induction on a page tree, the children covered by [Forall]. *)
Lemma PageNode_forall_ind (Q : PageNode → Prop) :
  (∀ p kids, Forall Q kids → Q (PNode p kids)) → ∀ n, Q n.
Proof.
  intros step. fix IH 1. intros [p kids]. apply step.
  induction kids as [|k kids IHk]; constructor; [apply IH|exact IHk].
Qed.

Variable out : path.

Lemma plan_child page dir :
  plan_page page out (Some dir) =
  mkPlan dir (md_file dir (node_page page)) true (path_join out (py "images"))
    [dir; path_join out (py "images"); dir].
Proof.
  unfold plan_page, md_file, path_parent, path_join. by rewrite removelast_last.
Qed.

Lemma plan_top page :
  plan_page page out None =
  if has_children page
  then mkPlan (path_join out (sanitize_filename (page_title (node_page page))))
         (md_file out (node_page page)) false (path_join out (py "images"))
         [path_join out (sanitize_filename (page_title (node_page page)));
          path_join out (py "images"); out]
  else mkPlan out (md_file out (node_page page)) false (path_join out (py "images"))
         [path_join out (py "images"); out].
Proof.
  unfold plan_page, md_file, path_parent, path_join. rewrite removelast_last.
  by destruct (has_children page).
Qed.

(** Below a top-level page the parent directory is handed down unchanged. *)
Lemma collect_child_dir page dir task :
  task ∈ collect_pages out page (Some dir) → task.2 = Some dir.
Proof.
  revert task. induction page as [p kids IH] using PageNode_forall_ind. intros task.
  cbn [collect_pages]. intros [->|Hin]%elem_of_cons; [done|].
  apply elem_of_flat_map in Hin as (kid & Hin & Hkid).
  eapply Forall_forall in IH; [|exact Hkid]. by apply IH.
Qed.

Lemma collect_child_paths page dir :
  map (λ task, markdown_path (plan_page task.1 out task.2)) (collect_pages out page (Some dir))
  = map (md_file dir) (flatten page).
Proof.
  induction page as [p kids IH] using PageNode_forall_ind.
  cbn [collect_pages flatten map fst snd]. rewrite plan_child. cbn [markdown_path node_page].
  f_equal. induction IH as [|kid kids Hkid _ IHkids]; [done|].
  cbn [flat_map]. rewrite !map_app. by rewrite Hkid, IHkids.
Qed.

Lemma collect_top_paths page :
  map (λ task, markdown_path (plan_page task.1 out task.2)) (collect_pages out page None)
  = flat_layout out page.
Proof.
  destruct page as [p kids]. cbn [collect_pages map fst snd]. unfold flat_layout.
  cbn [node_page node_children]. f_equal.
  - rewrite plan_top. by destruct (has_children (PNode p kids)).
  - induction kids as [|kid kids IH]; [done|].
    cbn [flat_map]. rewrite !map_app. by rewrite collect_child_paths, IH.
Qed.

Lemma markdown_paths_flat pages :
  markdown_paths out pages = flat_map (flat_layout out) pages.
Proof.
  unfold markdown_paths, collect_all. induction pages as [|page pages IH]; [done|].
  cbn [flat_map]. rewrite map_app. by rewrite collect_top_paths, IH.
Qed.

Lemma collect_all_cases pages task :
  task ∈ collect_all out pages →
  (task.2 = None ∧ task.1 ∈ pages) ∨
  (∃ top, top ∈ pages ∧
          task.2 = Some (path_join out (sanitize_filename (page_title (node_page top))))).
Proof.
  unfold collect_all. intros (top & Hin & Htop)%elem_of_flat_map.
  destruct top as [p kids]. cbn [collect_pages] in Hin.
  apply elem_of_cons in Hin as [->|Hin]; [by left|right].
  exists (PNode p kids). split; [done|].
  apply elem_of_flat_map in Hin as (kid & Hin & _).
  by apply collect_child_dir in Hin.
Qed.

(** Where no page below the top level has children, the two layouts agree. *)
Lemma flat_is_nested_when_shallow page :
  Forall (λ kid, node_children kid = []) (node_children page) →
  flat_layout out page = nested_layout out page.
Proof.
  destruct page as [p kids]. unfold flat_layout. cbn [node_page node_children nested_layout].
  intros H. f_equal. induction H as [|[q qkids] kids Hq _ IH]; [done|].
  simpl in Hq. subst qkids. cbn [flat_map flatten nested_layout app map].
  by rewrite IH.
Qed.

End Layout_facts.

(** C3, as the code has it: every task of a section uses the one images
    directory of the section; a top-level page has its Markdown file in the
    section directory and, when it has children, creates the directory
    named after its sanitized title (a childless one creates none of its
    own); the Markdown files of ALL its descendants, whatever their depth
    and whether or not they have children, lie directly in that directory.
    Where no nested page has children this is the layout the specification
    describes. *)
Theorem layout_of_section (out : path) (pages : list PageNode) :
  (∀ task, task ∈ collect_all out pages →
     images_dir (plan_page task.1 out task.2) = path_join out (py "images")) ∧
  markdown_paths out pages = flat_map (flat_layout out) pages ∧
  (∀ page, page ∈ pages →
     markdown_path (plan_page page out None) = md_file out (node_page page) ∧
     (has_children page = true →
        path_join out (sanitize_filename (page_title (node_page page)))
          ∈ mkdirs (plan_page page out None)) ∧
     (has_children page = false →
        mkdirs (plan_page page out None) = [path_join out (py "images"); out])) ∧
  (∀ task dir, task ∈ collect_all out pages → task.2 = Some dir →
     (∃ top, top ∈ pages ∧
        dir = path_join out (sanitize_filename (page_title (node_page top)))) ∧
     markdown_path (plan_page task.1 out task.2) = md_file dir (node_page task.1) ∧
     mkdirs (plan_page task.1 out task.2) = [dir; path_join out (py "images"); dir]) ∧
  (Forall (λ page, Forall (λ kid, node_children kid = []) (node_children page)) pages →
     markdown_paths out pages = flat_map (nested_layout out) pages).
Proof.
  split_and!.
  - intros [page [dir|]] _; cbn [fst snd]; [by rewrite plan_child|].
    rewrite plan_top. by destruct (has_children page).
  - apply markdown_paths_flat.
  - intros page _. rewrite plan_top. split_and!.
    + by destruct (has_children page).
    + intros ->. cbn [mkdirs]. apply elem_of_cons. by left.
    + by intros ->.
  - intros [page pd] dir Hin Hpd. cbn [fst snd] in *. subst pd.
    rewrite plan_child. split_and!; [|done|done].
    apply collect_all_cases in Hin as [[? _]|(top & Htop & [= ->])]; [done|].
    by exists top.
  - intros H. rewrite markdown_paths_flat.
    induction H as [|page pages Hpage _ IH]; [done|].
    cbn [flat_map]. by rewrite IH, flat_is_nested_when_shallow.
Qed.

Lemma layout_of_section_witness :
  collect_all [py "output"; py "section"] [titled "Notes" []; titled "Plans" [titled "Q1" []]]
    = [(titled "Notes" [], None); (titled "Plans" [titled "Q1" []], None);
       (titled "Q1" [], Some [py "output"; py "section"; py "Plans"])] ∧
  markdown_paths [py "output"; py "section"]
    [titled "Notes" []; titled "Plans" [titled "Q1" []]]
  = [[py "output"; py "section"; py "Notes.md"];
     [py "output"; py "section"; py "Plans.md"];
     [py "output"; py "section"; py "Plans"; py "Q1.md"]].
Proof.
  split; [by vm_compute|].
  rewrite (proj1 (proj2 (layout_of_section [py "output"; py "section"]
                           [titled "Notes" []; titled "Plans" [titled "Q1" []]]))).
  by vm_compute.
Defined.

(** C3 as stated fails below the first level: a nested page with
    children gets no directory of its own, and the file of its child lies
    in the directory of the top-level page. *)
Lemma nested_page_owns_no_directory :
  markdown_paths [py "output"; py "section"]
    [titled "Plans" [titled "Q1" [titled "January" []]]]
  = [[py "output"; py "section"; py "Plans.md"];
     [py "output"; py "section"; py "Plans"; py "Q1.md"];
     [py "output"; py "section"; py "Plans"; py "January.md"]] ∧
  flat_map (nested_layout [py "output"; py "section"])
    [titled "Plans" [titled "Q1" [titled "January" []]]]
  = [[py "output"; py "section"; py "Plans.md"];
     [py "output"; py "section"; py "Plans"; py "Q1.md"];
     [py "output"; py "section"; py "Plans"; py "Q1"; py "January.md"]] ∧
  markdown_paths [py "output"; py "section"]
    [titled "Plans" [titled "Q1" [titled "January" []]]]
  ≠ flat_map (nested_layout [py "output"; py "section"])
      [titled "Plans" [titled "Q1" [titled "January" []]]] ∧
  (∀ task, task ∈ collect_all [py "output"; py "section"]
                    [titled "Plans" [titled "Q1" [titled "January" []]]] →
     [py "output"; py "section"; py "Plans"; py "Q1"]
       ∉ mkdirs (plan_page task.1 [py "output"; py "section"] task.2)).
Proof.
  split_and!; [by vm_compute|by vm_compute|vm_compute; discriminate|].
  intros task Hin. vm_compute in Hin.
  repeat (apply elem_of_cons in Hin as [->|Hin]); [..|by apply elem_of_nil in Hin];
    vm_compute; intros H;
    repeat (apply elem_of_cons in H as [H|H]; [discriminate|]); by apply elem_of_nil in H.
Qed.

(** ** The batch *)

Section Batch_facts.

Variable lower : pystr → pystr.
Variable md5_hexdigest : pystr → result pystr.
Variable url_path_ext : pystr → result pystr.
Variable http_head : pystr → result pystr.
Variable http_get_save : pystr → pystr → result unit.
Variable access_token : option pystr.
Variable parse_html : pystr → result Node.
Variable h2t_handle : Node → result pystr.
Variable get_page_content : pystr → result pystr.
Variable write_error : path → option pystr.
Variable mkdir_error : path → option pystr.
Variable out : path.

Local Abbreviation run :=
  (run_task lower md5_hexdigest url_path_ext http_head http_get_save access_token
     parse_html h2t_handle get_page_content write_error mkdir_error out).
Local Abbreviation outcome :=
  (task_result lower md5_hexdigest url_path_ext http_head http_get_save access_token
     parse_html h2t_handle get_page_content write_error mkdir_error out).

(** What a task yields does not depend on the counter it finds. *)
Lemma process_page_result page parent_dir c :
  (process_page lower md5_hexdigest url_path_ext http_head http_get_save access_token
     parse_html h2t_handle get_page_content write_error mkdir_error page out parent_dir c).1
  = outcome (page, parent_dir).
Proof.
  unfold task_result, process_page. cbn [fst snd].
  destruct (mkdir_all _ _); [|done].
  by destruct (get_page_content (page_id (node_page page))).
Qed.

(** One task adds one file or one failure, whatever happened before it. *)
Lemma run_task_outcome b task :
  written (run b task) = written b ++ option_list (file_written (outcome task)) ∧
  failed_pages (run b task)
    = failed_pages b ++ option_list (failure_of task (outcome task)).
Proof.
  destruct task as [page parent_dir]. unfold run_task.
  rewrite <- (process_page_result page parent_dir (counter b)).
  destruct (process_page _ _ _ _ _ _ _ _ _ _ _ _ _ _ _) as [[file|msg] c];
    cbn; by rewrite ?app_nil_r.
Qed.

Lemma run_tasks_outcome tasks b :
  written (foldl run b tasks) = written b ++ omap (λ t, file_written (outcome t)) tasks ∧
  failed_pages (foldl run b tasks)
    = failed_pages b ++ omap (λ t, failure_of t (outcome t)) tasks.
Proof.
  revert b. induction tasks as [|task tasks IH]; intros b.
  - cbn. by rewrite !app_nil_r.
  - cbn [foldl]. destruct (IH (run b task)) as [-> ->].
    destruct (run_task_outcome b task) as [-> ->].
    rewrite <-!app_assoc. cbn [omap list_omap].
    split; f_equal.
    + by destruct (file_written (outcome task)).
    + by destruct (failure_of task (outcome task)).
Qed.

Lemma outcome_count tasks :
  (length (omap (λ t, file_written (outcome t)) tasks) +
   length (omap (λ t, failure_of t (outcome t)) tasks))%nat = length tasks.
Proof.
  induction tasks as [|task tasks IH]; [done|]. cbn [omap list_omap].
  destruct (outcome task); cbn; lia.
Qed.

End Batch_facts.

(** C4: in the batch of a section every task is run; a task whose
    [process_page] raises adds the pair (page title, message) to
    [failed_pages] and nothing else changes; every other task has its
    Markdown file written.  With five pages of which the third cannot be
    fetched, four files are written and the one failure is reported under
    the title of the third page. *)
Theorem batch_isolates_failures
    (lower : pystr → pystr) (md5_hexdigest : pystr → result pystr)
    (url_path_ext http_head : pystr → result pystr)
    (http_get_save : pystr → pystr → result unit) (access_token : option pystr)
    (parse_html : pystr → result Node) (h2t_handle : Node → result pystr)
    (get_page_content : pystr → result pystr) (write_error mkdir_error : path → option pystr)
    (out : path) (pages : list PageNode) :
  let outcome := task_result lower md5_hexdigest url_path_ext http_head http_get_save
                   access_token parse_html h2t_handle get_page_content write_error
                   mkdir_error out in
  let batch := convert_section lower md5_hexdigest url_path_ext http_head http_get_save
                 access_token parse_html h2t_handle get_page_content write_error
                 mkdir_error out pages in
  let tasks := collect_all out pages in
  written batch = omap (λ t, file_written (outcome t)) tasks ∧
  failed_pages batch = omap (λ t, failure_of t (outcome t)) tasks ∧
  (length (written batch) + length (failed_pages batch))%nat = length tasks ∧
  (∀ t file, t ∈ tasks → outcome t = Ok file → file ∈ written batch) ∧
  (∀ t msg, t ∈ tasks → outcome t = Raise msg →
     (page_title (node_page t.1), msg) ∈ failed_pages batch) ∧
  let batch5 := convert_section ascii_lower md5_stub ext_stub head_stub get_stub None
                  parse_stub h2t_stub content_stub write_stub mkdir_stub
                  [py "output"; py "section"] five_pages in
  written batch5
    = [([py "output"; py "section"; py "Page 1.md"], py "# Page 1" ++ [10; 10] ++ py "hello");
       ([py "output"; py "section"; py "Page 2.md"], py "# Page 2" ++ [10; 10] ++ py "hello");
       ([py "output"; py "section"; py "Page 4.md"], py "# Page 4" ++ [10; 10] ++ py "hello");
       ([py "output"; py "section"; py "Page 5.md"], py "# Page 5" ++ [10; 10] ++ py "hello")] ∧
  failed_pages batch5 = [(py "Page 3", py "Failed to get page content: 500 - ")].
Proof.
  intros outcome batch tasks.
  assert (written batch = omap (λ t, file_written (outcome t)) tasks ∧
          failed_pages batch = omap (λ t, failure_of t (outcome t)) tasks) as [Hw Hf].
  { exact (run_tasks_outcome lower md5_hexdigest url_path_ext http_head http_get_save
             access_token parse_html h2t_handle get_page_content write_error mkdir_error out
             tasks (mkBatch 0 [] [])). }
  split_and!.
  - exact Hw.
  - exact Hf.
  - rewrite Hw, Hf. apply outcome_count.
  - intros t file Hin Ht. rewrite Hw. apply list_elem_of_omap. exists t.
    split; [done|]. by rewrite Ht.
  - intros t msg Hin Ht. rewrite Hf. apply list_elem_of_omap. exists t.
    split; [done|]. by rewrite Ht.
  - intros batch5. split; by vm_compute.
Qed.

Lemma batch_isolates_failures_witness :
  (length (written (convert_section ascii_lower md5_stub ext_stub head_stub get_stub None
                      parse_stub h2t_stub content_stub write_stub mkdir_stub
                      [py "output"; py "section"] five_pages)) +
   length (failed_pages (convert_section ascii_lower md5_stub ext_stub head_stub get_stub None
                           parse_stub h2t_stub content_stub write_stub mkdir_stub
                           [py "output"; py "section"] five_pages)))%nat = 5%nat.
Proof.
  exact (proj1 (proj2 (proj2 (batch_isolates_failures ascii_lower md5_stub ext_stub
                                head_stub get_stub None parse_stub h2t_stub content_stub
                                write_stub mkdir_stub [py "output"; py "section"] five_pages)))).
Defined.

(** ** Bold spans *)

Section Node_facts.

(** Induction on a document tree, the contents covered by [Forall]. *)
Lemma Node_forall_ind (Q : Node → Prop) :
  (∀ t, Q (NavigableString t)) →
  (∀ i nm attrs cs, Forall Q cs → Q (Tag i nm attrs cs)) → ∀ n, Q n.
Proof.
  intros Htext Htag. fix IH 1. intros [t|i nm attrs cs]; [apply Htext|]. apply Htag.
  induction cs as [|c cs IHcs]; constructor; [apply IH|exact IHcs].
Qed.

(** The first tag with identity [ref] among the nodes [cs]. *)
Lemma find_tag_Tag ref i nm attrs cs :
  find_tag ref (Tag i nm attrs cs) =
  if bool_decide (i = ref) then Some (Tag i nm attrs cs)
  else foldr (λ c r, match find_tag ref c with Some t => Some t | None => r end) None cs.
Proof.
  cbn [find_tag]. destruct (bool_decide (i = ref)); [done|].
  induction cs as [|c cs IH]; [done|]. cbn [foldr]. by rewrite <-IH.
Qed.

Lemma find_tag_None ref n : ref ∉ oids n → find_tag ref n = None.
Proof.
  induction n as [t|i nm attrs cs IH] using Node_forall_ind; [done|].
  cbn [oids]. intros [Hi Hcs]%not_elem_of_cons. rewrite find_tag_Tag.
  rewrite bool_decide_eq_false_2 by done.
  induction IH as [|c cs Hc _ IHcs]; [done|]. cbn [foldr flat_map] in *.
  apply not_elem_of_app in Hcs as [H1 H2]. rewrite Hc by done. by apply IHcs.
Qed.

Lemma modify_id ref f n : ref ∉ oids n → modify ref f n = n.
Proof.
  induction n as [t|i nm attrs cs IH] using Node_forall_ind; [done|].
  cbn [oids modify]. intros [Hi Hcs]%not_elem_of_cons.
  rewrite bool_decide_eq_false_2 by done. f_equal.
  induction IH as [|c cs Hc _ IHcs]; [done|]. cbn [map flat_map] in *.
  apply not_elem_of_app in Hcs as [H1 H2]. f_equal; [by apply Hc|by apply IHcs].
Qed.

Lemma oids_tags n : oids n = (tags n).*1.*1.
Proof.
  induction n as [t|i nm attrs cs IH] using Node_forall_ind; [done|].
  cbn [oids tags fmap list_fmap]. f_equal.
  induction IH as [|c cs Hc _ IHcs]; [done|]. cbn [flat_map].
  by rewrite !fmap_app, Hc, IHcs.
Qed.

Lemma tags_oid n i nm attrs : (i, nm, attrs) ∈ tags n → i ∈ oids n.
Proof.
  rewrite oids_tags. intros H. apply list_elem_of_fmap. exists (i, nm).
  split; [done|]. apply list_elem_of_fmap. by exists (i, nm, attrs).
Qed.

Lemma tags_oid_list cs i nm attrs :
  (i, nm, attrs) ∈ flat_map tags cs → i ∈ flat_map oids cs.
Proof.
  intros (c & Hc & Hin)%elem_of_flat_map. apply elem_of_flat_map.
  exists c. split; [|done]. by apply tags_oid in Hc.
Qed.

Lemma find_all_tags name n i :
  i ∈ find_all name n ↔ ∃ attrs, (i, name, attrs) ∈ tags n.
Proof.
  induction n as [t|j nm attrs cs IH] using Node_forall_ind.
  - cbn. split; [by intros ?%elem_of_nil|by intros [? ?%elem_of_nil]].
  - cbn [find_all tags]. rewrite elem_of_app, elem_of_flat_map. split.
    + intros [H|(c & Hc & Hin)].
      * case_bool_decide; [|by apply elem_of_nil in H].
        apply list_elem_of_singleton in H. subst. exists attrs. apply elem_of_cons. by left.
      * eapply Forall_forall in IH; [|exact Hin]. apply IH in Hc as [a Ha].
        exists a. apply elem_of_cons. right. apply elem_of_flat_map. eauto.
    + intros [a [[= -> -> ->]|H]%elem_of_cons].
      * left. rewrite bool_decide_eq_true_2 by done. by apply list_elem_of_singleton.
      * right. apply elem_of_flat_map in H as (c & Hc & Hin). exists c. split; [|done].
        eapply Forall_forall in IH; [|exact Hin]. apply IH. eauto.
Qed.

End Node_facts.

Section Wrapping.

(** Changing what counts as processed or fresh, where it makes no
    difference for the bold spans of the document. *)
Lemma wrapped_where_change (P P' F F' : nat → Prop) orig :
  ∀ cur, wrapped_where P F orig cur →
  (∀ i nm attrs, (i, nm, attrs) ∈ tags orig → is_bold_span nm attrs = true → (P i ↔ P' i)) →
  (∀ b, F b → F' b) →
  wrapped_where P' F' orig cur.
Proof.
  induction orig as [t|i nm attrs cs IH] using Node_forall_ind; intros cur H HP HF.
  - inversion H; subst. constructor.
  - assert (Hkids : ∀ cs', Forall2 (wrapped_where P F) cs cs' →
                           Forall2 (wrapped_where P' F') cs cs').
    { intros cs'. apply Forall2_from_Forall, Forall_forall. intros c Hc c' Hw.
      eapply Forall_forall in IH; [|exact Hc]. apply IH; [done| |done].
      intros j nm' a' Hj. apply HP. cbn [tags]. apply elem_of_cons. right.
      apply elem_of_flat_map. eauto. }
    assert (Hself : (i, nm, attrs) ∈ tags (Tag i nm attrs cs)).
    { cbn [tags]. apply elem_of_cons. by left. }
    inversion H as [|? ? ? ? ? b0 Hbd Hproc Hfresh Hcs|? ? ? ? ? Hkeep Hcs]; subst.
    + apply ww_bold; [done| |by apply HF|by apply Hkids]. by apply (HP i nm attrs).
    + apply ww_keep; [|by apply Hkids]. intros Hb HP'. apply Hkeep; [done|].
      by apply (HP i nm attrs).
Qed.

Lemma wrapped_where_refl F orig : wrapped_where (λ _, False) F orig orig.
Proof.
  induction orig as [t|i nm attrs cs IH] using Node_forall_ind; [constructor|].
  apply ww_keep; [by intros _ []|].
  induction IH as [|c cs Hc _ IHcs]; by constructor.
Qed.

(** What is in the original is still in the current document. *)
Lemma wrapped_where_oids P F orig :
  ∀ cur j, wrapped_where P F orig cur → j ∈ oids orig → j ∈ oids cur.
Proof.
  induction orig as [t|i nm attrs cs IH] using Node_forall_ind; intros cur j H.
  - inversion H; by subst.
  - assert (Hkids : ∀ cs', Forall2 (wrapped_where P F) cs cs' →
                           j ∈ flat_map oids cs → j ∈ flat_map oids cs').
    { intros cs' H2. clear H. induction H2 as [|c c' cs cs' Hc _ IH2]; [done|].
      apply Forall_cons in IH as [IHc IHcs]. cbn [flat_map]. rewrite !elem_of_app.
      intros [Hj|Hj]; [left; by apply IHc|right; by apply IH2]. }
    cbn [oids]. inversion H as [|? ? ? ? ? b0 Hbd Hproc Hfresh Hcs|? ? ? ? ? Hkeep Hcs]; subst; cbn [oids flat_map]; rewrite ?app_nil_r;
      intros [->|Hj]%elem_of_cons; apply elem_of_cons; auto.
    right. apply elem_of_cons. auto.
Qed.

Lemma wrapped_where_find_all P F name orig :
  name ≠ py "b" →
  ∀ cur, wrapped_where P F orig cur → find_all name cur = find_all name orig.
Proof.
  intros Hname.
  induction orig as [t|i nm attrs cs IH] using Node_forall_ind; intros cur H.
  - inversion H; by subst.
  - assert (Hkids : ∀ cs', Forall2 (wrapped_where P F) cs cs' →
                           flat_map (find_all name) cs' = flat_map (find_all name) cs).
    { intros cs' H2. clear H. induction H2 as [|c c' cs cs' Hc _ IH2]; [done|].
      apply Forall_cons in IH as [IHc IHcs]. cbn [flat_map].
      by rewrite IHc, IH2. }
    inversion H as [|? ? ? ? ? b0 Hbd Hproc Hfresh Hcs|? ? ? ? ? Hkeep Hcs]; subst; cbn [find_all flat_map]; rewrite ?app_nil_r.
    + rewrite (bool_decide_eq_false_2 (py "b" = name)) by done.
      cbn [app]. by rewrite Hkids.
    + by rewrite Hkids.
Qed.

Lemma wrapped_where_text P F orig :
  ∀ cur, wrapped_where P F orig cur → node_text cur = node_text orig.
Proof.
  induction orig as [t|i nm attrs cs IH] using Node_forall_ind; intros cur H.
  - inversion H; by subst.
  - assert (Hkids : ∀ cs', Forall2 (wrapped_where P F) cs cs' →
                           flat_map node_text cs' = flat_map node_text cs).
    { intros cs' H2. clear H. induction H2 as [|c c' cs cs' Hc _ IH2]; [done|].
      apply Forall_cons in IH as [IHc IHcs]. cbn [flat_map].
      by rewrite IHc, IH2. }
    inversion H as [|? ? ? ? ? b0 Hbd Hproc Hfresh Hcs|? ? ? ? ? Hkeep Hcs]; subst; cbn [node_text flat_map]; rewrite ?app_nil_r; by rewrite Hkids.
Qed.

End Wrapping.

Section Bold_loop.

(** Tags with distinct identities: an identity determines name and
    attributes. *)
Lemma tags_unique n i nm attrs nm' attrs' :
  NoDup (oids n) → (i, nm, attrs) ∈ tags n → (i, nm', attrs') ∈ tags n →
  nm = nm' ∧ attrs = attrs'.
Proof.
  rewrite oids_tags. generalize (tags n). intros l.
  induction l as [|[[j m] a] l IH]; [by intros _ ?%elem_of_nil|].
  cbn [fmap list_fmap fst]. intros [Hj Hl]%NoDup_cons H1 H2.
  assert (Hin : ∀ x y, (j, x, y) ∈ l → False).
  { intros x y Hxy. apply Hj. apply list_elem_of_fmap. exists (j, x).
    split; [done|]. apply list_elem_of_fmap. by exists (j, x, y). }
  apply elem_of_cons in H1. apply elem_of_cons in H2.
  destruct H1 as [H1|H1], H2 as [H2|H2]; simplify_eq; try done.
  - by destruct (Hin _ _ H2).
  - by destruct (Hin _ _ H1).
  - by apply IH.
Qed.

(** [ids]: the identities of the original document; [done_]: the spans
    processed so far; the [b] elements made so far are outside [ids]. *)
Variable ids : list nat.
Variable done_ : list nat.
Variable s : nat.
Hypothesis s_in_ids : s ∈ ids.

Local Abbreviation W := (wrapped_where (λ i, i ∈ done_) (λ b, b ∉ ids)).
Local Abbreviation W' := (wrapped_where (λ i, i ∈ s :: done_) (λ b, b ∉ ids)).

(** The reference [s] still leads to the tag it led to in the original. *)
Lemma wrapped_find_tag orig :
  ∀ cur, W orig cur → oids orig ⊆ ids → NoDup (oids orig) →
  (∀ nm attrs, (s, nm, attrs) ∈ tags orig → ∃ cs', find_tag s cur = Some (Tag s nm attrs cs')) ∧
  (s ∉ oids orig → find_tag s cur = None).
Proof.
  induction orig as [t|i nm attrs cs IH] using Node_forall_ind; intros cur H Hids Hnd.
  - inversion H; subst. split; [by intros ?? ?%elem_of_nil|done].
  - cbn [oids] in Hids, Hnd. apply NoDup_cons in Hnd as [Hi Hnd].
    assert (Hkids : ∀ cs', Forall2 W cs cs' →
      (∀ nm0 a0, (s, nm0, a0) ∈ flat_map tags cs →
         ∃ cs0, foldr (λ c r, match find_tag s c with Some t => Some t | None => r end)
                  None cs' = Some (Tag s nm0 a0 cs0)) ∧
      (s ∉ flat_map oids cs →
         foldr (λ c r, match find_tag s c with Some t => Some t | None => r end)
           None cs' = None)).
    { assert (Hsub : flat_map oids cs ⊆ ids).
      { intros j Hj. apply Hids. apply elem_of_cons. by right. }
      clear H Hi Hids. intros cs' H2.
      induction H2 as [|c c' cs cs' Hc _ IH2]; [split; [by intros ?? ?%elem_of_nil|done]|].
      apply Forall_cons in IH as [IHc IHcs]. cbn [flat_map] in Hnd, Hsub.
      apply NoDup_app in Hnd as (Hndc & Hdisj & Hndcs).
      destruct (IHc c' Hc) as [Hfound Hnone]; [|done|].
      { intros j Hj. apply Hsub, elem_of_app. by left. }
      destruct (IH2 IHcs Hndcs) as [Hfound' Hnone'].
      { intros j Hj. apply Hsub, elem_of_app. by right. }
      cbn [foldr flat_map]. split.
      - intros nm0 a0 [Hin|Hin]%elem_of_app.
        + destruct (Hfound _ _ Hin) as [cs0 ->]. eauto.
        + rewrite Hnone; [by apply Hfound'|].
          intros Hs. apply (Hdisj s Hs). by apply tags_oid_list in Hin.
      - intros [H1 H2']%not_elem_of_app. rewrite Hnone by done. by apply Hnone'. }
    inversion H as [|? ? ? ? ? b0 Hbd Hproc Hfresh Hcs|? ? ? ? ? Hkeep Hcs]; subst.
    + destruct (Hkids cs' Hcs) as [Hfound Hnone].
      assert (b0 ≠ s) by (by intros ->). split.
      * intros nm0 a0 [[= -> -> ->]|Hin]%elem_of_cons.
        -- rewrite find_tag_Tag, bool_decide_eq_true_2 by done. eauto.
        -- rewrite find_tag_Tag, bool_decide_eq_false_2.
           2:{ intros ->. apply Hi. by apply tags_oid_list in Hin. }
           cbn [foldr]. rewrite find_tag_Tag, bool_decide_eq_false_2 by done.
           destruct (Hfound _ _ Hin) as [cs0 ->]. eauto.
      * cbn [oids]. intros [Hsi Hs]%not_elem_of_cons.
        rewrite find_tag_Tag, bool_decide_eq_false_2 by done.
        cbn [foldr]. rewrite find_tag_Tag, bool_decide_eq_false_2 by done.
        by rewrite Hnone.
    + destruct (Hkids cs' Hcs) as [Hfound Hnone]. split.
      * intros nm0 a0 [[= -> -> ->]|Hin]%elem_of_cons.
        -- rewrite find_tag_Tag, bool_decide_eq_true_2 by done. eauto.
        -- rewrite find_tag_Tag, bool_decide_eq_false_2.
           2:{ intros ->. apply Hi. by apply tags_oid_list in Hin. }
           apply Hfound, Hin.
      * cbn [oids]. intros [Hsi Hs]%not_elem_of_cons.
        rewrite find_tag_Tag, bool_decide_eq_false_2 by done. by apply Hnone.
Qed.

(** Wrapping the contents of the span [s]. *)
Lemma wrapped_modify b orig :
  b ∉ ids → s ∉ done_ →
  ∀ cur, W orig cur → oids orig ⊆ ids → NoDup (oids orig) →
  (∀ nm attrs, (s, nm, attrs) ∈ tags orig → is_bold_span nm attrs = true) →
  W' orig (modify s (wrap_contents_in_b b) cur).
Proof.
  intros Hb Hs.
  induction orig as [t|i nm attrs cs IH] using Node_forall_ind; intros cur H Hids Hnd Hbold.
  - inversion H; subst. constructor.
  - cbn [oids] in Hids, Hnd. apply NoDup_cons in Hnd as [Hi Hnd].
    assert (Hkids : ∀ cs', Forall2 W cs cs' →
                           Forall2 W' cs (map (modify s (wrap_contents_in_b b)) cs')).
    { intros cs' H2. apply Forall2_fmap_r.
      revert H2. apply Forall2_from_Forall, Forall_forall. intros c Hc c' Hw.
      eapply Forall_forall in IH; [|exact Hc]. apply IH; [done| | |].
      - intros j Hj. apply Hids. apply elem_of_cons. right. apply elem_of_flat_map. eauto.
      - clear -Hnd Hc. induction cs as [|c0 cs IHcs]; [by apply elem_of_nil in Hc|].
        cbn [flat_map] in Hnd. apply NoDup_app in Hnd as (? & _ & ?).
        apply elem_of_cons in Hc as [->|Hc]; [done|by apply IHcs].
      - intros nm0 a0 Hin. apply Hbold. cbn [tags]. apply elem_of_cons. right.
        apply elem_of_flat_map. eauto. }
    inversion H as [|? ? ? ? ? b0 Hbd Hproc Hfresh Hcs|? ? ? ? ? Hkeep Hcs]; subst.
    + assert (i ≠ s) by (by intros ->). assert (b0 ≠ s) by (by intros ->).
      cbn [modify map]. rewrite !bool_decide_eq_false_2 by done.
      apply ww_bold; [done|by apply elem_of_cons; right|done|by apply Hkids].
    + cbn [modify]. case_bool_decide as Hsi.
      * subst i. cbn [wrap_contents_in_b].
        apply ww_bold; [|by apply elem_of_cons; left|done|].
        -- apply Hbold. cbn [tags]. apply elem_of_cons. by left.
        -- revert Hcs. apply Forall2_from_Forall, Forall_forall. intros c Hc c' Hw.
           eapply wrapped_where_change; [exact Hw| |done].
           intros j nm0 a0 Hj _. rewrite elem_of_cons. split; [by right|].
           intros [->|?]; [|done]. exfalso. apply Hi. apply elem_of_flat_map.
           exists c. split; [|done]. by apply tags_oid in Hj.
      * apply ww_keep; [|by apply Hkids].
        intros Hbd [?|?]%elem_of_cons; [done|]. by apply Hkeep.
Qed.

End Bold_loop.

Section Bold_pass.

Lemma find_all_sublist name n : find_all name n `sublist_of` oids n.
Proof.
  induction n as [t|i nm attrs cs IH] using Node_forall_ind; [done|].
  cbn [find_all oids].
  assert (flat_map (find_all name) cs `sublist_of` flat_map oids cs) as Hkids.
  { induction IH as [|c cs Hc _ IHcs]; [done|]. cbn [flat_map]. by apply sublist_app. }
  case_bool_decide; cbn [app]; [by apply sublist_skip|by apply sublist_cons].
Qed.

Lemma is_bold_span_style attrs :
  is_bold_span (py "span") attrs = is_bold_style (default [] (attr "style" attrs)).
Proof. unfold is_bold_span, style_of. by rewrite bool_decide_eq_true_2. Qed.

Variable orig : Node.
Hypothesis orig_NoDup : NoDup (oids orig).

Local Abbreviation W done_ := (wrapped_where (λ i, i ∈ done_) (λ b, b ∉ oids orig)).

(** One iteration of the loop of [_convert_bold_spans]. *)
Lemma bold_step_wrapped done_ s cur :
  W done_ orig cur → s ∉ done_ → s ∈ find_all (py "span") orig →
  W (s :: done_) orig (bold_step cur s).
Proof.
  intros Hw Hs [attrs Htag]%find_all_tags.
  assert (s ∈ oids orig) as Hin by (by apply tags_oid in Htag).
  destruct (wrapped_find_tag (oids orig) done_ s Hin orig cur Hw) as [Hfind _]; [done..|].
  destruct (Hfind _ _ Htag) as [cs' Hcur].
  unfold bold_step. rewrite Hcur. rewrite <-is_bold_span_style.
  destruct (is_bold_span (py "span") attrs) eqn:Hbold.
  - apply wrapped_modify; [done| |done..|].
    + unfold fresh_oid. intros Hf. eapply wrapped_where_oids in Hf; [|exact Hw].
      apply max_list_elem_of_le in Hf. lia.
    + intros nm a Hna. by destruct (tags_unique orig s _ _ _ _ orig_NoDup Htag Hna) as [<- <-].
  - eapply wrapped_where_change; [exact Hw| |done].
    intros i nm a Hi Hb. rewrite elem_of_cons. split; [by right|].
    intros [->|?]; [|done].
    destruct (tags_unique orig s _ _ _ _ orig_NoDup Htag Hi) as [<- <-]. congruence.
Qed.

Lemma bold_loop_wrapped spans :
  ∀ done_ cur, NoDup spans →
  (∀ s, s ∈ spans → s ∈ find_all (py "span") orig ∧ s ∉ done_) →
  W done_ orig cur →
  W (reverse spans ++ done_) orig (foldl bold_step cur spans).
Proof.
  induction spans as [|s spans IH]; intros done_ cur Hnd Hspans Hw; [done|].
  apply NoDup_cons in Hnd as [Hs Hnd]. cbn [foldl].
  rewrite reverse_cons, <-app_assoc. cbn [app]. apply IH; [done| |].
  - intros s' Hs'. destruct (Hspans s') as [? ?]; [by apply elem_of_cons; right|].
    split; [done|]. intros [->|?]%elem_of_cons; done.
  - destruct (Hspans s) as [? ?]; [by apply elem_of_cons; left|].
    by apply bold_step_wrapped.
Qed.

Lemma convert_bold_spans_wrapped : bold_wrapped orig (_convert_bold_spans orig).
Proof.
  unfold _convert_bold_spans, bold_wrapped.
  eapply wrapped_where_change; [apply (bold_loop_wrapped _ [])| |done].
  - eapply sublist_NoDup; [exact orig_NoDup|apply find_all_sublist].
  - intros s Hs. split; [done|apply not_elem_of_nil].
  - eapply wrapped_where_change; [apply (wrapped_where_refl (λ b, b ∉ oids orig))| |done].
    intros i nm a _ _. split; [done|by intros ?%elem_of_nil].
  - intros i nm a Hi Hb. split; [done|]. intros _. rewrite app_nil_r, elem_of_reverse.
    unfold is_bold_span in Hb. apply andb_prop in Hb as [->%bool_decide_eq_true _].
    apply find_all_tags. eauto.
Qed.

End Bold_pass.

Lemma bold_wrapped_promoted orig cur : bold_wrapped orig cur → promoted orig cur.
Proof.
  unfold bold_wrapped. revert cur.
  induction orig as [t|i nm attrs cs IH] using Node_forall_ind; intros cur Hw.
  - inversion Hw; subst. constructor.
  - assert (Hkids : ∀ cs', Forall2 (wrapped_where (λ _, True) (λ _, True)) cs cs' →
                           Forall2 promoted cs cs').
    { intros cs' Hcs. clear Hw. revert IH. induction Hcs as [|c c' cs cs' Hc _ IHcs].
      - constructor.
      - intros [Hhead Htail]%Forall_cons. constructor; [by apply Hhead|by apply IHcs]. }
    inversion Hw as [|? ? ? ? cs' b Hbold _ _ Hcs|? ? ? ? cs' Hkeep Hcs]; subst.
    + apply pr_bold; [done|by apply Hkids].
    + destruct (is_bold_span nm attrs) eqn:Hbold; [by destruct Hkeep|].
      destruct (other_weight nm attrs) eqn:Hother.
      * eapply pr_other; [done|by apply Hkids|by left].
      * apply pr_keep; [done..|by apply Hkids].
Qed.

(** C6, as the code has it: in a document whose tags are distinct
    objects, every span whose style declares bold weight in a spelling the
    code knows, [font-weight:bold] or [font-weight: 700], has its former
    contents moved under a new [b] element, and that [b] is the only child
    of the span; the span itself STAYS in the tree (the [b] does not
    replace it).  Elements that are no spans and spans whose style does not
    name the weight are left as they are; of spans that name the weight in
    another spelling nothing is claimed.  The spans of the document are
    the same before and after, and so is its text.  A span that wraps the
    text Hi becomes the span around the [b] around Hi. *)
Theorem convert_bold_spans_wraps_contents (soup : Node) (Hobjects : NoDup (oids soup)) :
  promoted soup (_convert_bold_spans soup) ∧
  find_all (py "span") (_convert_bold_spans soup) = find_all (py "span") soup ∧
  node_text (_convert_bold_spans soup) = node_text soup ∧
  _convert_bold_spans (span_hi "font-weight:bold") =
    Tag 0 (py "[document]") []
      [Tag 1 (py "span") [(py "style", py "font-weight:bold")]
         [Tag 2 (py "b") [] [NavigableString (py "Hi")]]].
Proof.
  assert (H := convert_bold_spans_wrapped soup Hobjects). split_and!.
  - by apply bold_wrapped_promoted.
  - by eapply wrapped_where_find_all.
  - by eapply wrapped_where_text.
  - by vm_compute.
Qed.

Lemma convert_bold_spans_wraps_contents_witness :
  NoDup (oids (span_hi "font-weight: 700")) ∧
  find_all (py "span") (_convert_bold_spans (span_hi "font-weight: 700")) = [1%nat].
Proof.
  assert (Hnd : NoDup (oids (span_hi "font-weight: 700"))).
  { apply (bool_decide_unpack _). by vm_compute. }
  split; [exact Hnd|].
  rewrite (proj1 (proj2 (convert_bold_spans_wraps_contents _ Hnd))).
  reflexivity.
Defined.

(** C6 as stated fails: after the pass the bold-styled span is still in
    the document, with the [b] element inside it; the [b] has not taken
    its place. *)
Lemma bold_span_stays_in_tree :
  find_all (py "span") (_convert_bold_spans (span_hi "font-weight:bold")) = [1%nat] ∧
  _convert_bold_spans (span_hi "font-weight:bold") ≠
    Tag 0 (py "[document]") [] [Tag 2 (py "b") [] [NavigableString (py "Hi")]] ∧
  ∀ b, _convert_bold_spans (span_hi "font-weight:bold") ≠
    Tag 0 (py "[document]") [] [Tag b (py "b") [] [NavigableString (py "Hi")]].
Proof. split_and!; [by vm_compute|vm_compute; discriminate|intros b; vm_compute; discriminate]. Qed.

(** The two spellings are matched as text: a span that declares the same
    weight as [font-weight: bold] or as [font-weight:700] is passed over,
    where [font-weight:bold] and [font-weight: 700] are wrapped. *)
Lemma other_spellings_passed_over :
  _convert_bold_spans (span_hi "font-weight: bold") = span_hi "font-weight: bold" ∧
  _convert_bold_spans (span_hi "font-weight:700") = span_hi "font-weight:700" ∧
  _convert_bold_spans (span_hi "font-weight:bold") ≠ span_hi "font-weight:bold" ∧
  _convert_bold_spans (span_hi "font-weight: 700") ≠ span_hi "font-weight: 700".
Proof. split_and!; [by vm_compute..|vm_compute; discriminate|vm_compute; discriminate]. Qed.

(** ** The page tree builder *)

Section Sorting.

Local Open Scope Z_scope.

Lemma key_lt_spec a b :
  key_lt a b = true ↔ a.1 < b.1 ∨ (a.1 = b.1 ∧ a.2 < b.2).
Proof.
  unfold key_lt. rewrite orb_true_iff, andb_true_iff, !Z.ltb_lt, Z.eqb_eq. tauto.
Qed.

Lemma key_le_spec a b : key_le a b ↔ a.1 < b.1 ∨ (a.1 = b.1 ∧ a.2 ≤ b.2).
Proof.
  unfold key_le. rewrite <-not_true_iff_false, key_lt_spec. lia.
Qed.

Lemma key_le_trans a b c : key_le a b → key_le b c → key_le a c.
Proof. rewrite !key_le_spec. lia. Qed.

Lemma key_le_total a b : key_le a b ∨ key_le b a.
Proof. rewrite !key_le_spec. lia. Qed.

Lemma key_lt_le a b : key_lt a b = true → key_le a b.
Proof. rewrite key_lt_spec, key_le_spec. lia. Qed.

Lemma key_lt_irrefl_eq a b : key_lt a b = true → a ≠ b.
Proof. rewrite key_lt_spec. intros H ->. lia. Qed.

Lemma insert_page_perm x l : insert_page x l ≡ₚ x :: l.
Proof.
  induction l as [|y l IH]; [done|]. simpl.
  destruct (key_lt (sort_key y) (sort_key x)); [|done].
  rewrite IH. apply Permutation_swap.
Qed.

Lemma sort_pages_perm l : sort_pages l ≡ₚ l.
Proof.
  induction l as [|x l IH]; [done|]. simpl. by rewrite insert_page_perm, IH.
Qed.

Local Abbreviation page_le := (λ p q : Page, key_le (sort_key p) (sort_key q)).

Lemma insert_page_sorted x l :
  StronglySorted page_le l → StronglySorted page_le (insert_page x l).
Proof.
  induction 1 as [|y l Hl IH Hy]; simpl; [repeat constructor|].
  destruct (key_lt (sort_key y) (sort_key x)) eqn:E.
  - constructor; [done|]. rewrite insert_page_perm. constructor; [|done].
    by apply key_lt_le.
  - constructor; [by constructor|]. constructor; [done|].
    eapply Forall_impl; [exact Hy|]. intros z Hz. by eapply key_le_trans.
Qed.

Lemma sort_pages_sorted l : StronglySorted page_le (sort_pages l).
Proof.
  induction l as [|x l IH]; [constructor|]. simpl. by apply insert_page_sorted.
Qed.

(** Stability: records with the same key keep their relative order. *)
Lemma insert_page_stable k x l :
  StronglySorted page_le l →
  filter (λ p, sort_key p = k) (insert_page x l) = filter (λ p, sort_key p = k) (x :: l).
Proof.
  induction 1 as [|y l Hl IH Hy]; [done|]. simpl.
  destruct (key_lt (sort_key y) (sort_key x)) eqn:E; [|done].
  rewrite (filter_cons _ y), IH, !filter_cons.
  apply key_lt_irrefl_eq in E.
  repeat case_decide; try done. congruence.
Qed.

Lemma sort_pages_stable k l :
  filter (λ p, sort_key p = k) (sort_pages l) = filter (λ p, sort_key p = k) l.
Proof.
  induction l as [|x l IH]; [done|]. simpl.
  rewrite insert_page_stable by apply sort_pages_sorted.
  by rewrite !filter_cons, IH.
Qed.

End Sorting.

Section Objects.

(** Induction on a hierarchy, the children covered by [Forall]. *)
Lemma PageObj_forall_ind (Q : PageObj → Prop) :
  (∀ r p kids, Forall Q kids → Q (PObj r p kids)) → ∀ o, Q o.
Proof.
  intros step. fix IH 1. intros [r p kids]. apply step.
  induction kids as [|k kids IHk]; constructor; [apply IH|exact IHk].
Qed.

Context {X : Type} (g : nat → Page → X).

Lemma flatten_to_node o : flatten (to_node o) = walk (λ _ p, p) o.
Proof.
  induction o as [r p kids IH] using PageObj_forall_ind. cbn [to_node flatten walk].
  f_equal. induction IH as [|k kids Hk _ IHk]; [done|]. cbn [map flat_map].
  by rewrite Hk, IHk.
Qed.

Lemma obj_ref_in_refs o : obj_ref o ∈ obj_refs o.
Proof. destruct o. apply elem_of_cons. by left. Qed.

(** An object that is not there is not changed. *)
Lemma append_child_absent parent child o :
  parent ∉ obj_refs o → append_child parent child o = o.
Proof.
  induction o as [r p kids IH] using PageObj_forall_ind.
  unfold obj_refs. cbn [walk append_child]. intros [Hr Hkids]%not_elem_of_cons.
  rewrite bool_decide_eq_false_2 by done. f_equal.
  induction IH as [|k kids Hk _ IHk]; [done|]. cbn [map flat_map] in *.
  apply not_elem_of_app in Hkids as [H1 H2]. f_equal; [by apply Hk|by apply IHk].
Qed.

(** Appending a child to an object that is there, once, adds the objects
    of the child and nothing else. *)
Lemma append_child_walk parent child o :
  NoDup (obj_refs o) → parent ∈ obj_refs o →
  walk g (append_child parent child o) ≡ₚ walk g o ++ walk g child.
Proof.
  induction o as [r p kids IH] using PageObj_forall_ind.
  unfold obj_refs. cbn [walk append_child]. intros [Hr Hnd]%NoDup_cons Hin.
  case_bool_decide as Hrp.
  - cbn [walk]. rewrite flat_map_app. cbn [flat_map]. by rewrite app_nil_r.
  - apply elem_of_cons in Hin as [->|Hin]; [done|]. cbn [walk app].
    apply Permutation_skip. clear Hr Hrp. induction IH as [|k kids Hk _ IHk]; [by apply elem_of_nil in Hin|].
    cbn [map flat_map] in *. apply NoDup_app in Hnd as (Hndk & Hdisj & Hndkids).
    apply elem_of_app in Hin as [Hin|Hin].
    + rewrite Hk by done.
      assert (map (append_child parent child) kids = kids) as ->.
      { clear -Hdisj Hin. induction kids as [|k' kids IH]; [done|]. cbn [map flat_map] in *.
        f_equal.
        - apply append_child_absent. intros H. apply (Hdisj _ Hin), elem_of_app. by left.
        - apply IH. intros x Hx Hx'. apply (Hdisj x Hx), elem_of_app. by right. }
      rewrite <-!app_assoc. apply Permutation_app_head, Permutation_app_comm.
    + rewrite append_child_absent by (intros H; by apply (Hdisj _ H)).
      rewrite IHk by done. by rewrite app_assoc.
Qed.

Lemma append_child_walk_list parent child objs :
  NoDup (flat_map obj_refs objs) → parent ∈ flat_map obj_refs objs →
  flat_map (walk g) (map (append_child parent child) objs)
    ≡ₚ flat_map (walk g) objs ++ walk g child.
Proof.
  induction objs as [|o objs IH]; [by intros _ ?%elem_of_nil|].
  cbn [map flat_map]. intros (Hndo & Hdisj & Hnd)%NoDup_app [Hin|Hin]%elem_of_app.
  - rewrite append_child_walk by done.
    assert (map (append_child parent child) objs = objs) as ->.
    { clear -Hdisj Hin. induction objs as [|o' objs IH]; [done|]. cbn [map flat_map] in *.
      f_equal.
      - apply append_child_absent. intros H. apply (Hdisj _ Hin), elem_of_app. by left.
      - apply IH. intros x Hx Hx'. apply (Hdisj x Hx), elem_of_app. by right. }
    rewrite <-!app_assoc. apply Permutation_app_head, Permutation_app_comm.
  - rewrite append_child_absent by (intros H; by apply (Hdisj _ H)).
    rewrite IH by done. by rewrite app_assoc.
Qed.

End Objects.

Section Builder.

Lemma well_placed_PObj all_pages r p kids :
  well_placed all_pages (PObj r p kids) ↔
  all_pages !! r = Some p ∧
  Forall (λ k, (r < obj_ref k)%nat ∧ well_placed all_pages k) kids.
Proof.
  cbn [well_placed]. apply and_iff_compat_l.
  induction kids as [|k kids IH]; [by split; [constructor|]|].
  rewrite Forall_cons, <-IH. tauto.
Qed.

Lemma well_placed_append all_pages parent child o :
  well_placed all_pages o → well_placed all_pages child → (parent < obj_ref child)%nat →
  well_placed all_pages (append_child parent child o).
Proof.
  intros Ho Hchild Hlt. induction o as [r p kids IH] using PageObj_forall_ind.
  apply well_placed_PObj in Ho as [Hp Hkids]. cbn [append_child]. case_bool_decide.
  - subst r. apply well_placed_PObj. split; [done|].
    apply Forall_app. split; [done|]. by repeat constructor.
  - apply well_placed_PObj. split; [done|]. apply Forall_fmap.
    induction IH as [|k kids Hk _ IHk]; [constructor|].
    apply Forall_cons in Hkids as [[Hrk Hwk] Hkids]. constructor; [|by apply IHk].
    split; [|by apply Hk]. destruct k as [rk pk kk]. cbn [append_child].
    by case_bool_decide.
Qed.

Lemma dict_set_values {K V} `{EqDecision K} (k : K) (v : V) d x :
  x ∈ Dict.values (Dict.set k v d) → x = v ∨ x ∈ Dict.values d.
Proof.
  unfold Dict.values. induction d as [|[k' v'] d IH]; cbn [Dict.set].
  - intros ->%list_elem_of_singleton. by left.
  - case_decide; cbn [fmap list_fmap snd]; rewrite !elem_of_cons; [tauto|].
    intros [->|Hx]; [tauto|]. apply IH in Hx. tauto.
Qed.

Variable all_pages : list Page.

Local Abbreviation built := (built all_pages).

Lemma built_add_root k b page m :
  built k b → all_pages !! k = Some page →
  Forall (λ r, (r < S k)%nat) (Dict.values m) →
  built (S k) (mkBuilder m (root_pages b ++ [PObj k page []])).
Proof.
  intros (Hrefs & Hpages & Hwp & _) Hk Hm. unfold built. cbn [root_pages page_map].
  rewrite !flat_map_app. cbn [flat_map obj_refs walk app].
  rewrite seq_S, (take_S_r _ _ _ Hk). split_and!; [by rewrite Hrefs|by rewrite Hpages| |done].
  apply Forall_app. split; [done|]. apply Forall_singleton, well_placed_PObj.
  split; [done|constructor].
Qed.

Lemma build_step_built k b page :
  built k b → all_pages !! k = Some page → built (S k) (build_step all_pages b k page).
Proof.
  intros Hb Hk. unfold build_step.
  assert (Hm : Forall (λ r, (r < S k)%nat)
                 (Dict.values (Dict.set (page_id page) k (page_map b)))).
  { destruct Hb as (_ & _ & _ & Hm). apply Forall_forall. intros r [->|Hr]%dict_set_values; [lia|].
    eapply Forall_forall in Hm; [|exact Hr]. simpl in Hm. lia. }
  destruct (get_level page =? 0)%Z eqn:Hlevel; [by apply built_add_root|].
  destruct (find _ _) as [parent|] eqn:Hfind; [|by apply built_add_root].
  apply find_some in Hfind as [Hin Hparent].
  apply list_elem_of_In in Hin. rewrite elem_of_reverse in Hin.
  apply bool_decide_eq_true in Hparent.
  assert (parent ≠ k) as Hne.
  { intros ->. unfold ref_level in Hparent. rewrite Hk in Hparent. cbn in Hparent.
    injection Hparent as Hparent. lia. }
  assert (parent < k)%nat as Hlt.
  { apply dict_set_values in Hin as [->|Hin]; [done|].
    destruct Hb as (_ & _ & _ & Hold). eapply Forall_forall in Hold; [|exact Hin]. done. }
  destruct Hb as (Hrefs & Hpages & Hwp & _). unfold built. cbn [root_pages page_map].
  assert (NoDup (flat_map obj_refs (root_pages b))) as Hnd.
  { rewrite Hrefs. apply NoDup_seq. }
  assert (parent ∈ flat_map obj_refs (root_pages b)) as Hpin.
  { rewrite Hrefs. apply elem_of_seq. lia. }
  split_and!; [| | |done].
  - unfold obj_refs at 1. rewrite append_child_walk_list by done.
    cbn [walk flat_map]. fold obj_refs. by rewrite Hrefs, seq_S.
  - rewrite append_child_walk_list by done.
    cbn [walk flat_map]. by rewrite Hpages, (take_S_r _ _ _ Hk).
  - apply Forall_fmap. eapply Forall_impl; [exact Hwp|]. intros o Ho.
    apply well_placed_append; [done| |done]. apply well_placed_PObj.
    split; [done|constructor].
Qed.

Lemma build_from_built todo :
  ∀ k b, built k b → drop k all_pages = todo →
  built (k + length todo) (build_from all_pages k todo b).
Proof.
  induction todo as [|page todo IH]; intros k b Hb Hdrop.
  - by rewrite Nat.add_0_r.
  - assert (all_pages !! k = Some page) as Hk.
    { by rewrite <-(Nat.add_0_r k), <-lookup_drop, Hdrop. }
    cbn [build_from length]. rewrite Nat.add_succ_r, <-Nat.add_succ_l. apply IH.
    + by apply build_step_built.
    + rewrite (drop_S _ _ _ Hk) in Hdrop. by injection Hdrop.
Qed.

Lemma build_built : built (length all_pages) (build all_pages).
Proof.
  apply (build_from_built all_pages 0%nat); [|done].
  unfold built. cbn. split_and!; [done|by rewrite take_0|constructor|constructor].
Qed.

End Builder.

Section Reference.

Lemma dict_set_fresh {K V} `{EqDecision K} (k : K) (v : V) (d : list (K * V)) :
  k ∉ d.*1 → Dict.set k v d = d ++ [(k, v)].
Proof.
  induction d as [|[k' v'] d IH]; [done|]. cbn [fmap list_fmap fst Dict.set].
  intros [Hk Hd]%not_elem_of_cons. rewrite decide_False by done. cbn [app].
  f_equal. by apply IH.
Qed.

Lemma dict_set_keys {K V} `{EqDecision K} (k : K) (v : V) (d : list (K * V)) :
  k ∉ d.*1 → (Dict.set k v d).*1 = d.*1 ++ [k].
Proof. intros H. by rewrite dict_set_fresh, fmap_app. Qed.

(** Scanning in reverse finds the last one. *)
Lemma find_reverse_last {A} (P : A → Prop) `{∀ x, Decision (P x)} (l : list A) :
  find (λ x, bool_decide (P x)) (reverse l) = last (filter P l).
Proof.
  induction l as [|x l IH] using rev_ind; [done|].
  rewrite reverse_app, filter_app, reverse_singleton. cbn [app find].
  rewrite filter_cons, filter_nil. case_bool_decide.
  - by rewrite decide_True, last_snoc by done.
  - by rewrite decide_False, app_nil_r by done.
Qed.

Variable all_pages : list Page.
Hypothesis ids_distinct : NoDup (map page_id all_pages).

(** The builder and the reference algorithm after [k] records. *)
Lemma build_step_reference k b st page :
  all_pages !! k = Some page →
  Dict.values (page_map b) = seen st → (page_map b).*1 = map page_id (take k all_pages) →
  root_pages b = ref_roots st →
  let b' := build_step all_pages b k page in
  let st' := reference_step all_pages st k page in
  Dict.values (page_map b') = seen st' ∧
  (page_map b').*1 = map page_id (take (S k) all_pages) ∧
  root_pages b' = ref_roots st'.
Proof.
  intros Hk Hseen Hkeys Hroots.
  assert (page_id page ∉ (page_map b).*1) as Hfresh.
  { rewrite Hkeys. rewrite <-(take_drop k all_pages), (drop_S _ _ _ Hk) in ids_distinct.
    rewrite map_app in ids_distinct. apply NoDup_app in ids_distinct as (_ & Hdisj & _).
    intros Hin. apply (Hdisj _ Hin). cbn [map]. apply elem_of_cons. by left. }
  assert (Dict.values (Dict.set (page_id page) k (page_map b)) = seen st ++ [k]) as Hv.
  { unfold Dict.values in *. by rewrite dict_set_fresh, fmap_app, Hseen. }
  assert ((Dict.set (page_id page) k (page_map b)).*1 = map page_id (take (S k) all_pages))
    as Hks.
  { by rewrite dict_set_keys, Hkeys, (take_S_r _ _ _ Hk), map_app. }
  unfold build_step, reference_step, most_recent_at.
  destruct (get_level page =? 0)%Z; [by rewrite Hroots|].
  rewrite Hv, find_reverse_last.
  destruct (last _); cbn [page_map root_pages seen ref_roots]; by rewrite Hroots.
Qed.

Lemma build_from_reference todo :
  ∀ k b st, drop k all_pages = todo →
  Dict.values (page_map b) = seen st → (page_map b).*1 = map page_id (take k all_pages) →
  root_pages b = ref_roots st →
  root_pages (build_from all_pages k todo b)
    = ref_roots (reference_from all_pages k todo st).
Proof.
  induction todo as [|page todo IH]; intros k b st Hdrop Hseen Hkeys Hroots; [done|].
  assert (all_pages !! k = Some page) as Hk.
  { by rewrite <-(Nat.add_0_r k), <-lookup_drop, Hdrop. }
  destruct (build_step_reference k b st page Hk Hseen Hkeys Hroots) as (? & ? & ?).
  cbn [build_from reference_from]. apply IH; [|done..].
  rewrite (drop_S _ _ _ Hk) in Hdrop. by injection Hdrop.
Qed.

End Reference.

Lemma build_tree_reference fetched :
  NoDup (map page_id fetched) → build_tree fetched = reference_tree fetched.
Proof.
  intros Hids. unfold build_tree, reference_tree, build. f_equal.
  apply build_from_reference; [|done..].
  by rewrite sort_pages_perm.
Qed.

(** X23: for a listing whose ids are pairwise distinct the builder gives
    what the reference algorithm gives.  The records are sorted stably by
    (order, level) and walked in that order; a record at level 0 becomes a
    root; a record at level L > 0 becomes the last child of the most
    recently processed record at level L - 1, or a root if there is none.
    The two inputs of the specification give the hierarchies it names. *)
Theorem build_tree_is_reference (fetched : list Page)
    (ids_distinct : NoDup (map page_id fetched)) :
  build_tree fetched = reference_tree fetched ∧
  (sort_pages fetched ≡ₚ fetched ∧
   StronglySorted (λ p q, key_le (sort_key p) (sort_key q)) (sort_pages fetched) ∧
   ∀ k, filter (λ p, sort_key p = k) (sort_pages fetched)
        = filter (λ p, sort_key p = k) fetched) ∧
  build_tree [record 1 0 0; record 2 1 1; record 3 1 2; record 4 0 3]
    = [PNode (record 1 0 0) [PNode (record 2 1 1) []; PNode (record 3 1 2) []];
       PNode (record 4 0 3) []] ∧
  build_tree [record 1 2 0] = [PNode (record 1 2 0) []].
Proof.
  split_and!.
  - by apply build_tree_reference.
  - apply sort_pages_perm.
  - apply sort_pages_sorted.
  - intros k. apply sort_pages_stable.
  - by vm_compute.
  - by vm_compute.
Qed.

Lemma build_tree_is_reference_witness :
  NoDup (map page_id [record 3 1 2; record 1 0 0; record 2 1 1]) ∧
  reference_tree [record 3 1 2; record 1 0 0; record 2 1 1]
    = [PNode (record 1 0 0) [PNode (record 2 1 1) []; PNode (record 3 1 2) []]].
Proof.
  assert (Hids : NoDup (map page_id [record 3 1 2; record 1 0 0; record 2 1 1])).
  { apply (bool_decide_unpack _). by vm_compute. }
  split; [exact Hids|].
  rewrite <-(proj1 (build_tree_is_reference _ Hids)). by vm_compute.
Defined.

(** C2: the builder does not compute the reference algorithm when the
    listing carries an id twice.  The comment in the code gives the parent
    as the last page processed with a level one less than the current one;
    [page_map] is keyed by id, so the record that repeats the id of record
    1 takes the place of record 1 in it, and the scan in reverse insertion
    order meets record 2 before it.  The record at level 1 becomes a child
    of record 2, not of the record processed last at level 0. *)
Lemma same_id_breaks_reference :
  let again := mkPage (str_of_nat 1) (py "Page 1 again") (Some 0%Z) (Some 2%Z) in
  let fetched := [record 1 0 0; record 2 0 1; again; record 3 1 3] in
  build_tree fetched
    = [PNode (record 1 0 0) []; PNode (record 2 0 1) [PNode (record 3 1 3) []];
       PNode again []] ∧
  reference_tree fetched
    = [PNode (record 1 0 0) []; PNode (record 2 0 1) [];
       PNode again [PNode (record 3 1 3) []]] ∧
  build_tree fetched ≠ reference_tree fetched.
Proof. intros again fetched. split_and!; [by vm_compute..|vm_compute; discriminate]. Qed.

(** C10: every record of the flat listing is in the returned forest
    exactly once, as a root or as a child of one record; each one stands
    at the position it has in the sorted listing, and the parent of a
    record is a record processed strictly before it. *)
Theorem every_record_once_in_forest (fetched : list Page) :
  flat_map flatten (build_tree fetched) ≡ₚ fetched ∧
  let all_pages := sort_pages fetched in
  let objs := root_pages (build all_pages) in
  build_tree fetched = map to_node objs ∧
  flat_map obj_refs objs ≡ₚ seq 0 (length fetched) ∧
  NoDup (flat_map obj_refs objs) ∧
  Forall (well_placed all_pages) objs.
Proof.
  destruct (build_built (sort_pages fetched)) as (Hrefs & Hpages & Hwp & _).
  assert (length (sort_pages fetched) = length fetched) as Hlen.
  { apply Permutation_length, sort_pages_perm. }
  rewrite Hlen in Hrefs. split.
  - unfold build_tree. rewrite flat_map_concat_map, map_map, <-flat_map_concat_map.
    erewrite flat_map_ext; [|intros o; apply flatten_to_node].
    by rewrite Hpages, firstn_all, sort_pages_perm.
  - intros all_pages objs. split_and!; [done..| |done].
    subst objs all_pages. rewrite Hrefs. apply NoDup_seq.
Qed.

(** ** The image loop of a page *)

Section Tag_lists.

Local Abbreviation tag := (nat * pystr * list (pystr * pystr))%type.

(** The element of identity [i] with the attributes [attrs']. *)
Local Abbreviation with_attrs i attrs' :=
  (λ t : tag, if bool_decide (t.1.1 = i) then (t.1.1, t.1.2, attrs') else t).

Lemma find_all_of_tags name n :
  find_all name n =
  omap (λ t : tag, if bool_decide (t.1.2 = name) then Some t.1.1 else None) (tags n).
Proof.
  induction n as [t|i nm attrs cs IH] using Node_forall_ind; [done|].
  cbn [find_all tags omap list_omap fst snd].
  assert (Hkids : flat_map (find_all name) cs =
                  omap (λ t : tag, if bool_decide (t.1.2 = name) then Some t.1.1 else None)
                       (flat_map tags cs)).
  { induction IH as [|c cs Hc _ IHcs]; [done|]. cbn [flat_map].
    by rewrite omap_app, Hc, IHcs. }
  rewrite Hkids. by case_bool_decide.
Qed.

Lemma find_tag_Some i n : i ∈ oids n → is_Some (find_tag i n).
Proof.
  induction n as [t|j nm attrs cs IH] using Node_forall_ind.
  - by intros ?%elem_of_nil.
  - cbn [oids]. rewrite find_tag_Tag. case_bool_decide; [by eauto|].
    intros [?|Hin]%elem_of_cons; [done|].
    induction IH as [|c cs Hc _ IHcs]; [by apply elem_of_nil in Hin|].
    cbn [flat_map foldr] in *. destruct (find_tag i c) eqn:Hfind; [by eauto|].
    apply elem_of_app in Hin as [Hin|Hin]; [|by apply IHcs].
    apply Hc in Hin as [? ?]. congruence.
Qed.

Lemma find_tag_spec i n t :
  find_tag i n = Some t → ∃ nm attrs cs, t = Tag i nm attrs cs ∧ (i, nm, attrs) ∈ tags n.
Proof.
  induction n as [s|j nm attrs cs IH] using Node_forall_ind; [done|].
  rewrite find_tag_Tag. case_bool_decide as Hj.
  - intros [= <-]. subst j. exists nm, attrs, cs. split; [done|].
    cbn [tags]. apply elem_of_cons. by left.
  - intros Hfind.
    assert (Hkids : ∃ nm' attrs' cs', t = Tag i nm' attrs' cs' ∧
                                      (i, nm', attrs') ∈ flat_map tags cs).
    { induction IH as [|c cs Hc _ IHcs]; [done|]. cbn [foldr flat_map] in *.
      destruct (find_tag i c) as [t'|] eqn:Hc'.
      - injection Hfind as ->. destruct (Hc eq_refl) as (nm' & a' & cs' & -> & Hin).
        exists nm', a', cs'. split; [done|]. apply elem_of_app. by left.
      - destruct (IHcs Hfind) as (nm' & a' & cs' & -> & Hin).
        exists nm', a', cs'. split; [done|]. apply elem_of_app. by right. }
    destruct Hkids as (nm' & a' & cs' & -> & Hin). exists nm', a', cs'. split; [done|].
    cbn [tags]. apply elem_of_cons. by right.
Qed.

(** In a document of distinct objects, an element listed by [tags] is the
    one its identity finds. *)
Lemma find_tag_in_tags n i nm attrs :
  NoDup (oids n) → (i, nm, attrs) ∈ tags n →
  ∃ cs, find_tag i n = Some (Tag i nm attrs cs).
Proof.
  intros Hnd Hin. destruct (find_tag_Some i n) as [t Ht]; [by eapply tags_oid|].
  destruct (find_tag_spec i n t Ht) as (nm' & a' & cs & -> & Hin').
  destruct (tags_unique n i nm attrs nm' a' Hnd Hin Hin') as [<- <-]. by exists cs.
Qed.

Lemma with_attrs_id i attrs' (l : list tag) :
  i ∉ l.*1.*1 → map (with_attrs i attrs') l = l.
Proof.
  induction l as [|[[j m] a] l IH]; [done|]. cbn [fmap list_fmap fst map].
  intros [Hj Hl]%not_elem_of_cons. rewrite bool_decide_eq_false_2 by done.
  f_equal. by apply IH.
Qed.

Lemma oids_tags_list (cs : list Node) : flat_map oids cs = (flat_map tags cs).*1.*1.
Proof.
  induction cs as [|c cs IH]; [done|]. cbn [flat_map].
  by rewrite !fmap_app, <- oids_tags, IH.
Qed.

(** Setting the attributes of an element changes its entry and no other. *)
Lemma tags_modify_attrs i attrs' n :
  NoDup (oids n) →
  tags (modify i (set_attrs attrs') n) = map (with_attrs i attrs') (tags n).
Proof.
  induction n as [t|j nm attrs cs IH] using Node_forall_ind; intros Hnd; [done|].
  cbn [oids] in Hnd. apply NoDup_cons in Hnd as [Hj Hcs].
  cbn [modify tags map fst snd]. case_bool_decide as Hji.
  - subst j. cbn [set_attrs tags]. f_equal. symmetry. apply with_attrs_id.
    by rewrite <- oids_tags_list.
  - cbn [tags]. f_equal. clear Hj Hji.
    induction IH as [|c cs Hc _ IHcs]; [done|]. cbn [map flat_map] in *.
    apply NoDup_app in Hcs as (Hc' & _ & Hcs'). by rewrite map_app, Hc, IHcs.
Qed.

Lemma oids_modify_attrs i attrs' n :
  NoDup (oids n) → oids (modify i (set_attrs attrs') n) = oids n.
Proof.
  intros Hnd. rewrite !oids_tags, tags_modify_attrs by done.
  generalize (tags n). intros l. induction l as [|[[j m] a] l IH]; [done|].
  cbn [map fmap list_fmap fst]. f_equal; [by case_bool_decide|exact IH].
Qed.

(** In a list of elements of distinct identities, the new attributes land
    on the one entry of that identity. *)
Lemma with_attrs_middle i nm attrs attrs' (ts1 ts2 : list tag) :
  NoDup (ts1 ++ (i, nm, attrs) :: ts2).*1.*1 →
  map (with_attrs i attrs') (ts1 ++ (i, nm, attrs) :: ts2) = ts1 ++ (i, nm, attrs') :: ts2.
Proof.
  intros Hnd. rewrite !fmap_app in Hnd. cbn [fmap list_fmap fst] in Hnd.
  apply NoDup_app in Hnd as (_ & H1 & [H2 _]%NoDup_cons).
  rewrite map_app. cbn [map fst snd]. rewrite bool_decide_eq_true_2 by done.
  rewrite !with_attrs_id; [done|done|].
  intros Hin. apply (H1 i Hin). apply elem_of_cons. by left.
Qed.

End Tag_lists.

Section Image_loop.

Variable lower : pystr → pystr.
Variable md5_hexdigest : pystr → result pystr.
Variable url_path_ext : pystr → result pystr.
Variable http_head : pystr → result pystr.
Variable http_get_save : pystr → pystr → result unit.
Variable access_token : option pystr.
Variable page_title : pystr.
Variable is_child_page : bool.

Local Abbreviation tag := (nat * pystr * list (pystr * pystr))%type.
Local Abbreviation step :=
  (image_step lower md5_hexdigest url_path_ext http_head http_get_save access_token
     page_title is_child_page).
Local Abbreviation fetch_image :=
  (download_image lower md5_hexdigest url_path_ext http_head http_get_save).
Local Abbreviation fetch_images :=
  (download_images lower md5_hexdigest url_path_ext http_head http_get_save).
Local Abbreviation imgs :=
  (omap (λ t : tag, if bool_decide (t.1.2 = py "img") then Some t.1.1 else None)).
Local Abbreviation reqs :=
  (omap (λ t : tag, image_request access_token t.1.2 t.2)).

Lemma image_request_other nm attrs :
  nm ≠ py "img" → image_request access_token nm attrs = None.
Proof. intros Hnm. unfold image_request. by rewrite bool_decide_eq_false_2. Qed.

Lemma image_request_img attrs :
  image_request access_token (py "img") attrs =
  match image_url_of attrs with
  | Some ((_ :: _) as img_url) => Some (img_url, image_headers access_token img_url)
  | _ => None
  end.
Proof. unfold image_request. by rewrite bool_decide_eq_true_2. Qed.

(** The loop, from the point where the elements [ts1] are behind it and
    the elements [ts2] are still to come. *)
Lemma image_loop (ts2 : list tag) :
  ∀ (ts1 : list tag) (cur : Node) (c : nat),
    tags cur = ts1 ++ ts2 → NoDup (oids cur) →
    tags (foldl step (cur, c) (imgs ts2)).1 =
      ts1 ++ placed access_token is_child_page ts2 (fetch_images (reqs ts2) page_title c) ∧
    (Forall (λ call, encodable md5_hexdigest call.1) (reqs ts2) →
     (foldl step (cur, c) (imgs ts2)).2 = (c + length (reqs ts2))%nat).
Proof.
  induction ts2 as [|[[i nm] attrs] ts2 IH]; intros ts1 cur c Htags Hnd.
  { cbn. by rewrite Htags. }
  assert (Hnext : ∀ attrs' cur' c',
    tags cur' = ts1 ++ (i, nm, attrs') :: ts2 → NoDup (oids cur') →
    tags (foldl step (cur', c') (imgs ts2)).1 =
      ts1 ++ (i, nm, attrs') ::
        placed access_token is_child_page ts2 (fetch_images (reqs ts2) page_title c') ∧
    (Forall (λ call, encodable md5_hexdigest call.1) (reqs ts2) →
     (foldl step (cur', c') (imgs ts2)).2 = (c' + length (reqs ts2))%nat)).
  { intros attrs' cur' c' Htags' Hnd'.
    destruct (IH (ts1 ++ [(i, nm, attrs')]) cur' c') as [H1 H2]; [|done|].
    - by rewrite <- app_assoc.
    - split; [|done]. by rewrite H1, <- app_assoc. }
  destruct (decide (nm = py "img")) as [->|Hnm].
  2: { cbn [omap list_omap fst snd placed].
       rewrite (image_request_other nm attrs Hnm), bool_decide_eq_false_2 by done.
       by apply Hnext. }
  cbn [omap list_omap fst snd placed foldl]. rewrite bool_decide_eq_true_2 by done.
  cbn [foldl]. rewrite image_request_img.
  destruct (find_tag_in_tags cur i (py "img") attrs Hnd) as [cs Hfind].
  { rewrite Htags. apply elem_of_app. right. apply elem_of_cons. by left. }
  assert (Hstep : step (cur, c) i =
    match image_url_of attrs with
    | Some ((_ :: _) as img_url) =>
        let '(local_path, c1) :=
          fetch_image img_url page_title (image_headers access_token img_url) c in
        match local_path with
        | Some local_path =>
            (modify i (set_attrs
                         (resolved_attrs
                            (if is_child_page then py "../" ++ local_path else local_path)
                            attrs)) cur, c1)
        | None => (cur, c1)
        end
    | _ => (cur, c)
    end).
  { unfold image_step. by rewrite Hfind. }
  rewrite Hstep. clear Hstep.
  destruct (image_url_of attrs) as [[|u0 u]|]; [by apply Hnext|  |by apply Hnext].
  cbn [download_images omap list_omap length].
  destruct (fetch_image (u0 :: u) page_title
              (image_headers access_token (u0 :: u)) c) as [r c1] eqn:Hcall.
  assert (Hcount : ∀ cur',
    (Forall (λ call, encodable md5_hexdigest call.1) (reqs ts2) →
     (foldl step (cur', c1) (imgs ts2)).2 = (c1 + length (reqs ts2))%nat) →
    Forall (λ call, encodable md5_hexdigest call.1)
      ((u0 :: u, image_headers access_token (u0 :: u)) :: reqs ts2) →
    (foldl step (cur', c1) (imgs ts2)).2 = (c + S (length (reqs ts2)))%nat).
  { intros cur' H [Hu Hrest]%Forall_cons. rewrite H by done.
    pose proof (download_image_encodable lower md5_hexdigest url_path_ext http_head
                  http_get_save (u0 :: u) page_title
                  (image_headers access_token (u0 :: u)) c Hu) as Hc1.
    rewrite Hcall in Hc1. cbn [snd] in Hc1. lia. }
  destruct r as [local_path|].
  - set (attrs' := resolved_attrs _ attrs).
    destruct (Hnext attrs' (modify i (set_attrs attrs') cur) c1) as [H1 H2].
    + rewrite tags_modify_attrs, Htags by done. apply with_attrs_middle.
      by rewrite <- Htags, <- oids_tags.
    + by rewrite oids_modify_attrs.
    + split; [exact H1|]. by apply Hcount.
  - destruct (Hnext attrs cur c1) as [H1 H2]; [done..|].
    split; [exact H1|]. by apply Hcount.
Qed.

(** The loop over the images of a document of distinct objects. *)
Lemma resolve_images_placed (soup : Node) (c : nat) :
  NoDup (oids soup) →
  tags (resolve_images lower md5_hexdigest url_path_ext http_head http_get_save access_token
          page_title is_child_page soup c).1 =
    placed access_token is_child_page (tags soup)
      (fetch_images (image_requests access_token soup) page_title c) ∧
  (Forall (λ call, encodable md5_hexdigest call.1) (image_requests access_token soup) →
   (resolve_images lower md5_hexdigest url_path_ext http_head http_get_save access_token
      page_title is_child_page soup c).2 =
   (c + length (image_requests access_token soup))%nat).
Proof.
  intros Hnd. unfold resolve_images. rewrite find_all_of_tags.
  exact (image_loop (tags soup) [] soup c eq_refl Hnd).
Qed.

End Image_loop.

Section Before_the_images.

Variable access_token : option pystr.

Local Abbreviation tag := (nat * pystr * list (pystr * pystr))%type.
Local Abbreviation requests := (image_requests access_token).

Lemma get_set_other (k k' v : pystr) (d : list (pystr * pystr)) :
  k ≠ k' → Dict.get k (Dict.set k' v d) = Dict.get k d.
Proof.
  intros Hk. unfold Dict.get. induction d as [|[k0 v0] d IH]; cbn [Dict.set find].
  - cbn. by rewrite bool_decide_eq_false_2.
  - destruct (decide (k0 = k')) as [->|Hne]; cbn [find fst].
    + by rewrite !bool_decide_eq_false_2.
    + case_bool_decide; [done|]. exact IH.
Qed.

Lemma image_request_set_alt nm v attrs :
  image_request access_token nm (Dict.set (py "alt") v attrs) =
  image_request access_token nm attrs.
Proof.
  unfold image_request, image_url_of, attr.
  rewrite !get_set_other; [done|by vm_compute; discriminate..].
Qed.

Lemma omap_map_same {A B : Type} (f : A → option B) (g : A → A) (l : list A) :
  Forall (λ x, f (g x) = f x) l → omap f (map g l) = omap f l.
Proof.
  induction 1 as [|x l Hx _ IH]; [done|]. cbn [map omap list_omap]. by rewrite Hx, IH.
Qed.

(** The first pass changes [alt] attributes only. *)
Lemma clean_alt_step_keeps soup i :
  NoDup (oids soup) →
  oids (clean_alt_step soup i) = oids soup ∧
  requests (clean_alt_step soup i) = requests soup.
Proof.
  intros Hnd. unfold clean_alt_step.
  destruct (find_tag i soup) as [t|] eqn:Hfind; [|done].
  destruct (find_tag_spec i soup t Hfind) as (nm & attrs & cs & -> & Hin).
  destruct (Str.startswith _ _); [|done].
  split; [by apply oids_modify_attrs|].
  unfold image_requests. rewrite tags_modify_attrs by done.
  apply omap_map_same, Forall_forall. intros [[j m] a] Hj. cbn [fst snd].
  case_bool_decide as Hji; [|done]. subst j. cbn [fst snd].
  destruct (tags_unique soup i nm attrs m a Hnd Hin Hj) as [<- <-].
  apply image_request_set_alt.
Qed.

Lemma clean_alt_loop_keeps imgs :
  ∀ soup, NoDup (oids soup) →
    oids (foldl clean_alt_step soup imgs) = oids soup ∧
    requests (foldl clean_alt_step soup imgs) = requests soup.
Proof.
  induction imgs as [|i imgs IH]; intros soup Hnd; [done|].
  cbn [foldl]. destruct (clean_alt_step_keeps soup i Hnd) as [Ho Hr].
  destruct (IH (clean_alt_step soup i)) as [Ho' Hr']; [by rewrite Ho|].
  split; congruence.
Qed.

Lemma clean_alt_text_keeps soup :
  NoDup (oids soup) →
  oids (_clean_machine_generated_alt_text soup) = oids soup ∧
  requests (_clean_machine_generated_alt_text soup) = requests soup.
Proof. apply clean_alt_loop_keeps. Qed.

Lemma map_modify_id i f cs : i ∉ flat_map oids cs → map (modify i f) cs = cs.
Proof.
  induction cs as [|c cs IH]; [done|]. cbn [flat_map map].
  intros [Hc Hcs]%not_elem_of_app. by rewrite modify_id, IH.
Qed.

(** Wrapping the contents of an element adds the new [b] and nothing
    else. *)
Lemma oids_modify_wrap s b n :
  NoDup (oids n) → s ∈ oids n →
  oids (modify s (wrap_contents_in_b b) n) ≡ₚ b :: oids n.
Proof.
  induction n as [t|j nm attrs cs IH] using Node_forall_ind; intros Hnd Hs.
  { by apply elem_of_nil in Hs. }
  cbn [oids] in *. apply NoDup_cons in Hnd as [Hj Hcs]. cbn [modify].
  case_bool_decide as Hjs.
  - cbn [wrap_contents_in_b oids flat_map]. rewrite app_nil_r. apply perm_swap.
  - apply elem_of_cons in Hs as [?|Hs]; [congruence|]. cbn [oids].
    etrans; [|apply perm_swap]. apply Permutation_skip. clear Hj Hjs.
    induction IH as [|c cs Hc _ IHcs]; [by apply elem_of_nil in Hs|].
    cbn [map flat_map] in *. apply NoDup_app in Hcs as (Hc' & Hdisj & Hcs').
    apply elem_of_app in Hs as [Hs|Hs].
    + rewrite map_modify_id by (by apply Hdisj). by rewrite Hc.
    + rewrite (modify_id s _ c) by (intros Hin; by apply (Hdisj s Hin)).
      rewrite IHcs by done. by rewrite Permutation_middle.
Qed.

Lemma bold_step_NoDup soup s : NoDup (oids soup) → NoDup (oids (bold_step soup s)).
Proof.
  intros Hnd. unfold bold_step.
  destruct (find_tag s soup) as [t|] eqn:Hfind; [|done].
  destruct (find_tag_spec s soup t Hfind) as (nm & attrs & cs & -> & Hin).
  destruct (is_bold_style _); [|done].
  rewrite oids_modify_wrap; [|done|by eapply tags_oid].
  apply NoDup_cons. split; [|done]. unfold fresh_oid. intros Hf.
  apply max_list_elem_of_le in Hf. lia.
Qed.

Lemma convert_bold_spans_NoDup soup :
  NoDup (oids soup) → NoDup (oids (_convert_bold_spans soup)).
Proof.
  unfold _convert_bold_spans. generalize (find_all (py "span") soup). intros spans.
  revert soup. induction spans as [|s spans IH]; intros soup Hnd; [done|].
  cbn [foldl]. by apply IH, bold_step_NoDup.
Qed.

(** The second pass adds [b] elements and changes no attribute. *)
Lemma wrapped_where_requests P F orig :
  ∀ cur, wrapped_where P F orig cur → requests cur = requests orig.
Proof.
  unfold image_requests.
  induction orig as [t|i nm attrs cs IH] using Node_forall_ind; intros cur H.
  - inversion H; by subst.
  - assert (Hkids : ∀ cs', Forall2 (wrapped_where P F) cs cs' →
      omap (λ t : tag, image_request access_token t.1.2 t.2) (flat_map tags cs') =
      omap (λ t : tag, image_request access_token t.1.2 t.2) (flat_map tags cs)).
    { intros cs' H2. clear H. induction H2 as [|c c' cs cs' Hc _ IH2]; [done|].
      apply Forall_cons in IH as [IHc IHcs]. cbn [flat_map].
      by rewrite !omap_app, IHc, IH2. }
    inversion H as [|? ? ? ? cs' b0 Hbd Hproc Hfresh Hcs|? ? ? ? cs' Hkeep Hcs]; subst.
    + cbn [tags flat_map]. rewrite app_nil_r. cbn [omap list_omap fst snd].
      rewrite (image_request_other access_token (py "b") []) by (vm_compute; discriminate).
      by rewrite (Hkids cs' Hcs).
    + cbn [tags omap list_omap fst snd]. by rewrite (Hkids cs' Hcs).
Qed.

End Before_the_images.

Section Page_counter.

Variable lower : pystr → pystr.
Variable md5_hexdigest : pystr → result pystr.
Variable url_path_ext : pystr → result pystr.
Variable http_head : pystr → result pystr.
Variable http_get_save : pystr → pystr → result unit.
Variable access_token : option pystr.
Variable parse_html : pystr → result Node.
Variable h2t_handle : Node → result pystr.
Variable get_page_content : pystr → result pystr.
Variable write_error : path → option pystr.
Variable mkdir_error : path → option pystr.

Local Abbreviation page_task :=
  (process_page lower md5_hexdigest url_path_ext http_head http_get_save access_token
     parse_html h2t_handle get_page_content write_error mkdir_error).
Local Abbreviation fetch_images :=
  (download_images lower md5_hexdigest url_path_ext http_head http_get_save).

(** The document the image loop of a page works on has the identities
    distinct and the calls of the parsed document. *)
Lemma prepared_document soup :
  NoDup (oids soup) →
  NoDup (oids (_convert_bold_spans (_clean_machine_generated_alt_text soup))) ∧
  image_requests access_token (_convert_bold_spans (_clean_machine_generated_alt_text soup))
    = image_requests access_token soup.
Proof.
  intros Hnd. destruct (clean_alt_text_keeps access_token soup Hnd) as [Ho Hr].
  assert (Hnd' : NoDup (oids (_clean_machine_generated_alt_text soup))) by by rewrite Ho.
  split; [by apply convert_bold_spans_NoDup|].
  rewrite <- Hr. eapply wrapped_where_requests. by apply convert_bold_spans_wrapped.
Qed.

(** A page starts its images from 0, whatever the counter was. *)
Lemma process_page_images page output_path parent_dir c html soup :
  mkdir_all mkdir_error (removelast (mkdirs (plan_page page output_path parent_dir)))
    = Ok tt →
  get_page_content (page_id (node_page page)) = Ok html →
  parse_html html = Ok soup →
  NoDup (oids soup) →
  Forall (λ call, encodable md5_hexdigest call.1) (image_requests access_token soup) →
  (page_task page output_path parent_dir c).2 = length (image_requests access_token soup) ∧
  ∃ resolved,
    tags resolved =
      placed access_token (is_child_page (plan_page page output_path parent_dir))
        (tags (_convert_bold_spans (_clean_machine_generated_alt_text soup)))
        (fetch_images (image_requests access_token soup) (page_title (node_page page)) 0) ∧
    ∀ markdown,
      h2t_handle (simplify_links resolved) = Ok markdown →
      mkdir_error (path_parent (markdown_path (plan_page page output_path parent_dir)))
        = None →
      write_error (markdown_path (plan_page page output_path parent_dir)) = None →
      (page_task page output_path parent_dir c).1 =
        Ok (markdown_path (plan_page page output_path parent_dir),
            py "# " ++ page_title (node_page page) ++ [10; 10] ++ clean_markdown markdown).
Proof.
  intros Hmkdir Hcontent Hparse Hnd Hcalls.
  destruct (prepared_document soup Hnd) as [Hnd' Hreqs].
  unfold process_page. rewrite Hmkdir, Hcontent.
  unfold convert_page_to_markdown. rewrite Hparse.
  set (title := page_title (node_page page)).
  set (plan := plan_page page output_path parent_dir).
  set (prepared := _convert_bold_spans (_clean_machine_generated_alt_text soup)) in *.
  destruct (resolve_images_placed lower md5_hexdigest url_path_ext http_head http_get_save
              access_token title (is_child_page plan) prepared 0 Hnd') as [Htags Hcount].
  rewrite Hreqs in Htags, Hcount. specialize (Hcount Hcalls).
  destruct (resolve_images _ _ _ _ _ _ _ _ _ _) as [resolved n]. cbn [fst snd] in *.
  split; [done|]. exists resolved. split; [done|].
  intros markdown Hrender Hparent Hwrite. rewrite Hrender. cbn [bind mkdir_all].
  by rewrite Hparent, Hwrite.
Qed.

End Page_counter.

(** C7, as the code has it.  [download_image] adds one to the counter
    BEFORE it builds the name, once the URL is hashed and whether or not
    the download then succeeds; a downloaded image is named [{sanitized
    title}_image_{first 8 characters of the MD5 hex digest of the
    URL}_{counter}{extension}] with the incremented counter.  The loop over
    the images of a document calls it for the [img] elements that have a
    URL, in document order, and puts what each call returns into its
    element.  [process_page] sets the counter to 0 before it fetches the
    page, whatever the counter was: when a page is processed with nothing
    else touching the counter meanwhile, its first image carries 1, the
    second 2, and so on, the counter ends at the number of its images, and
    the file written is rendered from the document with these names. *)
Theorem image_name_and_counter
    (lower : pystr → pystr) (md5_hexdigest : pystr → result pystr)
    (url_path_ext http_head : pystr → result pystr)
    (http_get_save : pystr → pystr → result unit)
    (md5_length : ∀ url digest, md5_hexdigest url = Ok digest → length digest = 32%nat) :
  (∀ image_url page_title headers image_counter r c,
     download_image lower md5_hexdigest url_path_ext http_head http_get_save
       image_url page_title headers image_counter = (r, c) →
     (∀ digest, md5_hexdigest image_url = Ok digest → c = S image_counter) ∧
     (∀ msg, md5_hexdigest image_url = Raise msg → r = None ∧ c = image_counter) ∧
     ∀ local_path, r = Some local_path →
       ∃ digest ext,
         md5_hexdigest image_url = Ok digest ∧
         image_ext url_path_ext http_head image_url headers = Ok ext ∧
         length (take 8 digest) = 8%nat ∧
         local_path = py "images/" ++ sanitize_image_filename lower page_title ++
                      py "_image_" ++ take 8 digest ++ py "_" ++
                      str_of_nat (S image_counter) ++ ext) ∧
  (∀ calls page_title c i p,
     Forall (λ call, encodable md5_hexdigest call.1) calls →
     download_images lower md5_hexdigest url_path_ext http_head http_get_save
       calls page_title c !! i = Some (Some p) →
     ∃ image_url headers digest e,
       calls !! i = Some (image_url, headers) ∧
       md5_hexdigest image_url = Ok digest ∧
       p = py "images/" ++
           local_filename (sanitize_image_filename lower page_title) (take 8 digest)
             (S (c + i)) (chr "." :: e)) ∧
  (∀ access_token page_title is_child_page soup c,
     NoDup (oids soup) →
     tags (resolve_images lower md5_hexdigest url_path_ext http_head http_get_save
             access_token page_title is_child_page soup c).1 =
       placed access_token is_child_page (tags soup)
         (download_images lower md5_hexdigest url_path_ext http_head http_get_save
            (image_requests access_token soup) page_title c) ∧
     (Forall (λ call, encodable md5_hexdigest call.1) (image_requests access_token soup) →
      (resolve_images lower md5_hexdigest url_path_ext http_head http_get_save
         access_token page_title is_child_page soup c).2 =
      (c + length (image_requests access_token soup))%nat)) ∧
  (∀ access_token parse_html h2t_handle get_page_content write_error mkdir_error
     page output_path parent_dir image_counter html soup,
     mkdir_all mkdir_error (removelast (mkdirs (plan_page page output_path parent_dir)))
       = Ok tt →
     get_page_content (page_id (node_page page)) = Ok html →
     parse_html html = Ok soup →
     NoDup (oids soup) →
     Forall (λ call, encodable md5_hexdigest call.1) (image_requests access_token soup) →
     (process_page lower md5_hexdigest url_path_ext http_head http_get_save access_token
        parse_html h2t_handle get_page_content write_error mkdir_error
        page output_path parent_dir image_counter).2
       = length (image_requests access_token soup) ∧
     ∃ resolved,
       tags resolved =
         placed access_token (is_child_page (plan_page page output_path parent_dir))
           (tags (_convert_bold_spans (_clean_machine_generated_alt_text soup)))
           (download_images lower md5_hexdigest url_path_ext http_head http_get_save
              (image_requests access_token soup) (page_title (node_page page)) 0) ∧
       ∀ markdown,
         h2t_handle (simplify_links resolved) = Ok markdown →
         mkdir_error (path_parent (markdown_path (plan_page page output_path parent_dir)))
           = None →
         write_error (markdown_path (plan_page page output_path parent_dir)) = None →
         (process_page lower md5_hexdigest url_path_ext http_head http_get_save access_token
            parse_html h2t_handle get_page_content write_error mkdir_error
            page output_path parent_dir image_counter).1 =
           Ok (markdown_path (plan_page page output_path parent_dir),
               py "# " ++ page_title (node_page page) ++ [10; 10] ++
               clean_markdown markdown)).
Proof.
  split_and!.
  - intros u t h c0 r c E. apply download_image_spec in E.
    destruct (md5_hexdigest u) as [digest|msg] eqn:Hu.
    + destruct E as [-> Hname]. split_and!; [done|done|].
      intros p Hp. destruct (Hname p Hp) as (ext & Hext & ->).
      exists digest, ext. split_and!; [done|done| |done].
      rewrite length_take, (md5_length u digest Hu). done.
    + destruct E as [-> ->]. split_and!; [done| |done]. by intros msg' _.
  - intros calls t c i p Hcalls H. by eapply download_images_counter.
  - intros tok t child soup c Hnd. by apply resolve_images_placed.
  - intros tok parse h2t content write mkdir page out parent c html soup H1 H2 H3 H4 H5.
    by eapply process_page_images.
Qed.

Lemma image_name_and_counter_witness :
  (∀ url digest, md5_stub url = Ok digest → length digest = 32%nat) ∧
  (process_page ascii_lower md5_stub ext_stub head_stub get_stub None
     parse_images_stub h2t_stub content_stub write_stub mkdir_stub
     (titled "Notes" []) [py "output"; py "section"] None 7).2 = 2%nat.
Proof.
  split; [exact md5_stub_length|].
  refine (proj1 (proj2 (proj2 (proj2
            (image_name_and_counter ascii_lower md5_stub ext_stub head_stub get_stub
               md5_stub_length))) None parse_images_stub h2t_stub content_stub write_stub
            mkdir_stub (titled "Notes" []) [py "output"; py "section"] None 7%nat
            (py "hello") two_images _ _ _ _ _)).
  - reflexivity.
  - reflexivity.
  - reflexivity.
  - apply (bool_decide_unpack _). by vm_compute.
  - apply Forall_forall. intros call _. by eexists.
Defined.

(** C7 as stated fails: the first image of a page carries 1, not 0. *)
Lemma first_image_carries_one :
  download_image ascii_lower md5_stub ext_stub head_stub get_stub
    (py "https://example.com/a") (py "Notes") None 0
  = (Some (py "images/notes_image_d41d8cd9_1.png"), 1%nat) ∧
  (download_image ascii_lower md5_stub ext_stub head_stub get_stub
     (py "https://example.com/a") (py "Notes") None 0).1
  ≠ Some (py "images/" ++
          local_filename (sanitize_image_filename ascii_lower (py "Notes"))
            (py "d41d8cd9") 0 (py ".png")) ∧
  tags (resolve_images ascii_lower md5_stub ext_stub head_stub get_stub None
          (py "Notes") false two_images 0).1 =
    [(0%nat, py "[document]", []);
     (1%nat, py "img", [(py "src", py "images/notes_image_d41d8cd9_1.png")]);
     (2%nat, py "p", []);
     (3%nat, py "img", [(py "src", py "images/notes_image_d41d8cd9_2.png")])].
Proof. split_and!; [by vm_compute|vm_compute; discriminate|by vm_compute]. Qed.

(** * Further properties *)

(** ** The sanitizers *)

Section Sanitizer_more.
Import Str StrFacts.

Lemma head_last_not_dot (s : pystr) :
  s ≠ [] → ends_outside (in_chars " .-") s → s ≠ py "." ∧ s ≠ py "..".
Proof.
  intros Hne [Hh _]. split; intros ->; by specialize (Hh _ eq_refl).
Qed.

End Sanitizer_more.

(** X1: a sanitized title is one safe path component: it has no slash and
    no backslash, it is neither [.] nor [..], it does not begin or end with
    a space, a dot or a dash, and it has no two dashes and no two spaces in
    a row. *)
Theorem sanitize_filename_component (s : pystr) :
  (chr "/" ∉ sanitize_filename s) ∧ (chr "\" ∉ sanitize_filename s) ∧
  sanitize_filename s ≠ py "." ∧ sanitize_filename s ≠ py ".." ∧
  ends_outside (in_chars " .-") (sanitize_filename s) ∧
  no_adjacent (N.eqb (chr "-")) (sanitize_filename s) ∧
  no_adjacent (N.eqb (chr " ")) (sanitize_filename s).
Proof.
  destruct (sanitize_filename_clean s) as (Hne & Hsl & Hbs & _ & Hd & Hsp & Hends).
  destruct (head_last_not_dot _ Hne Hends). by split_and!.
Qed.

(** X2: a sanitized image name is made of the characters [a-z0-9.-] only,
    whatever the lower-casing of the runtime does; it does not begin or end
    with a dot or a dash and has no two dashes in a row. *)
Theorem sanitize_image_filename_alphabet (lower : pystr → pystr) (s : pystr) :
  Forall (λ c, is_image_safe c = true) (sanitize_image_filename lower s) ∧
  ends_outside (in_chars ".-") (sanitize_image_filename lower s) ∧
  no_adjacent (N.eqb (chr "-")) (sanitize_image_filename lower s).
Proof.
  destruct (sanitize_image_filename_clean lower s) as (_ & Hsafe & Hd & Hends). done.
Qed.

(** X3: the titles that [sanitize_filename] returns unchanged are exactly
    the clean ones: not empty, without slash, backslash or control
    character, without two dashes or two spaces in a row, and not beginning
    or ending with a space, a dot or a dash. *)
Theorem sanitize_filename_fixed_points (s : pystr) :
  sanitize_filename s = s ↔ clean_title s.
Proof.
  split.
  - intros <-. apply sanitize_filename_clean.
  - apply sanitize_filename_fixpoint.
Qed.

(** ** Lines and the clean-up *)

Section Lines.

Lemma linebreak_is_space c : is_linebreak c = true → is_space c = true.
Proof. unfold is_linebreak, is_space. char_cases. Qed.

Lemma rev_alt_reverse {A} (l : list A) : rev l = reverse l.
Proof. unfold reverse. apply rev_alt. Qed.

(** Reading a stretch without line boundary puts it on the current line. *)
Lemma splitlines_from_stretch line cur rest :
  no_linebreak line →
  splitlines_from false cur (line ++ rest) = splitlines_from false (reverse line ++ cur) rest.
Proof.
  intros H. revert cur. induction H as [|c line Hc _ IH]; intros cur; [done|].
  cbn [app splitlines_from andb]. rewrite Hc, IH, reverse_cons, <-app_assoc. done.
Qed.

Lemma splitlines_join lines :
  Forall no_linebreak lines → (∀ line, last lines = Some line → line ≠ []) →
  splitlines (Str.join [10] lines) = lines.
Proof.
  unfold splitlines. induction 1 as [|line lines Hline Hlines IH]; intros Hlast; [done|].
  destruct lines as [|line' lines].
  - cbn [Str.join]. rewrite <-(app_nil_r line), splitlines_from_stretch by done.
    rewrite app_nil_r. cbn [splitlines_from]. specialize (Hlast line eq_refl).
    destruct (reverse line) eqn:E.
    + apply (f_equal reverse) in E. rewrite reverse_involutive in E. by rewrite E in Hlast.
    + by rewrite <-E, rev_alt_reverse, reverse_involutive, app_nil_r.
  - change (Str.join [10] (line :: line' :: lines))
      with (line ++ 10 :: Str.join [10] (line' :: lines)).
    rewrite splitlines_from_stretch by done. rewrite app_nil_r.
    cbn [splitlines_from andb]. change (is_linebreak 10) with true. cbn iota.
    change (10 =? 13) with false. rewrite IH.
    + by rewrite rev_alt_reverse, reverse_involutive.
    + intros l Hl. apply Hlast. by rewrite last_cons_cons.
Qed.

Lemma splitlines_from_no_linebreak after_cr cur s :
  no_linebreak cur → Forall no_linebreak (splitlines_from after_cr cur s).
Proof.
  revert after_cr cur. induction s as [|c s IH]; intros after_cr cur Hcur.
  - cbn. destruct cur; [constructor|]. repeat constructor.
    rewrite rev_alt_reverse. unfold no_linebreak. by rewrite Forall_reverse.
  - cbn [splitlines_from]. destruct (after_cr && (c =? 10)); [by apply IH|].
    destruct (is_linebreak c) eqn:E.
    + constructor; [|apply IH; constructor].
      rewrite rev_alt_reverse. unfold no_linebreak. by rewrite Forall_reverse.
    + apply IH. by constructor.
Qed.

Lemma clean_lines_facts markdown :
  Forall no_linebreak (clean_lines markdown) ∧
  Forall (ends_outside is_space) (clean_lines markdown) ∧
  no_adjacent is_blank (clean_lines markdown) ∧
  ends_outside is_blank (clean_lines markdown).
Proof.
  rewrite clean_lines_canonical. unfold canonical_lines. split_and!.
  - apply trim_Forall. eapply Forall_sublist; [apply squeeze_sublist|].
    apply Forall_fmap. eapply Forall_impl; [apply splitlines_from_no_linebreak; constructor|].
    intros line Hline. cbn. unfold Str.strip, Str.lstrip, Str.rstrip.
    by apply trim_Forall.
  - apply trim_Forall. eapply Forall_sublist; [apply squeeze_sublist|].
    apply Forall_fmap, Forall_forall. intros line _. apply trim_ends_outside.
  - apply trim_no_adjacent, squeeze_no_adjacent.
  - apply trim_ends_outside.
Qed.

(** Lines in canonical form are what the clean-up makes of their text. *)
Lemma clean_lines_of_join lines :
  Forall no_linebreak lines → Forall (ends_outside is_space) lines →
  no_adjacent is_blank lines → ends_outside is_blank lines →
  clean_lines (Str.join [10] lines) = lines.
Proof.
  intros Hnl Hsp Hadj Hends. rewrite clean_lines_canonical. unfold canonical_lines.
  rewrite splitlines_join; [|done|].
  2:{ intros line Hl ->. destruct Hends as [_ Hl']. by specialize (Hl' _ Hl). }
  assert (map (Str.strip is_space) lines = lines) as ->.
  { clear -Hsp. induction Hsp as [|line lines Hline _ IH]; [done|]. cbn [map].
    rewrite IH. f_equal. by apply trim_id. }
  rewrite squeeze_id by done. by apply trim_id.
Qed.

End Lines.

(** X4: the clean-up is idempotent, and its text read back line by line
    gives the lines it kept: cleaning a cleaned Markdown text changes
    nothing. *)
Theorem clean_markdown_idempotent (markdown : pystr) :
  clean_markdown (clean_markdown markdown) = clean_markdown markdown ∧
  splitlines (clean_markdown markdown) = clean_lines markdown.
Proof.
  destruct (clean_lines_facts markdown) as (Hnl & Hsp & Hadj & Hends). split.
  - unfold clean_markdown at 1 3. f_equal. unfold clean_markdown.
    by apply clean_lines_of_join.
  - unfold clean_markdown. apply splitlines_join; [done|].
    intros line Hl ->. destruct Hends as [_ Hl']. by specialize (Hl' _ Hl).
Qed.

(** ** The image fetcher *)

Section Image_more.

Variable lower : pystr → pystr.
Variable md5_hexdigest : pystr → result pystr.
Variable url_path_ext : pystr → result pystr.
Variable http_head : pystr → result pystr.
Variable http_get_save : pystr → pystr → result unit.

Local Abbreviation ext_of := (image_ext url_path_ext http_head).
Local Abbreviation fetch_image :=
  (download_image lower md5_hexdigest url_path_ext http_head http_get_save).

Lemma Ok_inj {A} (x y : A) : Ok x = Ok y → x = y.
Proof. by intros [= ->]. Qed.

Lemma sanitized_no_dot s :
  (if Str.startswith (py ".") (sanitize_filename s) then sanitize_filename s
   else chr "." :: sanitize_filename s) = chr "." :: sanitize_filename s.
Proof.
  destruct (sanitize_filename_clean s) as (Hne & _ & _ & _ & _ & _ & [Hh _]).
  destruct (sanitize_filename s) as [|c r]; [done|].
  specialize (Hh c eq_refl).
  change (py ".") with [chr "."]. cbn [Str.startswith].
  destruct (N.eqb_spec (chr ".") c) as [<-|]; [done|]. done.
Qed.

(** The extension is a dot and a sanitized name. *)
Lemma image_ext_sanitized image_url headers ext :
  ext_of image_url headers = Ok ext → ∃ e, ext = chr "." :: e ∧ clean_title e.
Proof.
  unfold image_ext. destruct (url_path_ext image_url) as [e0|]; cbn [bind]; [|done].
  match goal with |- bind ?r _ = _ → _ => destruct r as [e1|]; cbn [bind]; [|done] end.
  intros H. apply Ok_inj in H. subst ext. cbv zeta. rewrite sanitized_no_dot.
  eexists. split; [done|].
  apply sanitize_filename_clean.
Qed.

Lemma clean_title_name_chars e : clean_title e → Forall name_char e.
Proof.
  intros (_ & Hsl & Hbs & Hctl & _). apply Forall_forall. intros c Hc.
  eapply Forall_forall in Hctl; [|exact Hc]. split_and!; [by intros ->|by intros ->|done].
Qed.

Lemma image_safe_name_char c : is_image_safe c = true → name_char c.
Proof.
  intros H. split_and!; [by intros ->|by intros ->|by apply image_safe_not_control].
Qed.

Lemma digit_name_char c : is_digit c = true → name_char c.
Proof.
  intros H. unfold name_char, is_control. unfold is_digit in H.
  split_and!; [intros ->; done|intros ->; done|]. char_cases.
Qed.

End Image_more.

(** X5: the extension of an image file.  It is always a dot followed by a
    sanitized name.  When the URL path has none it is [.png], unless
    there are headers and the probe names a content type with [image/];
    when the probe raises there is no default: [download_image] gives up the
    image, returns [None] and, the URL being hashed by then, has advanced
    the counter. *)
Theorem image_extension_rules
    (lower : pystr → pystr) (md5_hexdigest : pystr → result pystr)
    (url_path_ext http_head : pystr → result pystr)
    (http_get_save : pystr → pystr → result unit) :
  (∀ image_url headers ext,
     image_ext url_path_ext http_head image_url headers = Ok ext →
     ∃ e, ext = chr "." :: e ∧ clean_title e) ∧
  (∀ image_url, url_path_ext image_url = Ok [] →
     image_ext url_path_ext http_head image_url None = Ok (py ".png")) ∧
  (∀ image_url token content_type,
     url_path_ext image_url = Ok [] → http_head image_url = Ok content_type →
     Str.contains (py "image/") content_type = false →
     image_ext url_path_ext http_head image_url (Some token) = Ok (py ".png")) ∧
  (∀ image_url token msg page_title image_counter digest,
     url_path_ext image_url = Ok [] → http_head image_url = Raise msg →
     md5_hexdigest image_url = Ok digest →
     image_ext url_path_ext http_head image_url (Some token) = Raise msg ∧
     download_image lower md5_hexdigest url_path_ext http_head http_get_save
       image_url page_title (Some token) image_counter = (None, S image_counter)).
Proof.
  split_and!.
  - apply image_ext_sanitized.
  - intros u Hu. unfold image_ext. rewrite Hu. cbn [bind]. by vm_compute.
  - intros u token ct Hu Hct Hno. unfold image_ext. rewrite Hu. cbn [bind].
    rewrite Hct. cbn [bind]. rewrite Hno. by vm_compute.
  - intros u token msg t c digest Hu Hmsg Hdigest.
    assert (image_ext url_path_ext http_head u (Some token) = Raise msg) as E.
    { unfold image_ext. rewrite Hu. cbn [bind]. by rewrite Hmsg. }
    split; [done|]. unfold download_image. rewrite Hdigest, E. cbn [bind].
    by rewrite Nat.add_1_r.
Qed.

Lemma image_extension_rules_witness :
  image_ext (λ _, Ok []) head_stub (py "https://example.com/a") None = Ok (py ".png").
Proof.
  exact (proj1 (proj2 (image_extension_rules ascii_lower md5_stub (λ _, Ok []) head_stub
                         get_stub)) (py "https://example.com/a") eq_refl).
Defined.

(** X6: the path [download_image] returns is [images/] followed by a file
    name without slash, backslash or control character, the digest being
    made of the characters of a hex digest: the image is written inside the
    images directory. *)
Theorem image_name_is_a_file_name
    (lower : pystr → pystr) (md5_hexdigest : pystr → result pystr)
    (url_path_ext http_head : pystr → result pystr)
    (http_get_save : pystr → pystr → result unit)
    (md5_hex : ∀ url digest, md5_hexdigest url = Ok digest →
               Forall (λ c, is_image_safe c = true) digest)
    (image_url page_title : pystr) (headers : option pystr) (image_counter : nat)
    (local_path : pystr) (c : nat) :
  download_image lower md5_hexdigest url_path_ext http_head http_get_save
    image_url page_title headers image_counter = (Some local_path, c) →
  ∃ name, local_path = py "images/" ++ name ∧ name ≠ [] ∧ Forall name_char name.
Proof.
  intros H. apply download_image_spec in H.
  destruct (md5_hexdigest image_url) as [digest|msg] eqn:Hdigest; [|by destruct H].
  destruct H as [-> Hname]. destruct (Hname _ eq_refl) as (ext & Hext & ->).
  apply image_ext_sanitized in Hext as (e & -> & He).
  eexists. split; [done|]. unfold local_filename. split.
  - intros E. apply (f_equal length) in E. rewrite !length_app in E. cbn in E. lia.
  - rewrite !Forall_app. split_and!.
    + destruct (sanitize_image_filename_clean lower page_title) as (_ & Hsafe & _).
      eapply Forall_impl; [exact Hsafe|]. apply image_safe_name_char.
    + repeat constructor; done.
    + apply Forall_take. eapply Forall_impl; [by eapply md5_hex|].
      apply image_safe_name_char.
    + repeat constructor; done.
    + eapply Forall_impl; [apply str_of_nat_digits|]. apply digit_name_char.
    + constructor; [repeat constructor; done|]. by apply clean_title_name_chars.
Qed.

Lemma md5_stub_hex :
  ∀ url digest, md5_stub url = Ok digest → Forall (λ c, is_image_safe c = true) digest.
Proof. intros url digest [= <-]. apply (bool_decide_unpack _). by vm_compute. Qed.

Lemma image_name_is_a_file_name_witness :
  (∀ url digest, md5_stub url = Ok digest →
                 Forall (λ c, is_image_safe c = true) digest) ∧
  ∃ name, py "images/notes_image_d41d8cd9_1.png" = py "images/" ++ name ∧ name ≠ [] ∧
          Forall name_char name.
Proof.
  split; [exact md5_stub_hex|].
  exact (image_name_is_a_file_name ascii_lower md5_stub ext_stub head_stub get_stub
           md5_stub_hex (py "https://example.com/a") (py "Notes") None 0%nat
           (py "images/notes_image_d41d8cd9_1.png") 1%nat eq_refl).
Defined.

(** ** The page hierarchy *)

Section Levels.

Local Open Scope Z_scope.

Lemma levelled_PNode p kids :
  levelled (PNode p kids) ↔
  Forall (λ k, get_level (node_page k) = get_level p + 1 ∧ levelled k) kids.
Proof.
  cbn [levelled]. induction kids as [|k kids IH]; [by split; [constructor|]|].
  rewrite Forall_cons, <-IH. tauto.
Qed.

Lemma obj_levelled_PObj r p kids :
  obj_levelled (PObj r p kids) ↔
  Forall (λ k, get_level (obj_page k) = get_level p + 1 ∧ obj_levelled k) kids.
Proof.
  cbn [obj_levelled]. induction kids as [|k kids IH]; [by split; [constructor|]|].
  rewrite Forall_cons, <-IH. tauto.
Qed.

Lemma node_page_to_node o : node_page (to_node o) = obj_page o.
Proof. by destruct o. Qed.

Lemma obj_page_append parent child o : obj_page (append_child parent child o) = obj_page o.
Proof. destruct o as [r p kids]. cbn [append_child]. by case_bool_decide. Qed.

Lemma levelled_to_node o : obj_levelled o → levelled (to_node o).
Proof.
  induction o as [r p kids IH] using PageObj_forall_ind.
  rewrite obj_levelled_PObj. cbn [to_node]. rewrite levelled_PNode. intros H.
  apply Forall_fmap. induction IH as [|k kids Hk _ IHk]; [constructor|].
  apply Forall_cons in H as [[Hl Hlev] H]. constructor; [|by apply IHk].
  cbn. rewrite node_page_to_node. split; [done|by apply Hk].
Qed.

Lemma obj_levelled_append all_pages parent child o :
  well_placed all_pages o → obj_levelled o → obj_levelled child →
  ref_level all_pages parent = Some (get_level (obj_page child) - 1) →
  obj_levelled (append_child parent child o).
Proof.
  intros Hwp Ho Hchild Hparent. induction o as [r p kids IH] using PageObj_forall_ind.
  apply well_placed_PObj in Hwp as [Hp Hkids]. apply obj_levelled_PObj in Ho.
  cbn [append_child]. case_bool_decide.
  - subst r. apply obj_levelled_PObj, Forall_app. split; [done|].
    apply Forall_singleton. split; [|done].
    unfold ref_level in Hparent. rewrite Hp in Hparent. cbn in Hparent.
    injection Hparent as Hparent. lia.
  - apply obj_levelled_PObj, Forall_fmap.
    induction IH as [|k kids Hk _ IHk]; [constructor|].
    apply Forall_cons in Hkids as [[_ Hwk] Hkids]. apply Forall_cons in Ho as [[Hl Hlev] Ho].
    constructor; [|by apply IHk]. cbn. rewrite obj_page_append.
    split; [done|by apply Hk].
Qed.

Variable all_pages : list Page.

Lemma build_step_levelled k b page :
  built all_pages k b → all_pages !! k = Some page →
  Forall obj_levelled (root_pages b) →
  Forall obj_levelled (root_pages (build_step all_pages b k page)).
Proof.
  intros (_ & _ & Hwp & _) Hk Hlev. unfold build_step.
  assert (obj_levelled (PObj k page [])) as Hnew by done.
  destruct (get_level page =? 0) eqn:E; cbn [root_pages].
  { apply Forall_app. split; [done|by constructor]. }
  destruct (find _ _) as [parent|] eqn:Hfind; cbn [root_pages].
  2:{ apply Forall_app. split; [done|by constructor]. }
  apply find_some in Hfind as [_ Hparent]. apply bool_decide_eq_true in Hparent.
  apply Forall_fmap, Forall_forall. intros o Ho. cbn.
  apply (obj_levelled_append all_pages); [|by eapply Forall_forall in Hlev|done|done].
  by eapply Forall_forall in Hwp.
Qed.

(** The pages of the roots that are at level 0 are the records at level 0,
    in the order of the listing. *)
Lemma build_step_top_level k b page :
  all_pages !! k = Some page →
  filter (λ p, get_level p = 0) (map obj_page (root_pages b))
    = filter (λ p, get_level p = 0) (take k all_pages) →
  filter (λ p, get_level p = 0) (map obj_page (root_pages (build_step all_pages b k page)))
    = filter (λ p, get_level p = 0) (take (S k) all_pages).
Proof.
  intros Hk Hroots. rewrite (take_S_r _ _ _ Hk), filter_app, <-Hroots. unfold build_step.
  assert (∀ parent child objs,
            map obj_page (map (append_child parent child) objs) = map obj_page objs) as Happ.
  { intros parent child objs. rewrite map_map. apply map_ext. intros o.
    apply obj_page_append. }
  destruct (Z.eqb_spec (get_level page) 0) as [E|E]; cbn [root_pages].
  { by rewrite map_app, filter_app. }
  rewrite (filter_cons_False _ page), filter_nil, app_nil_r by done.
  destruct (find _ _); cbn [root_pages]; [by rewrite Happ|].
  rewrite map_app, filter_app. cbn [map]. 
  by rewrite (filter_cons_False _ page), filter_nil, app_nil_r.
Qed.

Lemma build_from_levels todo :
  ∀ k b, built all_pages k b → drop k all_pages = todo →
  Forall obj_levelled (root_pages b) →
  filter (λ p, get_level p = 0) (map obj_page (root_pages b))
    = filter (λ p, get_level p = 0) (take k all_pages) →
  let b' := build_from all_pages k todo b in
  Forall obj_levelled (root_pages b') ∧
  filter (λ p, get_level p = 0) (map obj_page (root_pages b'))
    = filter (λ p, get_level p = 0) (take (k + length todo) all_pages).
Proof.
  induction todo as [|page todo IH]; intros k b Hb Hdrop Hlev Htop.
  - cbn. by rewrite Nat.add_0_r.
  - assert (all_pages !! k = Some page) as Hk.
    { by rewrite <-(Nat.add_0_r k), <-lookup_drop, Hdrop. }
    cbn [build_from length]. rewrite Nat.add_succ_r, <-Nat.add_succ_l. apply IH.
    + by apply build_step_built.
    + rewrite (drop_S _ _ _ Hk) in Hdrop. by injection Hdrop.
    + by apply build_step_levelled.
    + by apply build_step_top_level.
Qed.

End Levels.

Lemma build_tree_levels fetched :
  Forall levelled (build_tree fetched) ∧
  filter (λ p, get_level p = 0%Z) (map node_page (build_tree fetched))
    = filter (λ p, get_level p = 0%Z) (sort_pages fetched).
Proof.
  destruct (build_from_levels (sort_pages fetched) (sort_pages fetched) 0
              (mkBuilder [] [])) as [Hlev Htop]; [|done|constructor|done|].
  { unfold built. cbn. split_and!; [done|by rewrite take_0|constructor|constructor]. }
  cbn in Hlev, Htop. rewrite firstn_all in Htop. unfold build_tree, build. split.
  - apply Forall_fmap. eapply Forall_impl; [exact Hlev|]. apply levelled_to_node.
  - rewrite <-Htop, map_map. f_equal. apply map_ext. intros o. apply node_page_to_node.
Qed.

(** X7: in the hierarchy [get_pages] builds, every child is exactly one
    level below its parent, and the roots at level 0 are the records at
    level 0, in the order of the sorted listing. *)
Theorem hierarchy_levels (fetched : list Page) :
  Forall levelled (build_tree fetched) ∧
  filter (λ p, get_level p = 0%Z) (map node_page (build_tree fetched))
    = filter (λ p, get_level p = 0%Z) (sort_pages fetched).
Proof. apply build_tree_levels. Qed.

Section Well_formed.

Local Open Scope Z_scope.

Variable all_pages : list Page.
Hypothesis ids_distinct : NoDup (map page_id all_pages).
Hypothesis listing_ok : well_formed_listing all_pages.

(** With distinct ids [page_map] holds every record processed, in order,
    and only records at level 0 become roots. *)
Lemma build_step_roots k b page :
  all_pages !! k = Some page →
  (page_map b).*1 = map page_id (take k all_pages) →
  Dict.values (page_map b) = seq 0 k →
  Forall (λ o, get_level (obj_page o) = 0) (root_pages b) →
  let b' := build_step all_pages b k page in
  (page_map b').*1 = map page_id (take (S k) all_pages) ∧
  Dict.values (page_map b') = seq 0 (S k) ∧
  Forall (λ o, get_level (obj_page o) = 0) (root_pages b').
Proof.
  intros Hk Hkeys Hvals Hroots.
  assert (page_id page ∉ (page_map b).*1) as Hfresh.
  { rewrite Hkeys. rewrite <-(take_drop k all_pages), (drop_S _ _ _ Hk) in ids_distinct.
    rewrite map_app in ids_distinct. apply NoDup_app in ids_distinct as (_ & Hdisj & _).
    intros Hin. apply (Hdisj _ Hin). cbn [map]. apply elem_of_cons. by left. }
  assert (Dict.values (Dict.set (page_id page) k (page_map b)) = seq 0 (S k)) as Hv.
  { unfold Dict.values in *. by rewrite dict_set_fresh, fmap_app, Hvals, seq_S. }
  assert ((Dict.set (page_id page) k (page_map b)).*1 = map page_id (take (S k) all_pages))
    as Hks.
  { by rewrite dict_set_keys, Hkeys, (take_S_r _ _ _ Hk), map_app. }
  assert (∀ parent child objs,
            Forall (λ o, get_level (obj_page o) = 0) objs →
            Forall (λ o, get_level (obj_page o) = 0) (map (append_child parent child) objs))
    as Happ.
  { intros parent child objs H. apply Forall_fmap. eapply Forall_impl; [exact H|].
    intros o Ho. cbn. by rewrite obj_page_append. }
  unfold build_step. destruct (Z.eqb_spec (get_level page) 0) as [E|E].
  { cbn [page_map root_pages]. split_and!; [done..|].
    apply Forall_app. split; [done|]. by apply Forall_singleton. }
  destruct (find _ _) as [parent|] eqn:Hfind; cbn [page_map root_pages].
  { split_and!; [done..|]. by apply Happ. }
  exfalso. destruct (listing_ok k page Hk E) as (j & q & Hj & Hq & Hlevel).
  eapply find_none in Hfind.
  2:{ apply list_elem_of_In, elem_of_reverse. rewrite Hv. apply elem_of_seq.
      split; [lia|]. instantiate (1 := j). lia. }
  apply bool_decide_eq_false in Hfind. apply Hfind.
  unfold ref_level. rewrite Hq. cbn. by rewrite Hlevel.
Qed.

Lemma build_from_roots todo :
  ∀ k b, drop k all_pages = todo →
  (page_map b).*1 = map page_id (take k all_pages) →
  Dict.values (page_map b) = seq 0 k →
  Forall (λ o, get_level (obj_page o) = 0) (root_pages b) →
  Forall (λ o, get_level (obj_page o) = 0) (root_pages (build_from all_pages k todo b)).
Proof.
  induction todo as [|page todo IH]; intros k b Hdrop Hkeys Hvals Hroots; [done|].
  assert (all_pages !! k = Some page) as Hk.
  { by rewrite <-(Nat.add_0_r k), <-lookup_drop, Hdrop. }
  destruct (build_step_roots k b page Hk Hkeys Hvals Hroots) as (? & ? & ?).
  cbn [build_from]. apply IH; [|done..].
  rewrite (drop_S _ _ _ Hk) in Hdrop. by injection Hdrop.
Qed.

End Well_formed.

(** X8: for a listing with pairwise distinct ids in which every record
    below level 0 comes, in sorted order, after a record one level above
    it, every root of the hierarchy is at level 0: no page is demoted. *)
Theorem well_formed_listing_has_level_0_roots (fetched : list Page)
    (ids_distinct : NoDup (map page_id fetched))
    (listing_ok : well_formed_listing (sort_pages fetched)) :
  Forall (λ n, get_level (node_page n) = 0%Z) (build_tree fetched).
Proof.
  unfold build_tree, build. apply Forall_fmap.
  assert (Forall (λ o, get_level (obj_page o) = 0%Z)
            (root_pages (build_from (sort_pages fetched) 0 (sort_pages fetched)
                           (mkBuilder [] [])))) as H.
  { apply build_from_roots; [|done..|constructor]. by rewrite sort_pages_perm. }
  eapply Forall_impl; [exact H|]. intros o Ho. cbn. by rewrite node_page_to_node.
Qed.

Lemma well_formed_listing_has_level_0_roots_witness :
  NoDup (map page_id [record 2 1 1; record 1 0 0; record 3 2 2]) ∧
  well_formed_listing (sort_pages [record 2 1 1; record 1 0 0; record 3 2 2]) ∧
  Forall (λ n, get_level (node_page n) = 0%Z)
    (build_tree [record 2 1 1; record 1 0 0; record 3 2 2]).
Proof.
  assert (Hids : NoDup (map page_id [record 2 1 1; record 1 0 0; record 3 2 2])).
  { apply (bool_decide_unpack _). by vm_compute. }
  assert (Hok : well_formed_listing (sort_pages [record 2 1 1; record 1 0 0; record 3 2 2])).
  { intros i p Hi Hp. change (sort_pages _) with [record 1 0 0; record 2 1 1; record 3 2 2] in *.
    destruct i as [|[|[|i]]]; cbn in Hi; simplify_eq.
    - by exists 0%nat, (record 1 0 0); split_and!; [lia|..].
    - by exists 1%nat, (record 2 1 1); split_and!; [lia|..]. }
  split; [exact Hids|]. split; [exact Hok|].
  exact (well_formed_listing_has_level_0_roots _ Hids Hok).
Defined.

(** ** Tasks *)

Section Counting.

Lemma foldl_count {A B} (g : A → nat) (h : A → list B) (l : list A) (a : nat) :
  Forall (λ x, g x = length (h x)) l →
  foldl (λ count x, count + g x)%nat a l = (a + length (flat_map h l))%nat.
Proof.
  intros H. revert a. induction H as [|x l Hx _ IH]; intros a; cbn [foldl flat_map].
  - cbn. lia.
  - rewrite IH, length_app, Hx. lia.
Qed.

Lemma count_pages_flatten page : count_pages page = length (flatten page).
Proof.
  induction page as [p kids IH] using PageNode_forall_ind.
  cbn [count_pages flatten length]. by rewrite (foldl_count _ flatten).
Qed.

Lemma total_pages_flatten pages : total_pages pages = length (flat_map flatten pages).
Proof.
  unfold total_pages. rewrite (foldl_count _ flatten); [done|].
  apply Forall_forall. intros page _. apply count_pages_flatten.
Qed.

Lemma hierarchy_lines_length level page :
  length (hierarchy_lines level page) = length (flatten page).
Proof.
  revert level. induction page as [p kids IH] using PageNode_forall_ind. intros level.
  cbn [hierarchy_lines flatten length]. f_equal.
  induction IH as [|k kids Hk _ IHk]; [done|]. cbn [flat_map].
  by rewrite !length_app, Hk, IHk.
Qed.

Variable out : path.

(** One task for each page, parent before children. *)
Lemma collect_pages_flatten page parent_dir :
  map (λ task, node_page task.1) (collect_pages out page parent_dir) = flatten page.
Proof.
  revert parent_dir. induction page as [p kids IH] using PageNode_forall_ind.
  intros parent_dir. cbn [collect_pages flatten map fst node_page]. f_equal.
  generalize (Some (match parent_dir with
                    | Some d => d
                    | None => path_join out (sanitize_filename (page_title p))
                    end)).
  intros dir. induction IH as [|k kids Hk _ IHk]; [done|]. cbn [flat_map].
  by rewrite map_app, Hk, IHk.
Qed.

Lemma collect_all_flatten pages :
  map (λ task, node_page task.1) (collect_all out pages) = flat_map flatten pages.
Proof.
  unfold collect_all. induction pages as [|page pages IH]; [done|]. cbn [flat_map].
  by rewrite map_app, collect_pages_flatten, IH.
Qed.

Lemma build_tree_flatten fetched : flat_map flatten (build_tree fetched) ≡ₚ fetched.
Proof.
  destruct (build_built (sort_pages fetched)) as (_ & Hpages & _).
  unfold build_tree. rewrite flat_map_concat_map, map_map, <-flat_map_concat_map.
  erewrite flat_map_ext; [|intros o; apply flatten_to_node].
  by rewrite Hpages, firstn_all, sort_pages_perm.
Qed.

End Counting.

(** X9: the number of pages announced for a section, the number of lines of
    the hierarchy printed and the number of tasks submitted are the same;
    the tasks are the pages of the hierarchy, each once, a parent before its
    children.  For the hierarchy [get_pages] builds this is the number of
    records fetched, and every record fetched gets exactly one task. *)
Theorem one_task_per_page (out : path) (pages : list PageNode) (fetched : list Page) :
  total_pages pages = length (collect_all out pages) ∧
  length (print_page_hierarchy pages 0) = total_pages pages ∧
  map (λ task, node_page task.1) (collect_all out pages) = flat_map flatten pages ∧
  total_pages (build_tree fetched) = length fetched ∧
  map (λ task, node_page task.1) (collect_all out (build_tree fetched)) ≡ₚ fetched.
Proof.
  split_and!.
  - by rewrite total_pages_flatten, <-(collect_all_flatten out), length_map.
  - rewrite total_pages_flatten. unfold print_page_hierarchy.
    induction pages as [|page pages IH]; [done|]. cbn [flat_map].
    by rewrite !length_app, hierarchy_lines_length, IH.
  - apply collect_all_flatten.
  - rewrite total_pages_flatten. apply Permutation_length, build_tree_flatten.
  - rewrite collect_all_flatten. apply build_tree_flatten.
Qed.

Section Distinct_files.

Variable out : path.

Lemma md_file_title dir p : last (md_file dir p) = Some (sanitize_filename (page_title p) ++ py ".md").
Proof. unfold md_file, path_join. apply last_snoc. Qed.

Lemma markdown_paths_last pages :
  map last (markdown_paths out pages)
  = map (λ p, Some (sanitize_filename (page_title p) ++ py ".md")) (flat_map flatten pages).
Proof.
  rewrite markdown_paths_flat. induction pages as [|[p kids] pages IH]; [done|].
  cbn [flat_map flatten]. rewrite !map_app, IH. f_equal.
  unfold flat_layout. cbn [node_page node_children map]. rewrite md_file_title. f_equal.
  rewrite map_map. apply map_ext. intros q. apply md_file_title.
Qed.

End Distinct_files.

(** X10: when the sanitized titles of the pages of a section are pairwise
    distinct, no two tasks write the same Markdown file. *)
Theorem distinct_titles_distinct_files (out : path) (pages : list PageNode) :
  NoDup (map (λ p, sanitize_filename (page_title p)) (flat_map flatten pages)) →
  NoDup (markdown_paths out pages).
Proof.
  intros H. apply (NoDup_fmap_1 last). change (last <$> ?l) with (map last l).
  rewrite markdown_paths_last.
  rewrite <-(map_map (λ p, sanitize_filename (page_title p)) (λ t, Some (t ++ py ".md"))).
  assert (Inj (=) (=) (λ t : pystr, Some (t ++ py ".md"))) as Hinj.
  { intros t t' [= E]. by apply app_inv_tail in E. }
  exact (NoDup_fmap_2 _ _ H).
Qed.

Lemma distinct_titles_distinct_files_witness :
  NoDup (markdown_paths [py "output"; py "section"]
           [titled "Notes" []; titled "Plans" [titled "Q1" []]]).
Proof.
  apply distinct_titles_distinct_files. apply (bool_decide_unpack _). by vm_compute.
Defined.

(** ** The listing loop *)

Section Fetch_more.

Variable request : nat → result Response.

Lemma fetch_loop_raise fuel : ∀ all_pages page_count k msg,
  fetch_loop request fuel all_pages page_count (k * page_size) = Some (Raise msg) →
  ∃ j, (j < fuel)%nat ∧ request ((k + j) * page_size)%nat = Raise msg.
Proof.
  induction fuel as [|fuel IH]; intros all_pages pc k msg; [done|].
  cbn [fetch_loop]. destruct (request (k * page_size)) as [response|msg'] eqn:E.
  - destruct (value response) as [|p pages]; [done|].
    destruct (_ && _); [|done].
    replace (k * page_size + page_size)%nat with (S k * page_size)%nat by lia.
    intros (j & Hj & Hreq)%IH. exists (S j). split; [lia|].
    by replace (k + S j)%nat with (S k + j)%nat by lia.
  - intros [= ->]. exists 0%nat. split; [lia|]. by rewrite Nat.add_0_r.
Qed.

Lemma fetch_loop_batches fuel : ∀ all_pages page_count k pages,
  fetch_loop request fuel all_pages page_count (k * page_size) = Some (Ok pages) →
  ∃ n, (n ≤ fuel)%nat ∧ pages = all_pages ++ flat_map (batch request) (seq k n).
Proof.
  induction fuel as [|fuel IH]; intros all_pages pc k pages; [done|].
  cbn [fetch_loop]. destruct (request (k * page_size)) as [response|msg'] eqn:E; [|done].
  destruct (value response) as [|p batch1] eqn:Ev.
  - intros [= <-]. exists 0%nat. split; [lia|]. by rewrite app_nil_r.
  - destruct (_ && _).
    + replace (k * page_size + page_size)%nat with (S k * page_size)%nat by lia.
      intros (n & Hn & ->)%IH. exists (S n). split; [lia|].
      cbn [seq flat_map]. unfold batch at 2. by rewrite E, Ev, <-app_assoc.
    + intros [= <-]. exists 1%nat. split; [lia|].
      cbn [seq flat_map]. unfold batch. by rewrite E, Ev, app_nil_r.
Qed.

End Fetch_more.

(** X11: at a listing that advertises the total with every batch,
    [get_pages] fetches batch after batch, given the requests it needs, and
    returns the hierarchy of all the pages of the section. *)
Theorem get_pages_with_count_is_complete (pages : list Page) (fuel : nat) :
  (length pages < fuel * page_size)%nat →
  get_pages (serve true pages) fuel = Some (Ok (build_tree pages)) ∧
  flat_map flatten (build_tree pages) ≡ₚ pages.
Proof.
  intros Hfuel. split; [|apply build_tree_flatten].
  unfold get_pages. rewrite fetch_pages_with_count by done. by destruct pages.
Qed.

Lemma get_pages_with_count_is_complete_witness :
  get_pages (serve true (numbered_pages 250)) 3
    = Some (Ok (build_tree (numbered_pages 250))).
Proof.
  apply get_pages_with_count_is_complete. rewrite numbered_pages_length. cbn. lia.
Defined.

(** X12: what [get_pages] can return.  An exception it raises was raised
    by one of its requests, whose skips are multiples of the batch size, and
    the pages already fetched are dropped with it; the pages it returns are
    those of the first batches, in the order served, none left out or
    repeated by the loop. *)
Theorem get_pages_outcomes (request : nat → result Response) (fuel : nat) :
  (∀ msg, get_pages request fuel = Some (Raise msg) →
     ∃ j, (j < fuel)%nat ∧ request (j * page_size)%nat = Raise msg) ∧
  (∀ forest, get_pages request fuel = Some (Ok forest) →
     ∃ n, (n ≤ fuel)%nat ∧
          forest = build_tree (flat_map (batch request) (seq 0 n))).
Proof.
  unfold get_pages, fetch_pages. split.
  - intros msg. destruct (fetch_loop request fuel [] 0 0) as [[pages|msg']|] eqn:E; [|..|done].
    + by destruct pages.
    + intros [= ->]. by apply (fetch_loop_raise request fuel [] 0%Z 0%nat) in E.
  - intros forest.
    destruct (fetch_loop request fuel [] 0 0) as [[pages|msg']|] eqn:E; [|done..].
    apply (fetch_loop_batches request fuel [] 0%Z 0%nat) in E as (n & Hn & ->).
    cbn [app]. intros H. exists n. split; [done|].
    destruct (flat_map _ _); by injection H as <-.
Qed.

(** ** The retry loop of [_make_request] *)

Lemma backoff_S (delay : Z) (k : nat) :
  backoff delay (S k) = delay :: backoff (delay * 2) k.
Proof.
  unfold backoff. cbn [seq map]. f_equal; [lia|].
  rewrite <- seq_shift, map_map. apply map_ext. intros i.
  rewrite Nat2Z.inj_succ, Z.pow_succ_r by lia. lia.
Qed.

(** The attempts of a list that may be followed by another one. *)
Local Abbreviation retries attempts :=
  (length (filter (λ attempt, attempt < max_retries - 1)%nat attempts)).

Section Make_request_facts.

Context {J : Type}.
Variable get_access_token : nat → Outcome pystr.
Variable requests_get : nat → pystr → Outcome (HttpResponse J).
Variable http_error : nat → pystr.

Local Abbreviation attempts_from :=
  (request_attempts get_access_token requests_get http_error).

Lemma request_attempts_effects (attempts : list nat) :
  ∀ (retry_delay : Z) (bearer : pystr) (s : Session),
    let s' := snd (attempts_from attempts retry_delay bearer s) in
    (requested s ≤ requested s' ≤ requested s + length attempts)%nat ∧
    (acquired s ≤ acquired s' ≤ acquired s + retries attempts)%nat ∧
    ∃ k, (k ≤ retries attempts)%nat ∧ slept s' = slept s ++ backoff retry_delay k.
Proof.
  induction attempts as [|attempt attempts IH]; intros retry_delay bearer s.
  { cbn. split; [lia|]. split; [lia|]. exists 0%nat. split; [lia|].
    by rewrite app_nil_r. }
  assert (Hstop : ∀ s1 : Session,
    (requested s1 = S (requested s)) → (acquired s ≤ acquired s1 ≤ acquired s + 1)%nat →
    (acquired s1 = acquired s ∨ (attempt < max_retries - 1)%nat) →
    slept s1 = slept s →
    (requested s ≤ requested s1 ≤ requested s + length (attempt :: attempts))%nat ∧
    (acquired s ≤ acquired s1 ≤ acquired s + retries (attempt :: attempts))%nat ∧
    ∃ k, (k ≤ retries (attempt :: attempts))%nat ∧
         slept s1 = slept s ++ backoff retry_delay k).
  { intros s1 Hr Ha Ha' Hs. cbn [length]. split; [lia|]. split.
    - destruct Ha' as [->|Hlt]; [lia|]. rewrite filter_cons_True by done. cbn [length]. lia.
    - exists 0%nat. split; [lia|]. by rewrite Hs, app_nil_r. }
  assert (Hagain : ∀ (s1 : Session) delay b,
    (attempt < max_retries - 1)%nat →
    (requested s1 = S (requested s)) → (acquired s ≤ acquired s1 ≤ acquired s + 1)%nat →
    (slept s1 = slept s ∧ delay = retry_delay ∨
     slept s1 = slept s ++ [retry_delay] ∧ delay = (retry_delay * 2)%Z) →
    let s' := snd (attempts_from attempts delay b s1) in
    (requested s ≤ requested s' ≤ requested s + length (attempt :: attempts))%nat ∧
    (acquired s ≤ acquired s' ≤ acquired s + retries (attempt :: attempts))%nat ∧
    ∃ k, (k ≤ retries (attempt :: attempts))%nat ∧
         slept s' = slept s ++ backoff retry_delay k).
  { intros s1 delay b Hlt Hr Ha Hs s'.
    destruct (IH delay b s1) as (Hr' & Ha' & k & Hk & Hs'). fold s' in Hr', Ha', Hs'.
    rewrite filter_cons_True by done. cbn [length]. split; [lia|]. split; [lia|].
    destruct Hs as [[Hs ->]|[Hs ->]].
    - exists k. split; [lia|]. by rewrite Hs', Hs.
    - exists (S k). split; [lia|]. by rewrite Hs', Hs, backoff_S, <- app_assoc. }
  cbn [request_attempts].
  destruct (Nat.ltb_spec attempt (max_retries - 1)) as [Hlt|Hge];
    repeat case_match; subst;
    first
      [ apply Hstop; cbn; first [lia | by auto | by left | by right]
      | apply Hagain; cbn; first [lia | by auto | by left | by right] ].
Qed.

Lemma raise_for_status_Throw (r : HttpResponse J) (e : Exn) :
  raise_for_status http_error r = Throw e →
  (400 ≤ status_code r < 600)%nat ∧ e = RequestException (http_error (status_code r)).
Proof.
  unfold raise_for_status.
  destruct (Nat.leb_spec 400 (status_code r)), (Nat.ltb_spec (status_code r) 600);
    cbn; intros [= <-] || intros [=]; split; [lia|done].
Qed.

Lemma request_attempts_explained (attempts : list nat) :
  ∀ (retry_delay : Z) (bearer : pystr) (s : Session) (final : nat),
    last attempts = Some final → (max_retries - 1 ≤ final)%nat →
    explained get_access_token requests_get http_error
      (fst (attempts_from attempts retry_delay bearer s)).
Proof.
  induction attempts as [|attempt attempts IH]; intros retry_delay bearer s final Hlast Hfinal;
    [done|].
  assert (Hagain : (attempt < max_retries - 1)%nat → ∀ delay b s1,
    explained get_access_token requests_get http_error
      (fst (attempts_from attempts delay b s1))).
  { intros Hlt delay b s1. apply (IH _ _ _ final); [|done].
    rewrite last_cons in Hlast. destruct (last attempts); [done|].
    injection Hlast as ->. lia. }
  cbn [request_attempts].
  destruct (Nat.ltb_spec attempt (max_retries - 1)) as [Hlt|Hge];
    repeat case_match; subst; try (by apply Hagain); cbn [fst];
    try match goal with
    | H : _ && false = true |- _ => by rewrite andb_false_r in H
    end;
    repeat match goal with
    | H : raise_for_status _ _ = Throw _ |- _ =>
        apply raise_for_status_Throw in H; destruct H as [? [=]]; subst
    | u : unit |- _ => destruct u
    end.
  all: first
    [ by (left; do 3 eexists; split_and!; [eassumption|eassumption|congruence])
    | by (right; left; do 3 eexists; split; [eassumption|done])
    | by (right; right; left; do 2 eexists; split; [eassumption|done])
    | by (right; right; right; do 3 eexists; split_and!; [eassumption|lia|lia|done]) ].
Qed.

(** X13: One call of [_make_request] sends between zero and three GET
    requests, asks for a token at most three times (once when the client has
    none, and once for each of the first two attempts), and sleeps not at
    all, or 2 seconds, or 2 and then 4 seconds: never more than twice and
    never longer than 6 seconds in all. *)
Theorem make_request_is_bounded (s : Session) :
  let s' := snd (_make_request get_access_token requests_get http_error s) in
  (requested s ≤ requested s' ≤ requested s + 3)%nat ∧
  (acquired s ≤ acquired s' ≤ acquired s + 3)%nat ∧
  (slept s' = slept s ∨ slept s' = slept s ++ [2%Z] ∨ slept s' = slept s ++ [2%Z; 4%Z]).
Proof.
  assert (Hloop : ∀ bearer s0,
    let s' := snd (attempts_from (seq 0 max_retries) 2 bearer s0) in
    (requested s0 ≤ requested s' ≤ requested s0 + 3)%nat ∧
    (acquired s0 ≤ acquired s' ≤ acquired s0 + 2)%nat ∧
    (slept s' = slept s0 ∨ slept s' = slept s0 ++ [2%Z] ∨
     slept s' = slept s0 ++ [2%Z; 4%Z])).
  { intros bearer s0 s'.
    destruct (request_attempts_effects (seq 0 max_retries) 2 bearer s0)
      as (Hr & Ha & k & Hk & Hs).
    fold s' in Hr, Ha, Hs. change (length (seq 0 max_retries)) with 3%nat in Hr.
    change (retries (seq 0 max_retries)) with 2%nat in Ha, Hk.
    split; [done|]. split; [done|].
    destruct k as [|[|[|k]]]; [| | |lia]; rewrite Hs.
    - left. by rewrite app_nil_r.
    - by right; left.
    - by right; right. }
  cbv zeta in Hloop. unfold _make_request.
  destruct (token s) as [[|c bearer]|].
  2: { destruct (Hloop (c :: bearer) s) as (? & ? & ?). cbv zeta.
       split; [lia|]. split; [lia|done]. }
  all: destruct (get_access_token (acquired s)) as [bearer|e]; cbv zeta; cbn [snd];
    [|cbn; split; [lia|]; split; [lia|]; by left].
  all: match goal with |- context [attempts_from _ _ _ ?s0] =>
         destruct (Hloop bearer s0) as (Hr & Ha & Hs);
         cbn [requested acquired slept token] in Hr, Ha, Hs end.
  all: split; [lia|]; split; [lia|done].
Qed.

(** X14: Whatever [_make_request] returns or raises comes from outside
    it: the outcome is what [response.json()] gives for a response whose
    status [raise_for_status] accepts, or an exception raised by
    [requests.get] or by [get_access_token], or the [HTTPError] of a
    response with a status from 400 to 599. The [raise Exception("All
    retry attempts failed")] that follows the loop is therefore never
    reached. *)
Theorem make_request_outcome_explained (s : Session) :
  explained get_access_token requests_get http_error
    (fst (_make_request get_access_token requests_get http_error s)).
Proof.
  assert (Hloop : ∀ bearer s0,
    explained get_access_token requests_get http_error
      (fst (attempts_from (seq 0 max_retries) 2 bearer s0))).
  { intros bearer s0. by apply (request_attempts_explained _ _ _ _ 2%nat). }
  unfold _make_request.
  destruct (token s) as [[|c bearer]|]; [|apply Hloop|].
  all: destruct (get_access_token (acquired s)) as [bearer|e] eqn:Hacq; [apply Hloop|].
  all: right; right; left; by exists (acquired s), e.
Qed.

(** X15: A 401 answer to the first attempt makes [_make_request] fetch a
    new token and repeat the request with it at once, without sleeping; the
    new token stays in the client. *)
Theorem make_request_refreshes_on_401 (s : Session) (bearer fresh : pystr)
    (first second : HttpResponse J) (body : J) :
  token s = Some bearer → bearer ≠ [] →
  requests_get (requested s) bearer = Return first → status_code first = 401%nat →
  get_access_token (acquired s) = Return fresh →
  requests_get (S (requested s)) fresh = Return second →
  (status_code second < 400)%nat → json second = Return body →
  _make_request get_access_token requests_get http_error s =
    (Return body, mkSession (Some fresh) (S (acquired s)) (S (S (requested s))) (slept s)).
Proof.
  intros Htoken Hbearer Hfirst H401 Hfresh Hsecond Hstatus Hbody.
  unfold _make_request. rewrite Htoken. destruct bearer as [|c bearer]; [done|].
  change (seq 0 max_retries) with [0; 1; 2]%nat.
  cbn [request_attempts requested acquired token slept].
  rewrite Hfirst, H401. cbn [Nat.eqb Nat.ltb Nat.leb max_retries Nat.sub andb].
  rewrite Hfresh. cbn [requested acquired token slept]. rewrite Hsecond.
  destruct (Nat.eqb_spec (status_code second) 401) as [?|_]; [lia|].
  destruct (Nat.eqb_spec (status_code second) 504) as [?|_]; [lia|].
  cbn [andb]. unfold raise_for_status.
  destruct (Nat.leb_spec 400 (status_code second)) as [?|_]; [lia|].
  cbn [andb]. by rewrite Hbody.
Qed.

(** X16: When every attempt is answered with 504, [_make_request] sends
    three requests, sleeps 2 and then 4 seconds between them, and raises
    the [HTTPError] of the third answer; it asks for no token. *)
Theorem make_request_gives_up_on_504 (s : Session) (bearer : pystr) :
  token s = Some bearer → bearer ≠ [] →
  (∀ n, ∃ response, requests_get n bearer = Return response ∧
                    status_code response = 504%nat) →
  _make_request get_access_token requests_get http_error s =
    (Throw (RequestException (http_error 504)),
     mkSession (token s) (acquired s) (requested s + 3) (slept s ++ [2%Z; 4%Z])).
Proof.
  intros Htoken Hbearer H504.
  unfold _make_request. rewrite Htoken. destruct bearer as [|c bearer]; [done|].
  destruct (H504 (requested s)) as (r1 & Hr1 & Hs1).
  destruct (H504 (S (requested s))) as (r2 & Hr2 & Hs2).
  destruct (H504 (S (S (requested s)))) as (r3 & Hr3 & Hs3).
  change (seq 0 max_retries) with [0; 1; 2]%nat.
  cbn [request_attempts requested acquired token slept sleep].
  rewrite Hr1, Hs1. cbn [Nat.eqb Nat.ltb Nat.leb max_retries Nat.sub andb].
  cbn [requested acquired token slept sleep].
  rewrite Hr2, Hs2. cbn [Nat.eqb Nat.ltb Nat.leb max_retries Nat.sub andb].
  cbn [requested acquired token slept sleep].
  rewrite Hr3, Hs3. cbn [Nat.eqb Nat.ltb Nat.leb max_retries Nat.sub andb].
  unfold raise_for_status. rewrite Hs3.
  change ((400 <=? 504)%nat && (504 <? 600)%nat) with true. cbn iota.
  rewrite Htoken, <- app_assoc. do 3 f_equal. lia.
Qed.

End Make_request_facts.

Lemma make_request_refreshes_on_401_witness :
  _make_request (J := nat)
    (λ _, Return (py "new"))
    (λ n _, if (n =? 0)%nat then Return (mkHttp 401 (Return 0%nat))
            else Return (mkHttp 200 (Return 7%nat)))
    (λ _, py "error")
    (mkSession (Some (py "old")) 0 0 []) =
  (Return 7%nat, mkSession (Some (py "new")) 1 2 []).
Proof.
  apply (make_request_refreshes_on_401 (J := nat)
           (λ _, Return (py "new"))
           (λ n _, if (n =? 0)%nat then Return (mkHttp 401 (Return 0%nat))
                   else Return (mkHttp 200 (Return 7%nat)))
           (λ _, py "error")
           (mkSession (Some (py "old")) 0 0 [])
           (py "old") (py "new")
           (mkHttp 401 (Return 0%nat)) (mkHttp 200 (Return 7%nat)) 7%nat);
    [reflexivity | discriminate | reflexivity | reflexivity | reflexivity
    | reflexivity | cbn; lia | reflexivity].
Defined.

Lemma make_request_gives_up_on_504_witness :
  _make_request (J := nat)
    (λ _, Return (py "new"))
    (λ _ _, Return (mkHttp 504 (Return 0%nat)))
    (λ _, py "Gateway Timeout")
    (mkSession (Some (py "old")) 0 0 []) =
  (Throw (RequestException (py "Gateway Timeout")),
   mkSession (Some (py "old")) 0 3 [2%Z; 4%Z]).
Proof.
  apply (make_request_gives_up_on_504 (J := nat)
           (λ _, Return (py "new"))
           (λ _ _, Return (mkHttp 504 (Return 0%nat)))
           (λ _, py "Gateway Timeout")
           (mkSession (Some (py "old")) 0 0 []) (py "old"));
    [reflexivity | discriminate | intros n; eexists; split; reflexivity].
Defined.

(** ** The sections of a run *)

Lemma find_first {A : Type} (f : A → bool) (before after : list A) (x : A) :
  Forall (λ y, f y = false) before → f x = true →
  List.find f (before ++ x :: after) = Some x.
Proof.
  intros Hbefore Hx. induction Hbefore as [|y before Hy _ IH]; cbn.
  - by rewrite Hx.
  - by rewrite Hy.
Qed.

Lemma find_none {A : Type} (f : A → bool) (l : list A) :
  Forall (λ y, f y = false) l → List.find f l = None.
Proof.
  intros Hl. induction Hl as [|y l Hy _ IH]; cbn; [done|]. by rewrite Hy.
Qed.

Section Download_facts.

Variable lower : pystr → pystr.
Variable md5_hexdigest : pystr → result pystr.
Variable url_path_ext : pystr → result pystr.
Variable http_head : pystr → result pystr.
Variable http_get_save : pystr → pystr → result unit.
Variable access_token : option pystr.
Variable parse_html : pystr → result Node.
Variable h2t_handle : Node → result pystr.
Variable get_page_content : pystr → result pystr.
Variable write_error : path → option pystr.
Variable mkdir_error : path → option pystr.
Variable get_notebooks : result (list Named).
Variable get_sections : pystr → result (list Named).
Variable get_pages_of : pystr → result (list PageNode).

Local Abbreviation sections_from :=
  (process_sections lower md5_hexdigest url_path_ext http_head http_get_save
     access_token parse_html h2t_handle get_page_content write_error mkdir_error
     get_pages_of).
Local Abbreviation run_of :=
  (download_and_convert lower md5_hexdigest url_path_ext http_head http_get_save
     access_token parse_html h2t_handle get_page_content write_error mkdir_error
     get_notebooks get_sections get_pages_of).
Local Abbreviation batch_of :=
  (section_batch lower md5_hexdigest url_path_ext http_head http_get_save
     access_token parse_html h2t_handle get_page_content write_error mkdir_error
     get_pages_of).
Local Abbreviation listed :=
  (λ section : Named, ∃ pages, get_pages_of (id_ section) = Ok pages).

(** No directory of the run fails to be made. *)
Hypothesis made : ∀ dir, mkdir_error dir = None.

Lemma process_sections_stop (base : path) (sections rest : list Named) (section : Named)
    (msg : pystr) :
  Forall listed sections → get_pages_of (id_ section) = Raise msg →
  ∀ run, sections_from base (sections ++ section :: rest) run =
    (Raise msg,
     mkRun (dirs run ++ flat_map (section_dirs base) (sections ++ [section]))
           (converted run ++ map (batch_of base) sections)).
Proof.
  intros Hlisted Hraise.
  induction Hlisted as [|s sections [pages Hs] _ IH]; intros run.
  - cbn [app process_sections]. rewrite !made, Hraise.
    cbn [dirs converted flat_map map]. unfold section_dirs.
    by rewrite !app_nil_r, <- app_assoc.
  - cbn [app process_sections]. rewrite !made, Hs, IH. cbn [dirs converted map flat_map].
    unfold section_batch at 2, pages_listed. rewrite Hs. unfold section_dirs at 2.
    f_equal. f_equal; by rewrite <- !app_assoc.
Qed.

Lemma process_sections_all (base : path) (sections : list Named) :
  Forall listed sections →
  ∀ run, sections_from base sections run =
    (Ok tt,
     mkRun (dirs run ++ flat_map (section_dirs base) sections)
           (converted run ++ map (batch_of base) sections)).
Proof.
  intros Hlisted.
  induction Hlisted as [|s sections [pages Hs] _ IH]; intros run.
  - cbn [process_sections flat_map map]. rewrite !app_nil_r. by destruct run.
  - cbn [process_sections]. rewrite !made, Hs, IH. cbn [dirs converted map flat_map].
    unfold section_batch at 2, pages_listed. rewrite Hs. unfold section_dirs at 2.
    f_equal. f_equal; by rewrite <- !app_assoc.
Qed.

Lemma download_and_convert_found (notebook_name : pystr) (section_name : option pystr)
    (output_dir : path) (before after : list Named) (notebook : Named)
    (sections : list Named) :
  get_notebooks = Ok (before ++ notebook :: after) →
  Forall (λ n, displayName n ≠ notebook_name) before →
  displayName notebook = notebook_name →
  get_sections (id_ notebook) = Ok sections →
  select_sections section_name sections ≠ [] →
  run_of notebook_name section_name output_dir =
    sections_from output_dir (select_sections section_name sections) (mkRun [output_dir] []).
Proof.
  intros Hnotebooks Hbefore Hname Hsections Hselected.
  unfold download_and_convert. rewrite made, Hnotebooks.
  rewrite (find_first _ before after notebook).
  - rewrite Hsections. destruct sections as [|s sections].
    + by destruct section_name as [[|]|].
    + by destruct (select_sections section_name (s :: sections)).
  - eapply Forall_impl; [exact Hbefore|]. intros n Hn. by apply bool_decide_eq_false.
  - by apply bool_decide_eq_true.
Qed.

(** X17: when no directory fails to be made, the notebook is found (the
    first one of that name counts),
    has a section to convert, and the pages of each of these sections can be
    listed, [download_and_convert] succeeds: it makes the output directory
    and, section by section, the section's directory and its images
    directory, and converts every selected section in order.  Whether pages
    fail to convert has no part in it: their failures are in the batches. *)
Theorem download_and_convert_succeeds (notebook_name : pystr) (section_name : option pystr)
    (output_dir : path) (before after : list Named) (notebook : Named)
    (sections : list Named) :
  get_notebooks = Ok (before ++ notebook :: after) →
  Forall (λ n, displayName n ≠ notebook_name) before →
  displayName notebook = notebook_name →
  get_sections (id_ notebook) = Ok sections →
  select_sections section_name sections ≠ [] →
  Forall listed (select_sections section_name sections) →
  run_of notebook_name section_name output_dir =
    (Ok tt,
     mkRun (output_dir :: flat_map (section_dirs output_dir)
                            (select_sections section_name sections))
           (map (batch_of output_dir) (select_sections section_name sections))).
Proof.
  intros Hnotebooks Hbefore Hname Hsections Hselected Hlisted.
  rewrite (download_and_convert_found _ _ _ before after notebook sections) by done.
  by rewrite process_sections_all.
Qed.

(** X18: when no directory fails to be made and the pages of a selected
    section cannot be listed, the run
    stops there with that exception: the sections before it have been
    converted, the directories of the failing section have been made, and
    the sections after it are not touched. *)
Theorem download_and_convert_stops (notebook_name : pystr) (section_name : option pystr)
    (output_dir : path) (before after : list Named) (notebook : Named)
    (sections finished rest : list Named) (section : Named) (msg : pystr) :
  get_notebooks = Ok (before ++ notebook :: after) →
  Forall (λ n, displayName n ≠ notebook_name) before →
  displayName notebook = notebook_name →
  get_sections (id_ notebook) = Ok sections →
  select_sections section_name sections = finished ++ section :: rest →
  Forall listed finished →
  get_pages_of (id_ section) = Raise msg →
  run_of notebook_name section_name output_dir =
    (Raise msg,
     mkRun (output_dir :: flat_map (section_dirs output_dir) (finished ++ [section]))
           (map (batch_of output_dir) finished)).
Proof.
  intros Hnotebooks Hbefore Hname Hsections Hselected Hlisted Hraise.
  rewrite (download_and_convert_found _ _ _ before after notebook sections); try done.
  - rewrite Hselected. by rewrite (process_sections_stop _ _ _ _ msg).
  - rewrite Hselected. by destruct finished.
Qed.

(** X19: the output directory made, a notebook name that no notebook
    carries ends the run with
    [Notebook '...' not found], after the output directory has been made
    and before any section or page is asked for. *)
Theorem download_and_convert_no_notebook (notebook_name : pystr)
    (section_name : option pystr) (output_dir : path) (notebooks : list Named) :
  get_notebooks = Ok notebooks →
  Forall (λ n, displayName n ≠ notebook_name) notebooks →
  run_of notebook_name section_name output_dir =
    (Raise (py "Notebook '" ++ notebook_name ++ py "' not found"), mkRun [output_dir] []).
Proof.
  intros Hnotebooks Hnone. unfold download_and_convert.
  rewrite made, Hnotebooks, find_none; [done|].
  eapply Forall_impl; [exact Hnone|]. intros n Hn. by apply bool_decide_eq_false.
Qed.

(** X20: the output directory made, a section name that no section of
    the notebook carries ends the
    run with [Section '...' not found in notebook '...'], before any
    section directory is made and before any page is asked for. *)
Theorem download_and_convert_no_section (notebook_name name : pystr) (output_dir : path)
    (before after : list Named) (notebook : Named) (sections : list Named) :
  get_notebooks = Ok (before ++ notebook :: after) →
  Forall (λ n, displayName n ≠ notebook_name) before →
  displayName notebook = notebook_name →
  get_sections (id_ notebook) = Ok sections → sections ≠ [] →
  name ≠ [] →
  Forall (λ s, displayName s ≠ name) sections →
  run_of notebook_name (Some name) output_dir =
    (Raise (py "Section '" ++ name ++ py "' not found in notebook '" ++
            notebook_name ++ py "'"),
     mkRun [output_dir] []).
Proof.
  intros Hnotebooks Hbefore Hname Hsections Hsome Hne Hnone.
  unfold download_and_convert. rewrite made, Hnotebooks.
  rewrite (find_first _ before after notebook).
  - rewrite Hsections. destruct sections as [|s sections]; [done|].
    destruct name as [|c name]; [done|]. cbn [select_sections].
    assert (Hfilter : filter (λ s, displayName s = c :: name) (s :: sections) = []).
    { clear Hsections Hsome. induction Hnone as [|x l Hx _ IH]; [done|].
      by rewrite filter_cons_False. }
    by rewrite Hfilter.
  - eapply Forall_impl; [exact Hbefore|]. intros n Hn. by apply bool_decide_eq_false.
  - by apply bool_decide_eq_true.
Qed.

End Download_facts.

Local Abbreviation run_stub :=
  (download_and_convert ascii_lower md5_stub ext_stub head_stub get_stub None
     parse_stub h2t_stub content_stub write_stub mkdir_stub notebooks_stub sections_stub
     pages_stub).
Local Abbreviation batch_stub :=
  (section_batch ascii_lower md5_stub ext_stub head_stub get_stub None
     parse_stub h2t_stub content_stub write_stub mkdir_stub pages_stub).

Lemma download_and_convert_succeeds_witness :
  run_stub (py "Home") (Some (py "Notes")) [py "out"] =
  (Ok tt,
   mkRun [[py "out"]; [py "out"; py "Notes"]; [py "out"; py "Notes"; py "images"]]
         [batch_stub [py "out"] (mkNamed (py "Notes") (py "s1"))]).
Proof.
  apply (download_and_convert_succeeds ascii_lower md5_stub ext_stub head_stub get_stub None
           parse_stub h2t_stub content_stub write_stub mkdir_stub notebooks_stub sections_stub
           pages_stub (λ _, eq_refl)
           (py "Home") (Some (py "Notes")) [py "out"]
           [mkNamed (py "Work") (py "n1")] [] (mkNamed (py "Home") (py "n2"))
           [mkNamed (py "Notes") (py "s1"); mkNamed (py "Ideas") (py "s2")]).
  - reflexivity.
  - repeat constructor. vm_compute. discriminate.
  - reflexivity.
  - reflexivity.
  - vm_compute. discriminate.
  - repeat constructor. exists five_pages. reflexivity.
Defined.

Lemma download_and_convert_stops_witness :
  run_stub (py "Home") None [py "out"] =
  (Raise (py "Failed to get pages: 500 - "),
   mkRun [[py "out"]; [py "out"; py "Notes"]; [py "out"; py "Notes"; py "images"];
          [py "out"; py "Ideas"]; [py "out"; py "Ideas"; py "images"]]
         [batch_stub [py "out"] (mkNamed (py "Notes") (py "s1"))]).
Proof.
  apply (download_and_convert_stops ascii_lower md5_stub ext_stub head_stub get_stub None
           parse_stub h2t_stub content_stub write_stub mkdir_stub notebooks_stub sections_stub
           pages_stub (λ _, eq_refl)
           (py "Home") None [py "out"]
           [mkNamed (py "Work") (py "n1")] [] (mkNamed (py "Home") (py "n2"))
           [mkNamed (py "Notes") (py "s1"); mkNamed (py "Ideas") (py "s2")]
           [mkNamed (py "Notes") (py "s1")] [] (mkNamed (py "Ideas") (py "s2"))).
  - reflexivity.
  - repeat constructor. vm_compute. discriminate.
  - reflexivity.
  - reflexivity.
  - reflexivity.
  - repeat constructor. exists five_pages. reflexivity.
  - reflexivity.
Defined.

Lemma download_and_convert_no_notebook_witness :
  run_stub (py "School") None [py "out"] =
  (Raise (py "Notebook 'School' not found"), mkRun [[py "out"]] []).
Proof.
  apply (download_and_convert_no_notebook ascii_lower md5_stub ext_stub head_stub get_stub
           None parse_stub h2t_stub content_stub write_stub mkdir_stub notebooks_stub sections_stub
           pages_stub (λ _, eq_refl) (py "School") None [py "out"]
           [mkNamed (py "Work") (py "n1"); mkNamed (py "Home") (py "n2")]).
  - reflexivity.
  - repeat constructor; vm_compute; discriminate.
Defined.

Lemma download_and_convert_no_section_witness :
  run_stub (py "Work") (Some (py "Plans")) [py "out"] =
  (Raise (py "Section 'Plans' not found in notebook 'Work'"), mkRun [[py "out"]] []).
Proof.
  apply (download_and_convert_no_section ascii_lower md5_stub ext_stub head_stub get_stub
           None parse_stub h2t_stub content_stub write_stub mkdir_stub notebooks_stub sections_stub
           pages_stub (λ _, eq_refl) (py "Work") (py "Plans") [py "out"]
           [] [mkNamed (py "Home") (py "n2")] (mkNamed (py "Work") (py "n1"))
           [mkNamed (py "Notes") (py "s1"); mkNamed (py "Ideas") (py "s2")]).
  - reflexivity.
  - constructor.
  - reflexivity.
  - reflexivity.
  - discriminate.
  - discriminate.
  - repeat constructor; vm_compute; discriminate.
Defined.

(** ** The passes over the document *)

Section Plug_facts.

Lemma oids_fill fr n :
  oids (fill fr n) =
  frame_oid fr :: flat_map oids (frame_before fr) ++ oids n ++ flat_map oids (frame_after fr).
Proof. unfold fill. cbn [oids]. by rewrite flat_map_app. Qed.

Lemma fill_NoDup_inner fr n :
  NoDup (oids (fill fr n)) →
  NoDup (oids n) ∧
  ∀ i, i ∈ oids n →
       i ≠ frame_oid fr ∧ (i ∉ flat_map oids (frame_before fr)) ∧
       (i ∉ flat_map oids (frame_after fr)).
Proof.
  rewrite oids_fill. intros [Hhead Htail]%NoDup_cons.
  apply NoDup_app in Htail as (_ & Hbefore & Htail).
  apply NoDup_app in Htail as (Hn & Hafter & _).
  split; [done|]. intros i Hi. split_and!.
  - intros ->. apply Hhead. rewrite !elem_of_app. auto.
  - intros Hin. apply (Hbefore i Hin). rewrite elem_of_app. auto.
  - by apply Hafter.
Qed.

Lemma plug_NoDup_inner ctx : ∀ n, NoDup (oids (plug ctx n)) → NoDup (oids n).
Proof.
  induction ctx as [|fr ctx IH]; intros n Hnd; [done|].
  cbn [plug] in Hnd. apply IH in Hnd. by apply fill_NoDup_inner in Hnd as [? _].
Qed.

Lemma elem_of_oids_fill fr n i : i ∈ oids n → i ∈ oids (fill fr n).
Proof. rewrite oids_fill, elem_of_cons, !elem_of_app. auto. Qed.

Lemma find_tag_fill fr n i :
  NoDup (oids (fill fr n)) → i ∈ oids n → find_tag i (fill fr n) = find_tag i n.
Proof.
  intros [_ Hother]%fill_NoDup_inner Hi. destruct (Hother i Hi) as (Hne & Hbefore & _).
  unfold fill. rewrite find_tag_Tag, bool_decide_eq_false_2 by done.
  rewrite foldr_app. cbn [foldr].
  destruct (find_tag_Some i n Hi) as [t Ht]. rewrite Ht.
  revert Hbefore. generalize (frame_before fr). intros before.
  induction before as [|c cs IH]; [done|]. cbn [foldr flat_map].
  intros [Hc Hcs]%not_elem_of_app. rewrite (find_tag_None i c) by done.
  by apply IH.
Qed.

Lemma find_tag_plug ctx :
  ∀ n i, NoDup (oids (plug ctx n)) → i ∈ oids n → find_tag i (plug ctx n) = find_tag i n.
Proof.
  induction ctx as [|fr ctx IH]; intros n i Hnd Hi; [done|]. cbn [plug] in *.
  rewrite IH by (done || by apply elem_of_oids_fill).
  apply find_tag_fill; [|done]. by apply plug_NoDup_inner in Hnd.
Qed.

Lemma modify_fill fr n i f :
  NoDup (oids (fill fr n)) → i ∈ oids n → modify i f (fill fr n) = fill fr (modify i f n).
Proof.
  intros [_ Hother]%fill_NoDup_inner Hi.
  destruct (Hother i Hi) as (Hne & Hbefore & Hafter).
  unfold fill. cbn [modify]. rewrite bool_decide_eq_false_2 by done.
  rewrite map_app. cbn [map]. by rewrite !map_modify_id.
Qed.

Lemma modify_plug ctx :
  ∀ n i f, NoDup (oids (plug ctx n)) → i ∈ oids n →
           modify i f (plug ctx n) = plug ctx (modify i f n).
Proof.
  induction ctx as [|fr ctx IH]; intros n i f Hnd Hi; [done|]. cbn [plug] in *.
  rewrite IH by (done || by apply elem_of_oids_fill).
  rewrite modify_fill; [done| |done]. by apply plug_NoDup_inner in Hnd.
Qed.

Lemma plug_NoDup_sublist ctx :
  ∀ n n', oids n' `sublist_of` oids n → NoDup (oids (plug ctx n)) →
          NoDup (oids (plug ctx n')).
Proof.
  induction ctx as [|fr ctx IH]; intros n n' Hsub Hnd.
  - by eapply sublist_NoDup.
  - cbn [plug] in *. apply (IH (fill fr n)); [|done]. rewrite !oids_fill.
    apply sublist_skip, sublist_app; [done|]. by apply sublist_app.
Qed.

Lemma plug_not_elem ctx :
  ∀ n n' j, NoDup (oids (plug ctx n)) → j ∈ oids n → j ∉ oids n' →
            j ∉ oids (plug ctx n').
Proof.
  induction ctx as [|fr ctx IH]; intros n n' j Hnd Hj Hj'; [done|]. cbn [plug] in *.
  apply (IH (fill fr n)); [done|by apply elem_of_oids_fill|].
  apply plug_NoDup_inner, fill_NoDup_inner in Hnd as [_ Hother].
  destruct (Hother j Hj) as (Hne & Hbefore & Hafter).
  rewrite oids_fill, not_elem_of_cons, !not_elem_of_app. auto.
Qed.

End Plug_facts.

(** A loop over the references [find_all] returns, each step mutating the
    element in place, against one walk down the tree. *)
Section Pass.

Variable step : Node → nat → Node.
Variable name : pystr.
Variable decide : Node → Action.

Hypothesis step_miss : ∀ soup i, i ∉ oids soup → step soup i = soup.
Hypothesis step_hit : ∀ ctx i attrs cs,
  NoDup (oids (plug ctx (Tag i name attrs cs))) →
  step (plug ctx (Tag i name attrs cs)) i =
  plug ctx (act (decide (Tag i name attrs cs)) (Tag i name attrs cs)).

Local Abbreviation walk_down := (rewrite_tags name decide).

Lemma oids_rewrite n : oids (walk_down n) `sublist_of` oids n.
Proof.
  induction n as [t|i nm attrs cs IH] using Node_forall_ind; [done|].
  assert (Hkids : flat_map oids (map walk_down cs) `sublist_of` flat_map oids cs).
  { induction IH as [|c cs Hc _ IHcs]; [done|]. cbn [map flat_map]. by apply sublist_app. }
  cbn [rewrite_tags].
  destruct (if bool_decide (nm = name) then decide (Tag i nm attrs cs) else Keep);
    cbn [oids]; [by apply sublist_skip|by apply sublist_skip|apply sublist_nil_l].
Qed.

Lemma foldl_miss soup l : Forall (λ i, i ∉ oids soup) l → foldl step soup l = soup.
Proof.
  induction 1 as [|i l Hi _ IH]; [done|]. cbn [foldl]. by rewrite step_miss.
Qed.

Lemma pass_contents i nm attrs rs :
  Forall (λ c, ∀ ctx, NoDup (oids (plug ctx c)) →
               foldl step (plug ctx c) (find_all name c) = plug ctx (walk_down c)) rs →
  ∀ ls ctx, NoDup (oids (plug ctx (Tag i nm attrs (ls ++ rs)))) →
    foldl step (plug ctx (Tag i nm attrs (ls ++ rs))) (flat_map (find_all name) rs) =
    plug ctx (Tag i nm attrs (ls ++ map walk_down rs)).
Proof.
  induction 1 as [|c rs Hc _ IH]; intros ls ctx Hnd; [done|].
  cbn [flat_map map]. rewrite foldl_app.
  change (plug ctx (Tag i nm attrs (ls ++ c :: rs)))
    with (plug (mkFrame i nm attrs ls rs :: ctx) c) in *.
  rewrite Hc by done.
  apply (plug_NoDup_sublist _ _ (walk_down c)) in Hnd; [|apply oids_rewrite].
  cbn [plug] in *. unfold fill in *.
  cbn [frame_oid frame_name frame_attrs frame_before frame_after] in *.
  replace (ls ++ walk_down c :: rs) with ((ls ++ [walk_down c]) ++ rs) in *
    by (by rewrite <- app_assoc).
  rewrite IH by done. by rewrite <- app_assoc.
Qed.

Lemma pass_plug n :
  ∀ ctx, NoDup (oids (plug ctx n)) →
         foldl step (plug ctx n) (find_all name n) = plug ctx (walk_down n).
Proof.
  induction n as [t|i nm attrs cs IH] using Node_forall_ind; intros ctx Hnd; [done|].
  cbn [find_all rewrite_tags]. case_bool_decide as Hname.
  - subst nm. cbn [app foldl]. rewrite step_hit by done.
    destruct (decide (Tag i name attrs cs)) as [|attrs'|text]; cbn [act set_attrs].
    + by apply (pass_contents i name attrs cs IH []).
    + apply (pass_contents i name attrs' cs IH []).
      by apply (plug_NoDup_sublist _ (Tag i name attrs cs)).
    + apply foldl_miss, Forall_forall. intros j Hj.
      apply (plug_not_elem _ (Tag i name attrs cs)); [done| |by intros ?%elem_of_nil].
      cbn [oids]. apply elem_of_cons. right.
      apply elem_of_flat_map in Hj as (c & Hc & Hin). apply elem_of_flat_map.
      exists c. split; [|done]. eapply elem_of_sublist; [exact Hc|apply find_all_sublist].
  - cbn [app]. by apply (pass_contents i nm attrs cs IH []).
Qed.

Lemma pass_walk soup :
  NoDup (oids soup) → foldl step soup (find_all name soup) = walk_down soup.
Proof. exact (pass_plug soup []). Qed.

End Pass.

Section Pass_instances.

Lemma find_tag_here i nm attrs cs :
  find_tag i (Tag i nm attrs cs) = Some (Tag i nm attrs cs).
Proof. by rewrite find_tag_Tag, bool_decide_eq_true_2. Qed.

Lemma modify_here i f nm attrs cs :
  modify i f (Tag i nm attrs cs) = f (Tag i nm attrs cs).
Proof. cbn [modify]. by rewrite bool_decide_eq_true_2. Qed.

Lemma elem_of_oids_here i nm attrs cs : i ∈ oids (Tag i nm attrs cs).
Proof. cbn [oids]. apply elem_of_cons. by left. Qed.

Lemma clean_alt_step_miss soup i : i ∉ oids soup → clean_alt_step soup i = soup.
Proof. intros Hi. unfold clean_alt_step. by rewrite find_tag_None. Qed.

Lemma clean_alt_step_hit ctx i attrs cs :
  NoDup (oids (plug ctx (Tag i (py "img") attrs cs))) →
  clean_alt_step (plug ctx (Tag i (py "img") attrs cs)) i =
  plug ctx (act (alt_action (Tag i (py "img") attrs cs)) (Tag i (py "img") attrs cs)).
Proof.
  intros Hnd. unfold clean_alt_step.
  rewrite find_tag_plug, find_tag_here by (done || apply elem_of_oids_here).
  cbn [alt_action]. unfold machine_alt.
  destruct (Str.startswith _ _); [|done].
  rewrite modify_plug by (done || apply elem_of_oids_here). by rewrite modify_here.
Qed.

Lemma link_step_miss soup i : i ∉ oids soup → link_step soup i = soup.
Proof. intros Hi. unfold link_step. by rewrite find_tag_None. Qed.

Lemma link_step_hit ctx i attrs cs :
  NoDup (oids (plug ctx (Tag i (py "a") attrs cs))) →
  link_step (plug ctx (Tag i (py "a") attrs cs)) i =
  plug ctx (act (link_action (Tag i (py "a") attrs cs)) (Tag i (py "a") attrs cs)).
Proof.
  intros Hnd. unfold link_step.
  rewrite find_tag_plug, find_tag_here by (done || apply elem_of_oids_here).
  cbn [link_action]. cbv zeta.
  destruct (negb _ && bool_decide _); [|done].
  rewrite modify_plug by (done || apply elem_of_oids_here). by rewrite modify_here.
Qed.

Lemma alt_cleaned_walk n : rewrite_tags (py "img") alt_action n = alt_cleaned n.
Proof.
  induction n as [t|i nm attrs cs IH] using Node_forall_ind; [done|].
  cbn [rewrite_tags alt_cleaned alt_action].
  assert (Hkids : map (rewrite_tags (py "img") alt_action) cs = map alt_cleaned cs).
  { induction IH as [|c cs Hc _ IHcs]; [done|]. cbn [map]. by rewrite Hc, IHcs. }
  rewrite Hkids. case_bool_decide; cbn [andb]; [|done]. by destruct (machine_alt attrs).
Qed.

Lemma links_simplified_walk n : rewrite_tags (py "a") link_action n = links_simplified n.
Proof.
  induction n as [t|i nm attrs cs IH] using Node_forall_ind; [done|].
  cbn [rewrite_tags links_simplified link_action bare_link]. cbv zeta.
  assert (Hkids : map (rewrite_tags (py "a") link_action) cs = map links_simplified cs).
  { induction IH as [|c cs Hc _ IHcs]; [done|]. cbn [map]. by rewrite Hc, IHcs. }
  rewrite Hkids. case_bool_decide; cbn [andb]; [|done].
  by destruct (negb _ && bool_decide _).
Qed.

Lemma alt_cleaned_text n : node_text (alt_cleaned n) = node_text n.
Proof.
  induction n as [t|i nm attrs cs IH] using Node_forall_ind; [done|].
  cbn [alt_cleaned node_text].
  induction IH as [|c cs Hc _ IHcs]; [done|]. cbn [map flat_map]. by rewrite Hc, IHcs.
Qed.

Lemma get_set_same (k v : pystr) (d : list (pystr * pystr)) :
  Dict.get k (Dict.set k v d) = Some v.
Proof.
  unfold Dict.get. induction d as [|[k' v'] d IH]; cbn [Dict.set find].
  - cbn. by rewrite bool_decide_eq_true_2.
  - destruct (decide (k' = k)) as [->|Hne]; cbn [find fst].
    + by rewrite bool_decide_eq_true_2.
    + by rewrite bool_decide_eq_false_2.
Qed.

Local Abbreviation emptied :=
  (λ alt : pystr,
     if Str.startswith (py "Machine generated alternative text:") alt then [] else alt).

Lemma alt_cleaned_alts n : image_alts (alt_cleaned n) = map emptied (image_alts n).
Proof.
  unfold image_alts.
  induction n as [t|i nm attrs cs IH] using Node_forall_ind; [done|].
  cbn [alt_cleaned tags omap list_omap fst snd].
  assert (Hkids :
    omap (λ t : nat * pystr * list (pystr * pystr),
            if bool_decide (t.1.2 = py "img") then Some (default [] (attr "alt" t.2))
            else None) (flat_map tags (map alt_cleaned cs)) =
    map emptied
      (omap (λ t : nat * pystr * list (pystr * pystr),
               if bool_decide (t.1.2 = py "img") then Some (default [] (attr "alt" t.2))
               else None) (flat_map tags cs))).
  { induction IH as [|c cs Hc _ IHcs]; [done|]. cbn [map flat_map].
    by rewrite !omap_app, map_app, Hc, IHcs. }
  rewrite Hkids. case_bool_decide; cbn [andb map]; [|done]. f_equal.
  unfold machine_alt. destruct (Str.startswith _ _) eqn:Hprefix; [|done].
  unfold attr. by rewrite get_set_same.
Qed.

End Pass_instances.

(** X21: for a document whose elements are distinct objects, the loop
    of [_clean_machine_generated_alt_text] over the images found at the
    start does what one walk down the tree does: it empties the [alt] of
    every [img] whose alternative text starts with [Machine generated
    alternative text:] and changes nothing else.  The alternative texts of
    the images afterwards are those before with the machine-generated ones
    emptied, and the text of the document is the same. *)
Theorem clean_alt_text_is_one_walk (soup : Node) :
  NoDup (oids soup) →
  _clean_machine_generated_alt_text soup = alt_cleaned soup ∧
  image_alts (_clean_machine_generated_alt_text soup) =
    map (λ alt, if Str.startswith (py "Machine generated alternative text:") alt
                then [] else alt) (image_alts soup) ∧
  node_text (_clean_machine_generated_alt_text soup) = node_text soup.
Proof.
  intros Hobjects.
  assert (Hwalk : _clean_machine_generated_alt_text soup = alt_cleaned soup).
  { unfold _clean_machine_generated_alt_text.
    rewrite (pass_walk clean_alt_step (py "img") alt_action); [apply alt_cleaned_walk| | |done].
    - apply clean_alt_step_miss.
    - apply clean_alt_step_hit. }
  rewrite Hwalk. split; [done|]. split; [apply alt_cleaned_alts|apply alt_cleaned_text].
Qed.

Lemma clean_alt_text_is_one_walk_witness :
  NoDup (oids page_doc) ∧
  image_alts (_clean_machine_generated_alt_text page_doc) = [[]].
Proof.
  assert (Hnd : NoDup (oids page_doc)).
  { apply (bool_decide_unpack _). by vm_compute. }
  split; [exact Hnd|].
  rewrite (proj1 (proj2 (clean_alt_text_is_one_walk _ Hnd))).
  reflexivity.
Defined.

(** X22: for a document whose elements are distinct objects, the loop
    that simplifies links, which runs over the [a] elements found at the
    start and replaces elements in place, does what one walk down the tree
    does: a link with an [href] that is not empty and equals its stripped
    text becomes that string, together with whatever links it contains;
    a link inside a link that stays is judged by its own text. *)
Theorem simplify_links_is_one_walk (soup : Node) :
  NoDup (oids soup) → simplify_links soup = links_simplified soup.
Proof.
  intros Hobjects. unfold simplify_links.
  rewrite (pass_walk link_step (py "a") link_action); [apply links_simplified_walk| | |done].
  - apply link_step_miss.
  - apply link_step_hit.
Qed.

Lemma simplify_links_is_one_walk_witness :
  NoDup (oids page_doc) ∧
  find_all (py "a") (simplify_links page_doc) = [4%nat].
Proof.
  assert (Hnd : NoDup (oids page_doc)).
  { apply (bool_decide_unpack _). by vm_compute. }
  split; [exact Hnd|].
  rewrite (simplify_links_is_one_walk _ Hnd).
  reflexivity.
Defined.
